(** * pixel-pop: the vector renderer, the raster export and the image import

    A shallow embedding of [src/components/canvas/SVGRenderer.jsx] (pointer
    to cell conversion, viewport tracking, the mouse and touch handlers,
    visible range, grid lines, shape paths and their cache, the three
    layers of a render) and of the handlers of [src/App.jsx] that work on
    the grid ([performExport], [handleImageImport], the eight edge
    operations, the keyboard shortcuts for copy and cut), followed by the
    properties the specification states about them and by further
    properties read off the code.

    - [JS]: JavaScript numbers and the built-in functions the code calls.
    - [SVGRenderer], [App]: the code, function by function.
    - [Spec]: the notions the properties are stated with.
    - the modules that follow: the properties of the specification, C1 to
      C10, then those of the code beside them, X1 onwards.

    JavaScript numbers are modelled by [JS.number]: exact rationals extended
    with [Infinity], [-Infinity] and [NaN].  Rounding of binary floating
    point, overflow and the sign of zero are outside the model; a nonzero
    number divided by zero is the infinity with the sign of the numerator.
    What is proved of a sum, a product or a quotient is therefore proved
    of the exact one.  The properties are chosen so that rounding does not
    decide them: bounds that hold with room to spare, orders that rounding
    keeps, and, where the cell of a point is named exactly, whole numbers
    small enough for the arithmetic of Numbers to be exact.  The one place
    where an integer too long for a Number is read, [parseInt], rounds it.
    React's memoisation is left out: a memo is the function of the values
    it depends on. *)

From Stdlib Require Import ZArith NArith QArith Qcanon Qround List String Ascii Bool Lia Lqa.
From Stdlib Require Import DecimalString.
From Stdlib Require DecimalPos.
Import ListNotations.



(* ================================================================== *)
(** * JavaScript numbers and the [Math] functions the code uses *)
(* ================================================================== *)

Module JS.

Inductive number : Type :=
| Fin (q : Qc)
| PInf
| NInf
| NaN.

Definition of_Z (z : Z) : number := Fin (Q2Qc (inject_Z z)).
Definition of_Q (q : Q) : number := Fin (Q2Qc q).

Definition is_zero (q : Qc) : bool := Qc_eq_bool q (Q2Qc 0).
Definition is_pos (q : Qc) : bool :=
  match (q ?= Q2Qc 0)%Qc with Gt => true | _ => false end.

(** Unary minus. *)
Definition neg (a : number) : number :=
  match a with
  | Fin q => Fin (- q)%Qc
  | PInf => NInf
  | NInf => PInf
  | NaN => NaN
  end.

(** [a + b] *)
Definition add (a b : number) : number :=
  match a, b with
  | NaN, _ | _, NaN => NaN
  | Fin x, Fin y => Fin (x + y)%Qc
  | PInf, NInf | NInf, PInf => NaN
  | PInf, _ | _, PInf => PInf
  | NInf, _ | _, NInf => NInf
  end.

(** [a - b] *)
Definition sub (a b : number) : number := add a (neg b).

(** The infinity with the sign of [s * t], for nonzero signs given as
    "is positive" flags. *)
Definition signed_inf (pos_a pos_b : bool) : number :=
  if Bool.eqb pos_a pos_b then PInf else NInf.

(** [a * b] *)
Definition mul (a b : number) : number :=
  match a, b with
  | NaN, _ | _, NaN => NaN
  | Fin x, Fin y => Fin (x * y)%Qc
  | Fin x, PInf | PInf, Fin x =>
      if is_zero x then NaN else signed_inf (is_pos x) true
  | Fin x, NInf | NInf, Fin x =>
      if is_zero x then NaN else signed_inf (is_pos x) false
  | PInf, PInf | NInf, NInf => PInf
  | PInf, NInf | NInf, PInf => NInf
  end.

(** [a / b] *)
Definition div (a b : number) : number :=
  match a, b with
  | NaN, _ | _, NaN => NaN
  | Fin x, Fin y =>
      if is_zero y then
        if is_zero x then NaN else signed_inf (is_pos x) true
      else Fin (x / y)%Qc
  | Fin _, PInf | Fin _, NInf => Fin (Q2Qc 0)
  | PInf, Fin y => signed_inf true (is_pos y || is_zero y)
  | NInf, Fin y => signed_inf false (is_pos y || is_zero y)
  | PInf, PInf | PInf, NInf | NInf, PInf | NInf, NInf => NaN
  end.

(** The relational operators; every comparison with [NaN] is false. *)
Definition lt (a b : number) : bool :=
  match a, b with
  | NaN, _ | _, NaN => false
  | Fin x, Fin y => match (x ?= y)%Qc with Lt => true | _ => false end
  | NInf, NInf | PInf, _ => false
  | NInf, _ => true
  | Fin _, PInf => true
  | Fin _, NInf => false
  end.

Definition le (a b : number) : bool :=
  match a, b with
  | NaN, _ | _, NaN => false
  | Fin x, Fin y => match (x ?= y)%Qc with Gt => false | _ => true end
  | NInf, _ | _, PInf => true
  | PInf, _ => false
  | Fin _, NInf => false
  end.

Definition gt (a b : number) : bool := lt b a.
Definition ge (a b : number) : bool := le b a.

Module Math.

(** [Math.floor] *)
Definition floor (a : number) : number :=
  match a with
  | Fin q => of_Z (Qfloor q)
  | _ => a
  end.

(** [Math.ceil] *)
Definition ceil (a : number) : number :=
  match a with
  | Fin q => of_Z (Qceiling q)
  | _ => a
  end.

(** [Math.max(a, b)]: [NaN] when either argument is [NaN]. *)
Definition max (a b : number) : number :=
  match a, b with
  | NaN, _ | _, NaN => NaN
  | _, _ => if lt a b then b else a
  end.

(** [Math.min(a, b)]: [NaN] when either argument is [NaN]. *)
Definition min (a b : number) : number :=
  match a, b with
  | NaN, _ | _, NaN => NaN
  | _, _ => if lt b a then b else a
  end.

(** [Math.abs] *)
Definition abs (a : number) : number :=
  match a with
  | Fin q => if lt a (Fin (Q2Qc 0)) then neg a else a
  | PInf | NInf => PInf
  | NaN => NaN
  end.

End Math.

(** Truthiness of a number: [0] and [NaN] are falsy. *)
Definition truthy (a : number) : bool :=
  match a with
  | Fin q => negb (is_zero q)
  | NaN => false
  | _ => true
  end.

(** Truthiness of a string: only the empty string is falsy. *)
Definition truthy_string (s : string) : bool :=
  negb (String.eqb s EmptyString).

(** [v || d] on a property that holds a number or is absent. *)
Definition or_number (v : option number) (d : number) : number :=
  match v with
  | Some a => if truthy a then a else d
  | None => d
  end.

(** [v || d] on a property that holds a string or is absent. *)
Definition or_string (v : option string) (d : string) : string :=
  match v with
  | Some s => if truthy_string s then s else d
  | None => d
  end.

(** When a finite number is an index of an array: a non-negative integer. *)
Definition as_index (a : number) : option nat :=
  match a with
  | Fin q =>
      if Qc_eq_bool q (Q2Qc (inject_Z (Qfloor q))) && (0 <=? Qfloor q)%Z
      then Some (Z.to_nat (Qfloor q))
      else None
  | _ => None
  end.

(** [arr[i]], [undefined] (here [None]) off the array. *)
Definition get {A : Type} (arr : list A) (i : number) : option A :=
  match as_index i with
  | Some n => nth_error arr n
  | None => None
  end.

(** The values the counter of [for (let v = start; v < stop; v++)] takes
    ([v <= stop] with [inclusive]).  [None] is a loop that does not end:
    the counter is stuck at [-Infinity], or the bound is [Infinity]. *)
Definition for_range (inclusive : bool) (start stop : number)
  : option (list number) :=
  match start, stop with
  | NaN, _ | _, NaN => Some []
  | PInf, PInf => if inclusive then None else Some []
  | PInf, _ => Some []
  | NInf, NInf => if inclusive then None else Some []
  | NInf, _ => None
  | Fin _, NInf => Some []
  | Fin _, PInf => None
  | Fin s, Fin e =>
      let d := (e - s)%Qc in
      let n := if inclusive then (Qfloor d + 1)%Z else Qceiling d in
      Some (map (fun k => Fin (s + Q2Qc (inject_Z (Z.of_nat k)))%Qc)
                (seq 0 (Z.to_nat n)))
  end.

(** [s.toLowerCase()] on ASCII: the letters [A] to [Z] become [a] to [z],
    every other character stays. *)
Definition lower (c : ascii) : ascii :=
  let n := nat_of_ascii c in
  if ((65 <=? n) && (n <=? 90))%nat then ascii_of_nat (n + 32) else c.

Fixpoint toLowerCase (s : string) : string :=
  match s with
  | String c rest => String (lower c) (toLowerCase rest)
  | EmptyString => EmptyString
  end.

(** The Number nearest to an integer: an integer of up to 53 significant
    bits is a Number; a longer one is rounded to 53 significant bits, to
    the nearest and to the even one of two that are as near, and becomes an
    infinity when that reaches [2^1024]. *)
Definition round53 (z : Z) : Z :=
  let a := Z.abs z in
  let e := (Z.log2 a - 52)%Z in
  if (e <=? 0)%Z then z
  else
    let q := (a / 2 ^ e)%Z in
    let r := (a mod 2 ^ e)%Z in
    let half := (2 ^ (e - 1))%Z in
    let q' :=
      if (r <? half)%Z then q
      else if (half <? r)%Z then (q + 1)%Z
      else if Z.even q then q else (q + 1)%Z in
    (Z.sgn z * (q' * 2 ^ e))%Z.

Definition of_integer (z : Z) : number :=
  let r := round53 z in
  if (2 ^ 1024 <=? Z.abs r)%Z then (if (z <? 0)%Z then NInf else PInf)
  else of_Z r.

(** [String(n)] where it is exact: integers in decimal, the infinities and
    [NaN].  Other numbers are shown as a fraction, which JavaScript does not
    do; the renderer is stated for any conversion and uses this one only in
    examples. *)
Definition show_Z (z : Z) : string := NilEmpty.string_of_int (Z.to_int z).

Definition toString (a : number) : string :=
  match a with
  | Fin q =>
      if (Zpos (Qden q) =? 1)%Z then show_Z (Qnum q)
      else (show_Z (Qnum q) ++ "/" ++ show_Z (Zpos (Qden q)))%string
  | PInf => "Infinity"
  | NInf => "-Infinity"
  | NaN => "NaN"
  end.

End JS.

Declare Scope js_scope.
Delimit Scope js_scope with js.
Bind Scope js_scope with JS.number.
Infix "+" := JS.add : js_scope.
Infix "-" := JS.sub : js_scope.
Infix "*" := JS.mul : js_scope.
Infix "/" := JS.div : js_scope.
Infix "<" := JS.lt : js_scope.
Infix "<=" := JS.le : js_scope.
Infix ">" := JS.gt : js_scope.
Infix ">=" := JS.ge : js_scope.

Open Scope list_scope.
Open Scope string_scope.

(** Functions whose [for] loops run over numbers either return or loop
    for ever. *)
Inductive run (A : Type) : Type :=
| Done (a : A)
| Loops.
Arguments Done {A} a.
Arguments Loops {A}.

Definition run_bind {A B : Type} (m : option A) (k : A -> run B) : run B :=
  match m with
  | Some a => k a
  | None => Loops
  end.

Notation "x <- m ;; k" := (run_bind m (fun x => k))
  (at level 61, m at next level, right associativity).

(** The number literals of the source. *)
Definition n0 : JS.number := JS.of_Z 0.
Definition n1 : JS.number := JS.of_Z 1.
Definition n2 : JS.number := JS.of_Z 2.
Definition n3 : JS.number := JS.of_Z 3.
Definition n5 : JS.number := JS.of_Z 5.
Definition n50 : JS.number := JS.of_Z 50.
Definition n100 : JS.number := JS.of_Z 100.
Definition n0_5 : JS.number := JS.of_Q (1 # 2)%Q.
Definition n0_001 : JS.number := JS.of_Q (1 # 1000)%Q.
Definition minus1 : JS.number := JS.of_Z (-1).
Definition n0_01 : JS.number := JS.of_Q (1 # 100)%Q.

(* ================================================================== *)
(** * components/canvas/SVGRenderer.jsx *)
(* ================================================================== *)

Module SVGRenderer.

(** ** Props and state *)

Record CornerRadius : Type := {
  enabled : bool;
  topLeft : JS.number;
  topRight : JS.number;
  bottomLeft : JS.number;
  bottomRight : JS.number
}.

Record CustomShape : Type := {
  path : string;
  viewBox : string
}.

Record GlowSettings : Type := {
  glow_size : option JS.number;
  glow_spread : option JS.number;
  glow_offsetX : option JS.number;
  glow_offsetY : option JS.number;
  glow_opacity : option JS.number;
  glow_blendMode : option string
}.

Record BulbSettings : Type := {
  intensity : option JS.number;
  radius : option JS.number;
  positionX : option JS.number;
  positionY : option JS.number;
  color : option string;
  blendMode : option string
}.

(** [viewportState] *)
Record ViewportState : Type := {
  left : JS.number;
  top : JS.number;
  width : JS.number;
  height : JS.number;
  scale : JS.number
}.

(** The value of the [visibleArea] memo. *)
Record VisibleArea : Type := {
  startX : JS.number;
  endX : JS.number;
  startY : JS.number;
  endY : JS.number
}.

(** What [getBoundingClientRect] gives for the [<svg>] element. *)
Record DOMRect : Type := {
  rect_left : JS.number;
  rect_top : JS.number;
  rect_width : JS.number;
  rect_height : JS.number
}.

Record PointerEvent : Type := {
  clientX : JS.number;
  clientY : JS.number;
  buttons : JS.number
}.

Record GridCoordinates : Type := {
  gridX : JS.number;
  gridY : JS.number;
  coord_buttons : JS.number
}.

(** ** The shape-path cache

    [pathCache] is a [Map] from the key string to the path.  A [Map]
    iterates in insertion order, so it is a list of bindings, oldest first.
    The key is the string the template literal builds (see [cacheKey]
    below), and two keys are the same when the strings are. *)

Definition CacheKey : Type := string.

Definition key_eqb (a b : CacheKey) : bool := String.eqb a b.

Definition option_eqb {A : Type} (eqb : A -> A -> bool) (a b : option A) : bool :=
  match a, b with
  | Some x, Some y => eqb x y
  | None, None => true
  | _, _ => false
  end.

Definition Cache : Type := list (CacheKey * string).

(** [new Map()] *)
Definition empty_cache : Cache := [].

(** [pathCache.get(key)]; [None] is also the answer of [pathCache.has]. *)
Fixpoint cache_get (c : Cache) (k : CacheKey) : option string :=
  match c with
  | [] => None
  | (k', v) :: rest => if key_eqb k' k then Some v else cache_get rest k
  end.

Definition cache_has (c : Cache) (k : CacheKey) : bool :=
  match cache_get c k with Some _ => true | None => false end.

(** [pathCache.set(key, v)]: a new key goes last, a key already there
    keeps its place. *)
Fixpoint cache_set (c : Cache) (k : CacheKey) (v : string) : Cache :=
  match c with
  | [] => [(k, v)]
  | (k', v') :: rest =>
      if key_eqb k' k then (k', v) :: rest else (k', v') :: cache_set rest k v
  end.

(** [pathCache.delete(key)] *)
Fixpoint cache_delete (c : Cache) (k : CacheKey) : Cache :=
  match c with
  | [] => []
  | (k', v') :: rest =>
      if key_eqb k' k then rest else (k', v') :: cache_delete rest k
  end.

(** [pathCache.keys().next().value] *)
Definition cache_first_key (c : Cache) : option CacheKey :=
  match c with
  | [] => None
  | (k, _) :: _ => Some k
  end.

(** [pathCache.size] *)
Definition cache_size (c : Cache) : nat := List.length c.

Definition CACHE_LIMIT : nat := 1000.

(** ** What the component renders *)

Inductive geometry : Type :=
| CircleGeom (cx cy r : JS.number)        (* <circle cx cy r> *)
| PathGeom (d : string).                  (* <Pixel d> *)

(** One element of the pixels layer. *)
Record element : Type := {
  key : string;
  geom : geometry;
  fill : string;
  filter : option string;
  mixBlendMode : option string
}.

(** One [<line>] of the grid layer. *)
Record line : Type := {
  line_key : string;
  x1 : JS.number;
  y1 : JS.number;
  x2 : JS.number;
  y2 : JS.number;
  stroke : string;
  strokeWidth : string
}.

Inductive attr : Type :=
| AttrNumber (n : JS.number)
| AttrString (s : string).

Record stop : Type := {
  offset : string;
  stopColor : string;
  stopOpacity : attr
}.

(** [<radialGradient id="bulbGradient">] *)
Record radialGradient : Type := {
  grad_id : string;
  grad_cx : string;
  grad_cy : string;
  grad_r : string;
  gradientUnits : string;
  spreadMethod : string;
  stops : list stop
}.

(** The computed attributes of [<filter id="glowFilter">]. *)
Record glowFilter : Type := {
  morphology_radius : JS.number;
  offset_dx : JS.number;
  offset_dy : JS.number;
  blur_stdDeviation : JS.number;
  opacity_slope : JS.number
}.

(** The children of the [<svg>] element, first (bottom) to last (top). *)
Inductive svg_child : Type :=
| Defs (f : glowFilter) (g : radialGradient)
| PixelsLayer (els : list element)
| InteractionLayer (w h : JS.number)
| GridLayer (lines : list line).

(** A property read that may be [undefined], used as a number. *)
Definition to_number (v : option JS.number) : JS.number :=
  match v with
  | Some a => a
  | None => JS.NaN
  end.

Section Component.

(** [String(n)] for a number inside a template literal, and the
    transcendental part of [Math]. *)
Variable toStr : JS.number -> string.
Variable Math_cos Math_sin : JS.number -> JS.number.
Variable Math_PI : JS.number.

(** The props. *)
Variable gridWidth gridHeight pixelSize gridGap : JS.number.
Variable pixelData : list (list (option string)).
Variable showGrid : bool.
Variable cornerRadius : option CornerRadius.
Variable pixelShape : string.
Variable customShape : option CustomShape.
Variable glowEnabled : bool.
Variable glowSettings : GlowSettings.
Variable bulbEnabled : bool.
Variable bulbSettings : BulbSettings.

Definition totalWidth : JS.number := (gridWidth * (pixelSize + gridGap))%js.
Definition totalHeight : JS.number := (gridHeight * (pixelSize + gridGap))%js.

(** [getGridCoordinates(e)]; [svgRef] is [None] when [svgRef.current] is
    null, else the bounding rectangle of the element. *)
Definition getGridCoordinates (svgRef : option DOMRect) (e : PointerEvent)
  : GridCoordinates :=
  match svgRef with
  | None => {| gridX := minus1; gridY := minus1; coord_buttons := n0 |}
  | Some svgRect =>
      let scaleX := (rect_width svgRect / totalWidth)%js in
      let scaleY := (rect_height svgRect / totalHeight)%js in
      let relX := (clientX e - rect_left svgRect)%js in
      let relY := (clientY e - rect_top svgRect)%js in
      let normalizedX := (relX / scaleX)%js in
      let normalizedY := (relY / scaleY)%js in
      let cellSize := (pixelSize + gridGap)%js in
      let gridX := JS.Math.floor (normalizedX / cellSize)%js in
      let gridY := JS.Math.floor (normalizedY / cellSize)%js in
      {| gridX := JS.Math.max n0 (JS.Math.min gridX (gridWidth - n1)%js);
         gridY := JS.Math.max n0 (JS.Math.min gridY (gridHeight - n1)%js);
         coord_buttons := buttons e |}
  end.

(** The [visibleArea] memo. *)
Definition visibleArea (viewportState : ViewportState) : VisibleArea :=
  let cellSize := (pixelSize + gridGap)%js in
  let buffer := n5 in
  {| startX := JS.Math.max n0
       (JS.Math.floor (left viewportState / cellSize) - buffer)%js;
     endX := JS.Math.min gridWidth
       (JS.Math.ceil ((left viewportState + width viewportState) / cellSize)
        + buffer)%js;
     startY := JS.Math.max n0
       (JS.Math.floor (top viewportState / cellSize) - buffer)%js;
     endY := JS.Math.min gridHeight
       (JS.Math.ceil ((top viewportState + height viewportState) / cellSize)
        + buffer)%js |}.

(** The [gridLines] memo: [Done None] is [null]. *)
Definition gridLines (visible : VisibleArea) : run (option (list line)) :=
  if negb showGrid then Done None
  else
    let cellSize := (pixelSize + gridGap)%js in
    xs <- JS.for_range true (startX visible) (endX visible) ;;
    let vertical :=
      map (fun x =>
             {| line_key := "v" ++ toStr x;
                x1 := (x * cellSize - n0_5)%js;
                y1 := n0;
                x2 := (x * cellSize - n0_5)%js;
                y2 := totalHeight;
                stroke := "rgba(128, 128, 128, 0.5)";
                strokeWidth := "1" |}) xs in
    ys <- JS.for_range true (startY visible) (endY visible) ;;
    let horizontal :=
      map (fun y =>
             {| line_key := "h" ++ toStr y;
                x1 := n0;
                y1 := (y * cellSize - n0_5)%js;
                x2 := totalWidth;
                y2 := (y * cellSize - n0_5)%js;
                stroke := "rgba(128, 128, 128, 0.5)";
                strokeWidth := "1" |}) ys in
    Done (Some (vertical ++ horizontal)%list).

(** The template literal of the rounded rectangle keeps its line breaks
    and indentation. *)
Definition nl : string := String (ascii_of_nat 10) EmptyString.
Definition indent14 : string := "              ".
Definition indent12 : string := "            ".

(** The path [createShapePath] computes when the key is not cached. *)
Definition shapePath (x y size : JS.number) (shape : string)
    (cornerRadius : option CornerRadius) (customPath : string) : string :=
  if String.eqb shape "custom" && JS.truthy_string customPath then customPath
  else if String.eqb shape "circle" then
    let radius := (size / n2)%js in
    let cx := (x + radius)%js in
    "M " ++ toStr cx ++ "," ++ toStr y ++ " A " ++ toStr radius ++ ","
      ++ toStr radius ++ " 0 1,1 " ++ toStr (cx - n0_001)%js ++ ","
      ++ toStr y ++ " Z"
  else if String.eqb shape "diamond" then
    let mid := (size / n2)%js in
    "M " ++ toStr (x + mid)%js ++ "," ++ toStr y
      ++ " L " ++ toStr (x + size)%js ++ "," ++ toStr (y + mid)%js
      ++ " L " ++ toStr (x + mid)%js ++ "," ++ toStr (y + size)%js
      ++ " L " ++ toStr x ++ "," ++ toStr (y + mid)%js ++ " Z"
  else if String.eqb shape "triangle" then
    "M " ++ toStr (x + size / n2)%js ++ "," ++ toStr y
      ++ " L " ++ toStr (x + size)%js ++ "," ++ toStr (y + size)%js
      ++ " L " ++ toStr x ++ "," ++ toStr (y + size)%js ++ " Z"
  else if String.eqb shape "hexagon" then
    let radius := (size / n2)%js in
    let cx := (x + radius)%js in
    let cy := (y + radius)%js in
    let vertex (i : Z) : string :=
      let angle := (JS.of_Z i * Math_PI / n3)%js in
      let px := (cx + radius * Math_cos angle)%js in
      let py := (cy + radius * Math_sin angle)%js in
      if (i =? 0)%Z then toStr px ++ "," ++ toStr py ++ " "
      else "L " ++ toStr px ++ "," ++ toStr py ++ " " in
    fold_left (fun path i => path ++ vertex i) [0; 1; 2; 3; 4; 5]%Z "M "
      ++ "Z"
  else
    match cornerRadius with
    | Some cr =>
        if enabled cr then
          let maxRadius := (size / n2)%js in
          let topLeftRadius :=
            JS.Math.min ((size * topLeft cr) / n100)%js maxRadius in
          let topRightRadius :=
            JS.Math.min ((size * topRight cr) / n100)%js maxRadius in
          let bottomLeftRadius :=
            JS.Math.min ((size * bottomLeft cr) / n100)%js maxRadius in
          let bottomRightRadius :=
            JS.Math.min ((size * bottomRight cr) / n100)%js maxRadius in
          nl ++ indent14 ++ "M " ++ toStr (x + topLeftRadius)%js ++ ","
            ++ toStr y
          ++ nl ++ indent14 ++ "H " ++ toStr (x + size - topRightRadius)%js
          ++ nl ++ indent14 ++ "Q " ++ toStr (x + size)%js ++ "," ++ toStr y
            ++ " " ++ toStr (x + size)%js ++ ","
            ++ toStr (y + topRightRadius)%js
          ++ nl ++ indent14 ++ "V "
            ++ toStr (y + size - bottomRightRadius)%js
          ++ nl ++ indent14 ++ "Q " ++ toStr (x + size)%js ++ ","
            ++ toStr (y + size)%js ++ " "
            ++ toStr (x + size - bottomRightRadius)%js ++ ","
            ++ toStr (y + size)%js
          ++ nl ++ indent14 ++ "H " ++ toStr (x + bottomLeftRadius)%js
          ++ nl ++ indent14 ++ "Q " ++ toStr x ++ "," ++ toStr (y + size)%js
            ++ " " ++ toStr x ++ ","
            ++ toStr (y + size - bottomLeftRadius)%js
          ++ nl ++ indent14 ++ "V " ++ toStr (y + topLeftRadius)%js
          ++ nl ++ indent14 ++ "Q " ++ toStr x ++ "," ++ toStr y ++ " "
            ++ toStr (x + topLeftRadius)%js ++ "," ++ toStr y
          ++ nl ++ indent14 ++ "Z"
          ++ nl ++ indent12
        else
          "M " ++ toStr x ++ "," ++ toStr y ++ " H " ++ toStr (x + size)%js
            ++ " V " ++ toStr (y + size)%js ++ " H " ++ toStr x ++ " Z"
    | None =>
        "M " ++ toStr x ++ "," ++ toStr y ++ " H " ++ toStr (x + size)%js
          ++ " V " ++ toStr (y + size)%js ++ " H " ++ toStr x ++ " Z"
    end.

(** [customShape?.path || ''] *)
Definition customPath_of (customShape : option CustomShape) : string :=
  match customShape with
  | Some cs => path cs
  | None => ""
  end.

(** [JSON.stringify(cornerRadius)].  A number is written as in a template
    literal when it is finite and as [null] when it is [NaN] or infinite;
    [null] is written [null]; the properties of the object come in the
    order of the default value of the prop,
    [{ enabled, topLeft, topRight, bottomLeft, bottomRight }]. *)
Definition json_number (n : JS.number) : string :=
  match n with
  | JS.Fin _ => toStr n
  | _ => "null"
  end.

Definition json_boolean (b : bool) : string :=
  if b then "true" else "false".

Definition quote : string := String (ascii_of_nat 34) EmptyString.

Definition json_property (name value : string) : string :=
  quote ++ name ++ quote ++ ":" ++ value.

Definition JSON_stringify (cornerRadius : option CornerRadius) : string :=
  match cornerRadius with
  | None => "null"
  | Some cr =>
      "{" ++ json_property "enabled" (json_boolean (enabled cr))
      ++ "," ++ json_property "topLeft" (json_number (topLeft cr))
      ++ "," ++ json_property "topRight" (json_number (topRight cr))
      ++ "," ++ json_property "bottomLeft" (json_number (bottomLeft cr))
      ++ "," ++ json_property "bottomRight" (json_number (bottomRight cr))
      ++ "}"
  end.

(** [`${x}_${y}_${size}_${shape}_${JSON.stringify(cornerRadius)}_${customShape?.path || ''}`] *)
Definition cacheKey (x y size : JS.number) (shape : string)
    (cornerRadius : option CornerRadius) (customShape : option CustomShape)
  : CacheKey :=
  toStr x ++ "_" ++ toStr y ++ "_" ++ toStr size ++ "_" ++ shape ++ "_"
    ++ JSON_stringify cornerRadius ++ "_" ++ customPath_of customShape.

(** [createShapePath(x, y, size, shape, cornerRadius, customShape)] on the
    cache [pathCache]: the path returned and the cache afterwards. *)
Definition createShapePath (pathCache : Cache) (x y size : JS.number)
    (shape : string) (cornerRadius : option CornerRadius)
    (customShape : option CustomShape) : string * Cache :=
  let cacheKey := cacheKey x y size shape cornerRadius customShape in
  match cache_get pathCache cacheKey with
  | Some cached => (cached, pathCache)
  | None =>
      let path := shapePath x y size shape cornerRadius
                    (customPath_of customShape) in
      let pathCache := cache_set pathCache cacheKey path in
      let pathCache :=
        if (CACHE_LIMIT <? cache_size pathCache)%nat then
          match cache_first_key pathCache with
          | Some firstKey => cache_delete pathCache firstKey
          | None => pathCache
          end
        else pathCache in
      (path, pathCache)
  end.


(** The three arrays [renderPixels] fills, and the shared cache. *)
Record layers : Type := {
  glowPaths : list element;
  crispPaths : list element;
  bulbPaths : list element;
  pathCache : Cache
}.

(** [pixelData[y]?.[x]] *)
Definition pixelAt (x y : JS.number) : option string :=
  match JS.get pixelData y with
  | Some row =>
      match JS.get row x with
      | Some color => color
      | None => None
      end
  | None => None
  end.

(** The body of the two loops of [renderPixels] at the cell [(x, y)]. *)
Definition renderCell (st : layers) (cell : JS.number * JS.number) : layers :=
  let (x, y) := cell in
  let cellSize := (pixelSize + gridGap)%js in
  match pixelAt x y with
  | Some color =>
      if JS.truthy_string color then
        let xPos := (x * cellSize + gridGap / n2)%js in
        let yPos := (y * cellSize + gridGap / n2)%js in
        let (pathData, cache) :=
          createShapePath (pathCache st) xPos yPos pixelSize pixelShape
            cornerRadius customShape in
        let baseKey := toStr x ++ "-" ++ toStr y in
        let radius := (pixelSize / n2)%js in
        let centerX := (xPos + radius)%js in
        let centerY := (yPos + radius)%js in
        let isCircle := String.eqb pixelShape "circle" in
        let crisp :=
          if isCircle then
            {| key := baseKey ++ "-pixel-circle";
               geom := CircleGeom centerX centerY radius;
               fill := color; filter := None; mixBlendMode := None |}
          else
            {| key := baseKey ++ "-pixel";
               geom := PathGeom pathData;
               fill := color; filter := None; mixBlendMode := None |} in
        let glow :=
          if isCircle then
            {| key := baseKey ++ "-glow-circle";
               geom := CircleGeom centerX centerY radius;
               fill := color; filter := Some "url(#glowFilter)";
               mixBlendMode :=
                 Some (JS.or_string (glow_blendMode glowSettings)
                         "source-over") |}
          else
            {| key := baseKey ++ "-glow";
               geom := PathGeom pathData;
               fill := color; filter := Some "url(#glowFilter)";
               mixBlendMode :=
                 Some (JS.or_string (glow_blendMode glowSettings)
                         "source-over") |} in
        let bulb :=
          if isCircle then
            {| key := baseKey ++ "-bulb-circle";
               geom := CircleGeom centerX centerY radius;
               fill := "url(#bulbGradient)"; filter := None;
               mixBlendMode :=
                 Some (JS.or_string (blendMode bulbSettings) "screen") |}
          else
            {| key := baseKey ++ "-bulb";
               geom := PathGeom pathData;
               fill := "url(#bulbGradient)"; filter := None;
               mixBlendMode :=
                 Some (JS.or_string (blendMode bulbSettings) "screen") |} in
        {| crispPaths := (crispPaths st ++ [crisp])%list;
           glowPaths :=
             if glowEnabled then (glowPaths st ++ [glow])%list
             else glowPaths st;
           bulbPaths :=
             if bulbEnabled then (bulbPaths st ++ [bulb])%list
             else bulbPaths st;
           pathCache := cache |}
      else st
  | None => st
  end.

(** The cells in the order the nested loops visit them: rows outside. *)
Definition cells_of (ys xs : list JS.number) : list (JS.number * JS.number) :=
  flat_map (fun y => map (fun x => (x, y)) xs) ys.

(** [return [...glowPaths, ...crispPaths, ...bulbPaths]] *)
Definition layered (st : layers) : list element :=
  (glowPaths st ++ crispPaths st ++ bulbPaths st)%list.

Definition no_layers (cache : Cache) : layers :=
  {| glowPaths := []; crispPaths := []; bulbPaths := [];
     pathCache := cache |}.

(** The loop body run over the cells in any given order. *)
Definition renderCells (cache : Cache) (cells : list (JS.number * JS.number))
  : layers :=
  fold_left renderCell cells (no_layers cache).

(** The [renderPixels] memo, on the cache it finds: the elements in
    document order, and the cache it leaves. *)
Definition renderPixels (cache : Cache) (visible : VisibleArea)
  : run (list element * Cache) :=
  ys <- JS.for_range false (startY visible) (endY visible) ;;
  match ys with
  | [] => Done ([], cache)
  | _ :: _ =>
      xs <- JS.for_range false (startX visible) (endX visible) ;;
      let st := renderCells cache (cells_of ys xs) in
      Done (layered st, pathCache st)
  end.

(** [<filter id="glowFilter">] *)
Definition glowFilterDef : glowFilter :=
  {| morphology_radius :=
       JS.or_number
         (Some (to_number (glow_spread glowSettings) / n100 * pixelSize)%js)
         n0;
     offset_dx := JS.or_number (glow_offsetX glowSettings) n0;
     offset_dy := JS.or_number (glow_offsetY glowSettings) n0;
     blur_stdDeviation :=
       JS.or_number (Some (to_number (glow_size glowSettings) / n2)%js) n0;
     opacity_slope :=
       JS.or_number (Some (to_number (glow_opacity glowSettings) / n100)%js)
         n0 |}.

(** [<radialGradient id="bulbGradient">] *)
Definition bulbGradient : radialGradient :=
  {| grad_id := "bulbGradient";
     grad_cx := toStr (JS.or_number (positionX bulbSettings) n50) ++ "%";
     grad_cy := toStr (JS.or_number (positionY bulbSettings) n50) ++ "%";
     grad_r := toStr (JS.or_number (radius bulbSettings) n50) ++ "%";
     gradientUnits := "objectBoundingBox";
     spreadMethod := "pad";
     stops :=
       [ {| offset := "0%";
            stopColor := JS.or_string (color bulbSettings) "#ffffff";
            stopOpacity :=
              AttrNumber (JS.or_number (intensity bulbSettings) n0 / n100)%js |};
         {| offset := "100%";
            stopColor := JS.or_string (color bulbSettings) "#ffffff";
            stopOpacity := AttrString "0" |} ] |}.

(** The children of [<SVGContainer>] that one render returns. *)
Definition render (cache : Cache) (viewportState : ViewportState)
  : run (list svg_child * Cache) :=
  let visible := visibleArea viewportState in
  match gridLines visible with
  | Loops => Loops
  | Done lines =>
      match renderPixels cache visible with
      | Loops => Loops
      | Done (pixels, cache') =>
          Done ([ Defs glowFilterDef bulbGradient;
                  PixelsLayer pixels;
                  InteractionLayer totalWidth totalHeight ]
                ++ (if showGrid
                    then [GridLayer (match lines with
                                     | Some l => l
                                     | None => []
                                     end)]
                    else []),
                cache')%list
      end
  end.

(** ** Viewport tracking

    What the DOM answers while the component runs some code: [None] when
    [svgRef.current] is null, else the bounding rectangle of the svg element
    and, when the element has a parent, the parent's. *)
Record Measurement : Type := {
  svgRect : DOMRect;
  containerRect : option DOMRect
}.


(** [updateViewport()]: the state after the updater handed to
    [setViewportState] has run on [prev]. *)
Definition updateViewport (svgRef : option Measurement) (prev : ViewportState)
  : ViewportState :=
  match svgRef with
  | None => prev
  | Some current =>
      match containerRect current with
      | None => prev
      | Some rect =>
          let s := (rect_width (svgRect current) / totalWidth)%js in
          if (JS.Math.abs (width prev - rect_width rect / s) > n1)%js
             || (JS.Math.abs (height prev - rect_height rect / s) > n1)%js
             || (JS.Math.abs (scale prev - s) > n0_01)%js
          then {| left := n0; top := n0;
                  width := (rect_width rect / s)%js;
                  height := (rect_height rect / s)%js;
                  scale := s |}
          else prev
      end
  end.

(** ** Pointer handlers

    The callback props; [true] when the prop is passed. *)
Variable onClick onCanvasMouseDown onCanvasMouseMove : bool.
Variable onCanvasMouseUp onCanvasMouseLeave : bool.

(** What a handler does besides updating the refs, in order: the calls of
    [e.preventDefault()] and of the callback props.  [simulated] marks the
    argument of a touch handler, which has [metaKey: false] and
    [originalEvent] beside the coordinates. *)
Inductive output : Type :=
| PreventDefault
| OnClick (coords : GridCoordinates)
| OnCanvasMouseDown (coords : GridCoordinates) (simulated : bool)
| OnCanvasMouseMove (coords : GridCoordinates) (simulated : bool)
| OnCanvasMouseUp (coords : GridCoordinates) (simulated : bool)
| OnCanvasMouseLeave.

(** [if (prop) prop(...)] *)
Definition invoke (prop : bool) (o : output) : list output :=
  if prop then [o] else [].

(** The test the mouse handlers make on the coordinates. *)
Definition withinGrid (coords : GridCoordinates) : bool :=
  (gridX coords >= n0)%js && (gridY coords >= n0)%js
  && (gridX coords < gridWidth)%js && (gridY coords < gridHeight)%js.

Definition handleClick (svgRef : option DOMRect) (e : PointerEvent)
  : list output :=
  let coords := getGridCoordinates svgRef e in
  if withinGrid coords then invoke onClick (OnClick coords) else [].

Definition handleMouseDown (svgRef : option DOMRect) (e : PointerEvent)
  : list output :=
  let coords := getGridCoordinates svgRef e in
  ((if withinGrid coords
    then invoke onCanvasMouseDown (OnCanvasMouseDown coords false)
    else [])
   ++ [PreventDefault])%list.

Definition handleMouseUp (svgRef : option DOMRect) (e : PointerEvent)
  : list output :=
  let coords := getGridCoordinates svgRef e in
  ((if withinGrid coords
    then invoke onCanvasMouseUp (OnCanvasMouseUp coords false)
    else [])
   ++ [PreventDefault])%list.

(** A touch point of a touch event. *)
Record Touch : Type := {
  touch_clientX : JS.number;
  touch_clientY : JS.number
}.

(** The callback handed to [requestAnimationFrame], with the event it
    closes over. *)
Inductive frame : Type :=
| UpdateViewportFrame
| MouseMoveFrame (e : PointerEvent)
| TouchMoveFrame (touch : Touch).

(** The refs.  [rafRef] and [touchTimeoutRef] hold the callback that is
    pending; an id whose callback has run is cleared here, as cancelling it
    does nothing.  The timer of [handleTouchStart] closes over the event and
    reads [e.touches[0]] from it. *)
Record Refs : Type := {
  rafRef : option frame;
  multiTouchRef : bool;
  touchTimeoutRef : option Touch
}.


(** [if (rafRef.current) cancelAnimationFrame(rafRef.current);
     rafRef.current = requestAnimationFrame(f)] *)
Definition requestFrame (f : frame) (refs : Refs) : Refs :=
  {| rafRef := Some f; multiTouchRef := multiTouchRef refs;
     touchTimeoutRef := touchTimeoutRef refs |}.

Definition handleMouseMove (e : PointerEvent) (refs : Refs)
  : Refs * list output :=
  (requestFrame (MouseMoveFrame e) refs, [PreventDefault]).

(** The frame callback of [handleMouseMove]. *)
Definition mouseMoveFrame (svgRef : option DOMRect) (e : PointerEvent)
  : list output :=
  let coords := getGridCoordinates svgRef e in
  if withinGrid coords
  then invoke onCanvasMouseMove (OnCanvasMouseMove coords false)
  else [].

Definition handleMouseLeave : list output :=
  (invoke onCanvasMouseLeave OnCanvasMouseLeave ++ [PreventDefault])%list.

(** The mouse event a touch handler makes up from a touch point. *)
Definition touchEvent (touch : Touch) (b : JS.number) : PointerEvent :=
  {| clientX := touch_clientX touch; clientY := touch_clientY touch;
     buttons := b |}.

(** [{...coords, buttons: b, metaKey: false, originalEvent: e}] *)
Definition withButtons (coords : GridCoordinates) (b : JS.number)
  : GridCoordinates :=
  {| gridX := gridX coords; gridY := gridY coords; coord_buttons := b |}.

(** [handleTouchStart(e)] with [e.touches = touch :: others]: a touchstart
    event has at least one touch point. *)
Definition handleTouchStart (svgRef : option DOMRect) (touch : Touch)
    (others : list Touch) (refs : Refs) : Refs * list output :=
  match svgRef with
  | None => (refs, [])
  | Some _ =>
      match others with
      | _ :: _ =>
          ({| rafRef := rafRef refs; multiTouchRef := true;
              touchTimeoutRef := None |}, [PreventDefault])
      | [] =>
          ({| rafRef := rafRef refs; multiTouchRef := multiTouchRef refs;
              touchTimeoutRef := Some touch |}, [PreventDefault])
      end
  end.

(** The callback of the 20 ms timer of [handleTouchStart]. *)
Definition touchTimeout (svgRef : option DOMRect) (touch : Touch)
    (refs : Refs) : Refs * list output :=
  ({| rafRef := rafRef refs; multiTouchRef := multiTouchRef refs;
      touchTimeoutRef := None |},
   if negb (multiTouchRef refs) then
     let coords := getGridCoordinates svgRef (touchEvent touch n1) in
     invoke onCanvasMouseDown (OnCanvasMouseDown (withButtons coords n1) true)
   else []).

(** [handleTouchMove(e)] with [e.touches = touch :: others]. *)
Definition handleTouchMove (svgRef : option DOMRect) (touch : Touch)
    (others : list Touch) (refs : Refs) : Refs * list output :=
  match svgRef with
  | None => (refs, [])
  | Some _ =>
      if multiTouchRef refs
         || match others with _ :: _ => true | [] => false end
      then ({| rafRef := rafRef refs; multiTouchRef := true;
               touchTimeoutRef := touchTimeoutRef refs |}, [PreventDefault])
      else (requestFrame (TouchMoveFrame touch) refs, [PreventDefault])
  end.

(** The frame callback of [handleTouchMove]. *)
Definition touchMoveFrame (svgRef : option DOMRect) (touch : Touch)
  : list output :=
  let coords := getGridCoordinates svgRef (touchEvent touch n1) in
  invoke onCanvasMouseMove (OnCanvasMouseMove (withButtons coords n1) true).

(** [handleTouchEnd(e)] *)
Definition handleTouchEnd (svgRef : option DOMRect)
    (touches changedTouches : list Touch) (refs : Refs)
  : Refs * list output :=
  match svgRef with
  | None => (refs, [])
  | Some _ =>
      let multiTouch :=
        match touches with [] => false | _ :: _ => multiTouchRef refs end in
      ({| rafRef := rafRef refs; multiTouchRef := multiTouch;
          touchTimeoutRef := touchTimeoutRef refs |},
       PreventDefault ::
       if multiTouch then []
       else
         let e :=
           match changedTouches with
           | touch :: _ => touchEvent touch n0
           | [] => {| clientX := n0; clientY := n0; buttons := n0 |}
           end in
         let coords := getGridCoordinates svgRef e in
         (invoke onCanvasMouseUp (OnCanvasMouseUp (withButtons coords n0) true)
          ++ invoke onClick (OnClick coords))%list)
  end.

Definition handleTouchCancel : list output :=
  invoke onCanvasMouseLeave OnCanvasMouseLeave.

(** ** The component as a transition system

    What can happen to a mounted component whose props stay the same. *)
Inductive event : Type :=
| Mounted
| Resized
| AnimationFrame
| Timeout
| Click (e : PointerEvent)
| MouseDown (e : PointerEvent)
| MouseUp (e : PointerEvent)
| MouseMove (e : PointerEvent)
| MouseLeave
| ContextMenu
| TouchStart (touch : Touch) (others : list Touch)
| TouchMove (touch : Touch) (others : list Touch)
| TouchEnd (touches changedTouches : list Touch)
| TouchCancel.

Record Component : Type := {
  viewport : ViewportState;
  refs : Refs
}.


(** One event, handled while the DOM answers [dom].  [Mounted] is the
    first run of the effect, [Resized] the callback of the ResizeObserver,
    [AnimationFrame] and [Timeout] the pending callbacks when they run. *)
Definition step (dom : option Measurement) (c : Component) (ev : event)
  : Component * list output :=
  let svgRef := option_map svgRect dom in
  let keep (r : Refs * list output) :=
    ({| viewport := viewport c; refs := fst r |}, snd r) in
  match ev with
  | Mounted =>
      ({| viewport := updateViewport dom (viewport c); refs := refs c |}, [])
  | Resized => keep (requestFrame UpdateViewportFrame (refs c), [])
  | AnimationFrame =>
      let cleared :=
        {| rafRef := None; multiTouchRef := multiTouchRef (refs c);
           touchTimeoutRef := touchTimeoutRef (refs c) |} in
      match rafRef (refs c) with
      | None => (c, [])
      | Some UpdateViewportFrame =>
          ({| viewport := updateViewport dom (viewport c); refs := cleared |},
           [])
      | Some (MouseMoveFrame e) =>
          ({| viewport := viewport c; refs := cleared |},
           mouseMoveFrame svgRef e)
      | Some (TouchMoveFrame touch) =>
          ({| viewport := viewport c; refs := cleared |},
           touchMoveFrame svgRef touch)
      end
  | Timeout =>
      match touchTimeoutRef (refs c) with
      | None => (c, [])
      | Some touch => keep (touchTimeout svgRef touch (refs c))
      end
  | Click e => keep (refs c, handleClick svgRef e)
  | MouseDown e => keep (refs c, handleMouseDown svgRef e)
  | MouseUp e => keep (refs c, handleMouseUp svgRef e)
  | MouseMove e => keep (handleMouseMove e (refs c))
  | MouseLeave => keep (refs c, handleMouseLeave)
  | ContextMenu => keep (refs c, [PreventDefault])
  | TouchStart touch others =>
      keep (handleTouchStart svgRef touch others (refs c))
  | TouchMove touch others =>
      keep (handleTouchMove svgRef touch others (refs c))
  | TouchEnd touches changedTouches =>
      keep (handleTouchEnd svgRef touches changedTouches (refs c))
  | TouchCancel => keep (refs c, handleTouchCancel)
  end.

(** A run of events, each with the DOM of its moment; the outputs in
    order. *)
Fixpoint steps (c : Component) (evs : list (option Measurement * event))
  : Component * list output :=
  match evs with
  | [] => (c, [])
  | (dom, ev) :: rest =>
      let (c1, out1) := step dom c ev in
      let (c2, out2) := steps c1 rest in
      (c2, (out1 ++ out2)%list)
  end.

End Component.

End SVGRenderer.

(* ================================================================== *)
(** * App.jsx: raster export and image import *)
(* ================================================================== *)

Module App.

Import SVGRenderer.

Record GridDimensions : Type := {
  dim_width : JS.number;
  dim_height : JS.number
}.

(** ** [performExport], PNG and JPG branch *)

(** What the export does to the canvas context, in order.  The three
    per-pixel drawing functions and [drawGrid] are imported by [App.jsx];
    a call is recorded with its arguments. *)
Inductive canvasOp : Type :=
| SetCanvasSize (w h : JS.number)
| SetFillStyle (style : string)
| FillRect (x y w h : JS.number)
| Save
| Translate (dx dy : JS.number)
| Scale (sx sy : JS.number)
| DrawGlowLayer (x y size : JS.number) (color : string) (s : GlowSettings)
    (cr : option CornerRadius) (shape : string)
| DrawCrispPixel (x y size : JS.number) (color : string)
    (cr : option CornerRadius) (shape : string)
| DrawBulbEffect (x y size : JS.number) (s : BulbSettings) (shape : string)
    (cr : option CornerRadius)
| DrawGrid (baseWidth baseHeight gridW gridH pixelSize gridGap : JS.number)
| Restore.

Record ExportOptions : Type := {
  format : string;
  export_scale : JS.number;
  padding : JS.number;
  includeGrid : bool;
  includeBackground : bool
}.

Section RasterExport.

Variable pixelSize gridGap : JS.number.
Variable gridDimensions : GridDimensions.
Variable pixelGrid : list (list (option string)).
Variable backgroundColor : option string.
Variable rendererType : string.
Variable cornerRadius : CornerRadius.
Variable pixelShape : string.
Variable glowEnabled : bool.
Variable glowSettings : GlowSettings.
Variable bulbEnabled : bool.
Variable bulbSettings : BulbSettings.

(** One pass of the export: the nested loops over the whole grid, with
    [draw] called at every cell that has a colour. *)
Definition exportPass (draw : JS.number -> JS.number -> string -> canvasOp)
  : run (list canvasOp) :=
  let exportCellSize := (pixelSize + gridGap)%js in
  ys <- JS.for_range false n0 (dim_height gridDimensions) ;;
  match ys with
  | [] => Done []
  | _ :: _ =>
      xs <- JS.for_range false n0 (dim_width gridDimensions) ;;
      Done (flat_map
              (fun cell : JS.number * JS.number =>
                 let (x, y) := cell in
                 match SVGRenderer.pixelAt pixelGrid x y with
                 | Some color =>
                     if JS.truthy_string color then
                       let xPos := (x * exportCellSize + gridGap / n2)%js in
                       let yPos := (y * exportCellSize + gridGap / n2)%js in
                       [draw xPos yPos color]
                     else []
                 | None => []
                 end)
              (SVGRenderer.cells_of ys xs))
  end.

Definition run_then {A B : Type} (m : run A) (k : A -> run B) : run B :=
  match m with
  | Done a => k a
  | Loops => Loops
  end.

(** The canvas operations of [performExport] from the creation of the
    export canvas to [exportCtx.restore()].  [None] is the SVG branch,
    which serialises the rendered [<svg>] element instead. *)
Definition performExport (o : ExportOptions) : option (run (list canvasOp)) :=
  if String.eqb (format o) "svg" && String.eqb rendererType "svg" then None
  else Some (
    let cellSize := (pixelSize + gridGap)%js in
    let baseWidth := (dim_width gridDimensions * cellSize)%js in
    let baseHeight := (dim_height gridDimensions * cellSize)%js in
    let scaledWidth := JS.Math.floor (baseWidth * export_scale o)%js in
    let scaledHeight := JS.Math.floor (baseHeight * export_scale o)%js in
    let paddedWidth := (scaledWidth + padding o * n2)%js in
    let paddedHeight := (scaledHeight + padding o * n2)%js in
    let fillStyle :=
      if includeBackground o then
        if String.eqb (format o) "jpg"
        then JS.or_string backgroundColor "#ffffff"
        else JS.or_string backgroundColor "transparent"
      else
        if String.eqb (format o) "jpg" then "#ffffff" else "transparent" in
    let currentCornerRadius :=
      if enabled cornerRadius then Some cornerRadius else None in
    run_then
      (if glowEnabled
       then exportPass (fun xPos yPos color =>
              DrawGlowLayer xPos yPos pixelSize color glowSettings
                currentCornerRadius pixelShape)
       else Done [])
      (fun glow =>
    run_then
      (exportPass (fun xPos yPos color =>
         DrawCrispPixel xPos yPos pixelSize color currentCornerRadius
           pixelShape))
      (fun crisp =>
    run_then
      (if bulbEnabled
       then exportPass (fun xPos yPos _ =>
              DrawBulbEffect xPos yPos pixelSize bulbSettings pixelShape
                currentCornerRadius)
       else Done [])
      (fun bulb =>
    Done ([ SetCanvasSize paddedWidth paddedHeight;
            SetFillStyle fillStyle;
            FillRect n0 n0 paddedWidth paddedHeight;
            Save;
            Translate (padding o) (padding o);
            Scale (export_scale o) (export_scale o) ]
          ++ glow ++ crisp ++ bulb
          ++ (if includeGrid o
              then [DrawGrid baseWidth baseHeight
                      (dim_width gridDimensions) (dim_height gridDimensions)
                      pixelSize gridGap]
              else [])
          ++ [Restore])%list)))).

End RasterExport.

(** ** [handleImageImport] *)

(** [parseInt(s, 10)]: leading white space, an optional sign, then the
    longest run of decimal digits, read as an integer and rounded to a
    Number; [NaN] when there is no digit.  A character of a string is a
    code below 256: the white space among them is the tab, the line feed,
    the vertical tab, the form feed, the carriage return, the space and
    the no-break space. *)
Definition is_space (c : ascii) : bool :=
  let n := nat_of_ascii c in
  (n =? 32)%nat || ((9 <=? n)%nat && (n <=? 13)%nat) || (n =? 160)%nat.

Fixpoint skip_spaces (s : string) : string :=
  match s with
  | String c rest => if is_space c then skip_spaces rest else s
  | EmptyString => s
  end.

Definition digit_of (c : ascii) : option Z :=
  let n := nat_of_ascii c in
  if (48 <=? n)%nat && (n <=? 57)%nat then Some (Z.of_nat (n - 48)) else None.

Fixpoint digits (s : string) (acc : option Z) : option Z :=
  match s with
  | String c rest =>
      match digit_of c with
      | Some d =>
          digits rest
            (Some (10 * match acc with Some a => a | None => 0 end + d)%Z)
      | None => acc
      end
  | EmptyString => acc
  end.

Definition parseInt (s : string) : JS.number :=
  let s := skip_spaces s in
  let (negative, body) :=
    match s with
    | String "-"%char rest => (true, rest)
    | String "+"%char rest => (false, rest)
    | _ => (false, s)
    end in
  match digits body None with
  | Some n => JS.of_integer (if negative then - n else n)
  | None => JS.NaN
  end.

Record ImportSettings : Type := {
  settings_width : string;
  settings_height : string;
  settings_maxColors : string
}.

(** An entry of the [pixels] array handed to the quantizer. *)
Record SampledPixel : Type := {
  r : Z;
  g : Z;
  b : Z;
  index : N
}.

Record RGB : Type := {
  center_r : Z;
  center_g : Z;
  center_b : Z
}.

Record Cluster : Type := {
  center : RGB;
  pixels : list SampledPixel
}.

(** What the handler does to the rest of the application, in order. *)
Inductive effect : Type :=
| ConsoleError (msg : string)
| Alert (msg : string)
| ToggleImportModal (open : bool)
| SetImportImageUrl (url : option string)
| ResizeGrid (w h : JS.number)
| KMeansClustering (pixels : list SampledPixel) (k : JS.number)
| SetColorHistory (quantizedColors : list string)
| SetPixelGrid (grid : list (list (option string)))
| SetHasDrawn (drawn : bool).

(** What the browser answers during one import: whether the image loads,
    whether the canvas gives a 2D context, and the bytes of
    [getImageData(0, 0, w, h).data] after the image is drawn at [w] by [h]. *)
Record ImportEnv : Type := {
  image_loads : bool;
  has_context : bool;
  imageData : JS.number -> JS.number -> list Z
}.

Definition MAX_HISTORY_LENGTH : nat := 256.
Definition ALPHA_THRESHOLD : Z := 128.

(** Step 5: the loop [for (let i = 0; i < data.length; i += 4)] over the
    RGBA bytes; [i] is the position of the first byte left in [data].  A
    tail of fewer than four bytes reads its alpha as [undefined] and adds
    nothing. *)
Fixpoint samplePixels (data : list Z) (i : N) : list SampledPixel :=
  match data with
  | r :: g :: b :: a :: rest =>
      if (a >? ALPHA_THRESHOLD)%Z
      then {| r := r; g := g; b := b; index := (i / 4)%N |}
             :: samplePixels rest (i + 4)%N
      else samplePixels rest (i + 4)%N
  | _ => []
  end.

(** [[...new Set(l)]]: the first occurrence of every value, in order. *)
Fixpoint dedup (seen l : list string) : list string :=
  match l with
  | [] => []
  | s :: rest =>
      if existsb (String.eqb s) seen then dedup seen rest
      else s :: dedup (s :: seen) rest
  end.

(** [grid[y][x] = v] under the guard
    [y < grid.length && x < grid[0].length]. *)
Definition grid_set (grid : list (list (option string))) (x y : N)
    (v : string) : list (list (option string)) :=
  let rowLength := match grid with row0 :: _ => List.length row0 | [] => 0%nat end in
  if ((N.to_nat y <? List.length grid) && (N.to_nat x <? rowLength))%nat then
    map (fun '(j, row) =>
           if (j =? N.to_nat y)%nat then
             map (fun '(i, c) => if (i =? N.to_nat x)%nat then Some v else c)
                 (combine (seq 0 (List.length row)) row)
           else row)
        (combine (seq 0 (List.length grid)) grid)
  else grid.

Section ImageImport.

(** Imported from [utils/imageProcessing] and [utils/colorUtils]. *)
Variable kMeansClustering : list SampledPixel -> JS.number -> list Cluster.
Variable rgbToHex : Z -> Z -> Z -> string.

(** Step 1: the settings pass the validation. *)
Definition validSettings (targetWidth targetHeight colorLimit : JS.number)
  : bool :=
  (targetWidth > n0)%js && (targetHeight > n0)%js
  && (colorLimit >= n2)%js && (colorLimit <= JS.of_Z 256)%js.

(** Step 7: the grid painted from the clusters, and the set of colours
    in insertion order. *)
Definition paintClusters (targetWidth targetHeight : N)
    (clusters : list Cluster)
  : list (list (option string)) * list string :=
  fold_left
    (fun (acc : list (list (option string)) * list string) cluster =>
       let (grid, colors) := acc in
       let hexColor :=
         rgbToHex (center_r (center cluster)) (center_g (center cluster))
           (center_b (center cluster)) in
       (fold_left
          (fun grid pixel =>
             grid_set grid (index pixel mod targetWidth)%N
               (index pixel / targetWidth)%N hexColor)
          (pixels cluster) grid,
        if existsb (String.eqb hexColor) colors then colors
        else (colors ++ [hexColor])%list))
    clusters
    (repeat (repeat None (N.to_nat targetWidth)) (N.to_nat targetHeight),
     []).

(** A validated size as a natural number. *)
Definition to_N (a : JS.number) : N :=
  match a with
  | JS.Fin q => Z.to_N (Qfloor q)
  | _ => 0%N
  end.

(** [handleImageImport(croppedDataUrl, settings)] *)
Definition handleImageImport (env : ImportEnv)
    (croppedDataUrl : option string) (settings : option ImportSettings)
  : list effect :=
  match croppedDataUrl, settings with
  | Some url, Some settings =>
      if negb (JS.truthy_string url) then
        [ ConsoleError "Import failed: Missing image data or settings.";
          ToggleImportModal false; SetImportImageUrl None ]
      else
      let targetWidth := parseInt (settings_width settings) in
      let targetHeight := parseInt (settings_height settings) in
      let colorLimit := parseInt (settings_maxColors settings) in
      if negb (validSettings targetWidth targetHeight colorLimit) then
        [ ConsoleError "Import failed: Invalid width, height, or max colors.";
          Alert "Invalid import settings. Width/Height must be > 0, Max Colors must be between 2 and 256." ]
      else
        ResizeGrid targetWidth targetHeight ::
        if negb (image_loads env) then
          [ ConsoleError "Error during image import processing:";
            Alert "Image import failed: undefined" ]
        else if negb (has_context env) then
          [ ConsoleError "Error during image import processing:";
            Alert "Image import failed: Failed to get context for final canvas." ]
        else
          let pixels := samplePixels (imageData env targetWidth targetHeight) 0 in
          let clusters := kMeansClustering pixels colorLimit in
          let (newPixelGrid, quantizedColors) :=
            paintClusters (to_N targetWidth) (to_N targetHeight) clusters in
          [ KMeansClustering pixels colorLimit;
            SetColorHistory quantizedColors;
            SetPixelGrid newPixelGrid;
            SetHasDrawn true;
            ToggleImportModal false;
            SetImportImageUrl None ]
  | _, _ =>
      [ ConsoleError "Import failed: Missing image data or settings.";
        ToggleImportModal false; SetImportImageUrl None ]
  end.

(** ** The state the handler's effects act on

    [quantizerCalls] is not a state of the application: it counts the calls
    of [kMeansClustering], so that "the quantizer is not called" can be
    read off the state. *)

Record AppState : Type := {
  gridDimensions : GridDimensions;
  pixelGrid : list (list (option string));
  colorHistory : list string;
  hasDrawn : bool;
  importModalOpen : bool;
  importImageUrl : option string;
  quantizerCalls : nat
}.

(** [resizeGrid] comes from the artwork-state hook. *)
Variable resizeGrid : JS.number -> JS.number -> AppState -> AppState.

Definition apply_effect (st : AppState) (e : effect) : AppState :=
  match e with
  | ConsoleError _ | Alert _ => st
  | ToggleImportModal open =>
      {| gridDimensions := gridDimensions st; pixelGrid := pixelGrid st;
         colorHistory := colorHistory st; hasDrawn := hasDrawn st;
         importModalOpen := open; importImageUrl := importImageUrl st;
         quantizerCalls := quantizerCalls st |}
  | SetImportImageUrl url =>
      {| gridDimensions := gridDimensions st; pixelGrid := pixelGrid st;
         colorHistory := colorHistory st; hasDrawn := hasDrawn st;
         importModalOpen := importModalOpen st; importImageUrl := url;
         quantizerCalls := quantizerCalls st |}
  | ResizeGrid w h => resizeGrid w h st
  | KMeansClustering _ _ =>
      {| gridDimensions := gridDimensions st; pixelGrid := pixelGrid st;
         colorHistory := colorHistory st; hasDrawn := hasDrawn st;
         importModalOpen := importModalOpen st;
         importImageUrl := importImageUrl st;
         quantizerCalls := S (quantizerCalls st) |}
  | SetColorHistory quantizedColors =>
      {| gridDimensions := gridDimensions st; pixelGrid := pixelGrid st;
         colorHistory :=
           firstn MAX_HISTORY_LENGTH
             (dedup [] (quantizedColors ++ colorHistory st)%list);
         hasDrawn := hasDrawn st;
         importModalOpen := importModalOpen st;
         importImageUrl := importImageUrl st;
         quantizerCalls := quantizerCalls st |}
  | SetPixelGrid grid =>
      {| gridDimensions := gridDimensions st; pixelGrid := grid;
         colorHistory := colorHistory st; hasDrawn := hasDrawn st;
         importModalOpen := importModalOpen st;
         importImageUrl := importImageUrl st;
         quantizerCalls := quantizerCalls st |}
  | SetHasDrawn drawn =>
      {| gridDimensions := gridDimensions st; pixelGrid := pixelGrid st;
         colorHistory := colorHistory st; hasDrawn := drawn;
         importModalOpen := importModalOpen st;
         importImageUrl := importImageUrl st;
         quantizerCalls := quantizerCalls st |}
  end.

Definition apply_effects (st : AppState) (es : list effect) : AppState :=
  fold_left apply_effect es st.

End ImageImport.

(** ** Adding and removing rows and columns

    A function that can also throw has a result in [run (option _)]:
    [Done None] is an exception.  A cell that is [null] and one that reads
    as [undefined] are both [None]. *)

Definition Grid : Type := list (list (option string)).

(** [Array(rows).fill().map(() => Array(cols).fill(null))]: a fresh array
    for every row.  [None] is the RangeError of [Array(n)] when [n] is no
    array length; [Array(cols)] is evaluated once for each row, so not at
    all when there is none.  The upper limit of array lengths is left
    out. *)
Definition blankGrid (rows cols : JS.number) : option Grid :=
  match JS.as_index rows with
  | None => None
  | Some O => Some []
  | Some r =>
      match JS.as_index cols with
      | None => None
      | Some c => Some (repeat (repeat None c) r)
      end
  end.

(** [pixelGrid[y][x]]; [None] is the TypeError of reading off a row that
    is [undefined]. *)
Definition readCell (pixelGrid : Grid) (y x : JS.number)
  : option (option string) :=
  match JS.get pixelGrid y with
  | None => None
  | Some row =>
      Some (match JS.get row x with Some c => c | None => None end)
  end.

(** [row[x] = v]: past the end the array grows; an [x] that is no index
    names a property, not an element. *)
Definition writeRow (row : list (option string)) (x : JS.number)
    (v : option string) : list (option string) :=
  match JS.as_index x with
  | None => row
  | Some i =>
      if (i <? List.length row)%nat
      then (firstn i row ++ v :: skipn (S i) row)%list
      else (row ++ repeat None (i - List.length row) ++ [v])%list
  end.

(** [newGrid[y][x] = v]; [None] is the TypeError of writing to a row that
    is [undefined]. *)
Definition writeCell (newGrid : Grid) (y x : JS.number) (v : option string)
  : option Grid :=
  match JS.as_index y with
  | None => None
  | Some j =>
      match nth_error newGrid j with
      | None => None
      | Some row =>
          Some (firstn j newGrid ++ writeRow row x v :: skipn (S j) newGrid)%list
      end
  end.

(** [newGrid[ty][tx] = pixelGrid[sy][sx]] *)
Definition copyCell (pixelGrid : Grid) (sy sx ty tx : JS.number)
    (newGrid : Grid) : option Grid :=
  match readCell pixelGrid sy sx with
  | None => None
  | Some v => writeCell newGrid ty tx v
  end.

(** [for (let y = 0; y < height; y++)
       for (let x = 0; x < width; x++) body(y, x)]
    for a body that updates [newGrid] or throws. *)
Definition forEachCell (height width : JS.number)
    (body : JS.number -> JS.number -> Grid -> option Grid) (newGrid : Grid)
  : run (option Grid) :=
  ys <- JS.for_range false n0 height ;;
  fold_left
    (fun (acc : run (option Grid)) y =>
       match acc with
       | Done (Some grid) =>
           xs <- JS.for_range false n0 width ;;
           Done (fold_left
                   (fun (acc : option Grid) x =>
                      match acc with
                      | Some grid => body y x grid
                      | None => None
                      end)
                   xs (Some grid))
       | _ => acc
       end)
    ys (Done (Some newGrid)).

(** The state the eight functions read and set.  [art_dimensions] is the
    state of the artwork hook that [gridDimensions] shows and
    [setInternalGridDimensions] updates. *)
Record Artwork : Type := {
  art_dimensions : GridDimensions;
  art_grid : Grid;
  art_lastActionType : option string
}.

(** [setPixelGrid(newGrid); setInternalGridDimensions(prev => ...);
     setLastActionType('grid_change')] once the loops are through. *)
Definition gridChange (copied : run (option Grid))
    (dimensions : GridDimensions) : run (option Artwork) :=
  match copied with
  | Loops => Loops
  | Done None => Done None
  | Done (Some newGrid) =>
      Done (Some {| art_dimensions := dimensions; art_grid := newGrid;
                    art_lastActionType := Some "grid_change" |})
  end.

Definition addRowTop (st : Artwork) : run (option Artwork) :=
  let gridDimensions := art_dimensions st in
  let pixelGrid := art_grid st in
  match blankGrid (dim_height gridDimensions + n1)%js
          (dim_width gridDimensions) with
  | None => Done None
  | Some newGrid =>
      gridChange
        (forEachCell (dim_height gridDimensions) (dim_width gridDimensions)
           (fun y x => copyCell pixelGrid y x (y + n1)%js x) newGrid)
        {| dim_width := dim_width gridDimensions;
           dim_height := (dim_height gridDimensions + n1)%js |}
  end.

Definition addRowBottom (st : Artwork) : run (option Artwork) :=
  let gridDimensions := art_dimensions st in
  let pixelGrid := art_grid st in
  match blankGrid (dim_height gridDimensions + n1)%js
          (dim_width gridDimensions) with
  | None => Done None
  | Some newGrid =>
      gridChange
        (forEachCell (dim_height gridDimensions) (dim_width gridDimensions)
           (fun y x => copyCell pixelGrid y x y x) newGrid)
        {| dim_width := dim_width gridDimensions;
           dim_height := (dim_height gridDimensions + n1)%js |}
  end.

Definition removeRowTop (st : Artwork) : run (option Artwork) :=
  let gridDimensions := art_dimensions st in
  let pixelGrid := art_grid st in
  if (dim_height gridDimensions <= n1)%js then Done (Some st)
  else
    match blankGrid (dim_height gridDimensions - n1)%js
            (dim_width gridDimensions) with
    | None => Done None
    | Some newGrid =>
        gridChange
          (forEachCell (dim_height gridDimensions - n1)%js
             (dim_width gridDimensions)
             (fun y x => copyCell pixelGrid (y + n1)%js x y x) newGrid)
          {| dim_width := dim_width gridDimensions;
             dim_height := (dim_height gridDimensions - n1)%js |}
    end.

Definition removeRowBottom (st : Artwork) : run (option Artwork) :=
  let gridDimensions := art_dimensions st in
  let pixelGrid := art_grid st in
  if (dim_height gridDimensions <= n1)%js then Done (Some st)
  else
    match blankGrid (dim_height gridDimensions - n1)%js
            (dim_width gridDimensions) with
    | None => Done None
    | Some newGrid =>
        gridChange
          (forEachCell (dim_height gridDimensions - n1)%js
             (dim_width gridDimensions)
             (fun y x => copyCell pixelGrid y x y x) newGrid)
          {| dim_width := dim_width gridDimensions;
             dim_height := (dim_height gridDimensions - n1)%js |}
    end.

Definition addColLeft (st : Artwork) : run (option Artwork) :=
  let gridDimensions := art_dimensions st in
  let pixelGrid := art_grid st in
  match blankGrid (dim_height gridDimensions)
          (dim_width gridDimensions + n1)%js with
  | None => Done None
  | Some newGrid =>
      gridChange
        (forEachCell (dim_height gridDimensions) (dim_width gridDimensions)
           (fun y x => copyCell pixelGrid y x y (x + n1)%js) newGrid)
        {| dim_width := (dim_width gridDimensions + n1)%js;
           dim_height := dim_height gridDimensions |}
  end.

Definition addColRight (st : Artwork) : run (option Artwork) :=
  let gridDimensions := art_dimensions st in
  let pixelGrid := art_grid st in
  match blankGrid (dim_height gridDimensions)
          (dim_width gridDimensions + n1)%js with
  | None => Done None
  | Some newGrid =>
      gridChange
        (forEachCell (dim_height gridDimensions) (dim_width gridDimensions)
           (fun y x => copyCell pixelGrid y x y x) newGrid)
        {| dim_width := (dim_width gridDimensions + n1)%js;
           dim_height := dim_height gridDimensions |}
  end.

Definition removeColLeft (st : Artwork) : run (option Artwork) :=
  let gridDimensions := art_dimensions st in
  let pixelGrid := art_grid st in
  if (dim_width gridDimensions <= n1)%js then Done (Some st)
  else
    match blankGrid (dim_height gridDimensions)
            (dim_width gridDimensions - n1)%js with
    | None => Done None
    | Some newGrid =>
        gridChange
          (forEachCell (dim_height gridDimensions)
             (dim_width gridDimensions - n1)%js
             (fun y x => copyCell pixelGrid y (x + n1)%js y x) newGrid)
          {| dim_width := (dim_width gridDimensions - n1)%js;
             dim_height := dim_height gridDimensions |}
    end.

Definition removeColRight (st : Artwork) : run (option Artwork) :=
  let gridDimensions := art_dimensions st in
  let pixelGrid := art_grid st in
  if (dim_width gridDimensions <= n1)%js then Done (Some st)
  else
    match blankGrid (dim_height gridDimensions)
            (dim_width gridDimensions - n1)%js with
    | None => Done None
    | Some newGrid =>
        gridChange
          (forEachCell (dim_height gridDimensions)
             (dim_width gridDimensions - n1)%js
             (fun y x => copyCell pixelGrid y x y x) newGrid)
          {| dim_width := (dim_width gridDimensions - n1)%js;
             dim_height := dim_height gridDimensions |}
    end.

(** ** The keyboard handler: Shift, colour swap, copy and cut *)

(** What [handleKeyDown] reads from the event. *)
Record KeyboardEvent : Type := {
  targetTagName : string;
  event_key : string;
  metaKey : bool;
  ctrlKey : bool
}.

(** [selectionArea] *)
Record SelectionArea : Type := {
  sel_x1 : JS.number;
  sel_y1 : JS.number;
  sel_x2 : JS.number;
  sel_y2 : JS.number
}.

(** The object handed to [setCopyBuffer]. *)
Record CopyBuffer : Type := {
  buffer_width : JS.number;
  buffer_height : JS.number;
  buffer_data : Grid
}.

(** What the handler does, in order.  Of [console.log] the first argument
    is kept. *)
Inductive shortcutEffect : Type :=
| ShiftKeyPressed
| SelectColor (color : string)
| ConsoleLog (msg : string)
| EventPreventDefault
| SetCopyBuffer (buffer : CopyBuffer)
| SetPixelGridAfterCut (newGrid : Grid)
| PushHistory (pixelGrid : Grid) (gridDimensions : GridDimensions)
    (type : string)
| SetSelectionArea (area : option SelectionArea).

(** How the handler ends: it returns, an exception leaves it, or a loop
    does not end. *)
Inductive ending : Type := Returns | Throws | Hangs.

(** [sourceY >= 0 && sourceY < pixelGrid.length &&
     sourceX >= 0 && sourceX < pixelGrid[0].length]: the last test is
    reached only when the grid has a first row. *)
Definition inBounds (pixelGrid : Grid) (sourceY sourceX : JS.number) : bool :=
  (sourceY >= n0)%js
  && (sourceY < JS.of_Z (Z.of_nat (List.length pixelGrid)))%js
  && (sourceX >= n0)%js
  && match pixelGrid with
     | row0 :: _ => (sourceX < JS.of_Z (Z.of_nat (List.length row0)))%js
     | [] => false
     end.

(** The loops that fill [extractedData], the same in the copy and in the
    cut branch. *)
Definition extractData (pixelGrid : Grid) (x1 y1 width height : JS.number)
  : run (option Grid) :=
  ys <- JS.for_range false n0 height ;;
  fold_left
    (fun (acc : run (option Grid)) y =>
       match acc with
       | Done (Some extractedData) =>
           xs <- JS.for_range false n0 width ;;
           Done (match
                   fold_left
                     (fun (acc : option (list (option string))) x =>
                        match acc with
                        | Some row =>
                            let sourceY := (y1 + y)%js in
                            let sourceX := (x1 + x)%js in
                            if inBounds pixelGrid sourceY sourceX then
                              match readCell pixelGrid sourceY sourceX with
                              | Some v => Some (row ++ [v])%list
                              | None => None
                              end
                            else Some (row ++ [None])%list
                        | None => None
                        end)
                     xs (Some [])
                 with
                 | Some row => Some (extractedData ++ [row])%list
                 | None => None
                 end)
       | _ => acc
       end)
    ys (Done (Some [])).

(** The body of the loops of the cut at [(x, y)], on [newGrid] and
    [changed]: a cell that is not [null] is set to [null]. *)
Definition clearCell (y x : JS.number) (acc : Grid * bool)
  : option (Grid * bool) :=
  let (newGrid, changed) := acc in
  if inBounds newGrid y x then
    match JS.get newGrid y with
    | None => None
    | Some row =>
        match JS.get row x with
        | Some None => Some (newGrid, changed)
        | _ =>
            match writeCell newGrid y x None with
            | Some newGrid => Some (newGrid, true)
            | None => None
            end
        end
    end
  else Some acc.

(** [for (let y = y1; y <= y2; y++) for (let x = x1; x <= x2; x++) ...] *)
Definition clearSelection (pixelGrid : Grid) (x1 y1 x2 y2 : JS.number)
  : run (option (Grid * bool)) :=
  ys <- JS.for_range true y1 y2 ;;
  fold_left
    (fun (acc : run (option (Grid * bool))) y =>
       match acc with
       | Done (Some st) =>
           xs <- JS.for_range true x1 x2 ;;
           Done (fold_left
                   (fun (acc : option (Grid * bool)) x =>
                      match acc with
                      | Some st => clearCell y x st
                      | None => None
                      end)
                   xs (Some st))
       | _ => acc
       end)
    ys (Done (Some (pixelGrid, false))).

(** The effects of a computation that can throw or hang, followed by
    those of [rest] when it returns. *)
Definition andThen {A : Type} (m : run (option A))
    (rest : A -> list shortcutEffect * ending)
  : list shortcutEffect * ending :=
  match m with
  | Loops => ([], Hangs)
  | Done None => ([], Throws)
  | Done (Some a) => rest a
  end.

Definition effects_then (es : list shortcutEffect)
    (r : list shortcutEffect * ending) : list shortcutEffect * ending :=
  ((es ++ fst r)%list, snd r).

(** [handleKeyDown(event)] of the effect that tracks Shift and the
    shortcuts of the selection. *)
Definition handleKeyDown (colorHistory : list string)
    (selectionArea : option SelectionArea) (pixelGrid : Grid)
    (gridDimensions : GridDimensions) (event : KeyboardEvent)
  : list shortcutEffect * ending :=
  if String.eqb (targetTagName event) "INPUT"
     || String.eqb (targetTagName event) "TEXTAREA"
     || String.eqb (targetTagName event) "SELECT"
  then ([], Returns)
  else
    let modifier := metaKey event || ctrlKey event in
    let lowered := JS.toLowerCase (event_key event) in
    effects_then
      (if String.eqb (event_key event) "Shift" then [ShiftKeyPressed] else [])
    (effects_then
      (if String.eqb lowered "x" then
         match colorHistory with
         | _ :: swapTargetColor :: _ =>
             [ SelectColor swapTargetColor;
               ConsoleLog ("Swapped active color to: " ++ swapTargetColor) ]
         | _ => []
         end
       else [])
    (if String.eqb lowered "c" && modifier then
       match selectionArea with
       | Some area =>
           let width := (sel_x2 area - sel_x1 area + n1)%js in
           let height := (sel_y2 area - sel_y1 area + n1)%js in
           effects_then
             [ ConsoleLog "Copy shortcut detected with selection:";
               EventPreventDefault ]
             (andThen
                (extractData pixelGrid (sel_x1 area) (sel_y1 area) width
                   height)
                (fun extractedData =>
                   ([ SetCopyBuffer
                        {| buffer_width := width; buffer_height := height;
                           buffer_data := extractedData |};
                      ConsoleLog "Data copied to buffer:" ], Returns)))
       | None => ([ConsoleLog "Copy shortcut ignored, no selection."], Returns)
       end
     else if String.eqb lowered "x" && modifier then
       (* a second [if] in the source; its test excludes the one above *)
       match selectionArea with
       | Some area =>
           let width := (sel_x2 area - sel_x1 area + n1)%js in
           let height := (sel_y2 area - sel_y1 area + n1)%js in
           effects_then
             [ ConsoleLog "Cut shortcut detected with selection:";
               EventPreventDefault ]
             (andThen
                (extractData pixelGrid (sel_x1 area) (sel_y1 area) width
                   height)
                (fun extractedData =>
                   effects_then
                     [ SetCopyBuffer
                         {| buffer_width := width; buffer_height := height;
                            buffer_data := extractedData |};
                       ConsoleLog "Data copied to buffer for cut:" ]
                     (andThen
                        (clearSelection pixelGrid (sel_x1 area) (sel_y1 area)
                           (sel_x2 area) (sel_y2 area))
                        (fun cleared =>
                           let (newGrid, changed) := cleared in
                           ((if changed
                             then [ SetPixelGridAfterCut newGrid;
                                    PushHistory newGrid gridDimensions "cut" ]
                             else [])
                            ++ [SetSelectionArea None], Returns)%list))))
       | None => ([ConsoleLog "Cut shortcut ignored, no selection."], Returns)
       end
     else ([], Returns))).

End App.

(* ================================================================== *)
(** * The specification's notions *)
(* ================================================================== *)

Module Spec.

Import SVGRenderer.

(** ** Visible range (section 4.3)

    The range the specification describes: the raw index range of the
    viewport, expanded by the buffer of 5 cells on every side, then clamped
    to [[0, W]] and [[0, H]]. *)


Definition rawStart (pos cellSize : Qc) : Z := Qfloor (pos / cellSize)%Qc.
Definition rawEnd (pos extent cellSize : Qc) : Z :=
  Qceiling ((pos + extent) / cellSize)%Qc.





(** ** Shape paths (section 4.2) *)

(** The [n] entries of [l] that come last. *)
Definition most_recent {A : Type} (n : nat) (l : list A) : list A :=
  skipn (List.length l - n) l.



(** One call of [createShapePath]. *)
Record Call : Type := {
  call_x : JS.number;
  call_y : JS.number;
  call_size : JS.number;
  call_shape : string;
  call_cornerRadius : option CornerRadius;
  call_customShape : option CustomShape
}.


Section Calls.

Variable toStr : JS.number -> string.
Variable Math_cos Math_sin : JS.number -> JS.number.
Variable Math_PI : JS.number.

Definition call (cache : Cache) (c : Call) : string * Cache :=
  createShapePath toStr Math_cos Math_sin Math_PI cache (call_x c) (call_y c)
    (call_size c) (call_shape c) (call_cornerRadius c) (call_customShape c).

(** The cache after a sequence of calls. *)
Definition run_calls (cache : Cache) (calls : list Call) : Cache :=
  fold_left (fun cache c => snd (call cache c)) calls cache.

Definition key_of (c : Call) : CacheKey :=
  cacheKey toStr (call_x c) (call_y c) (call_size c) (call_shape c)
    (call_cornerRadius c) (call_customShape c).

(** The keys inserted by a sequence of calls, oldest first: a call inserts
    its key when the cache it finds does not hold it. *)
Fixpoint insertions (cache : Cache) (calls : list Call) : list CacheKey :=
  match calls with
  | [] => []
  | c :: rest =>
      let later := insertions (snd (call cache c)) rest in
      match cache_get cache (key_of c) with
      | Some _ => later
      | None => key_of c :: later
      end
  end.

(** The path computed from the arguments of a call. *)
Definition path_of (c : Call) : string :=
  shapePath toStr Math_cos Math_sin Math_PI (call_x c) (call_y c)
    (call_size c) (call_shape c) (call_cornerRadius c)
    (customPath_of (call_customShape c)).

(** No call of [history] has the key string of the call [c] and another
    path: the key of [c] has not been taken by a different call. *)
Definition agrees (history : list Call) (c : Call) : Prop :=
  forall h : Call,
    In h history -> key_of h = key_of c -> path_of h = path_of c.

(** Every binding the cache holds under the key of a call of [calls] holds
    the path of that call. *)
Definition answers (cache : Cache) (calls : list Call) : Prop :=
  forall (k : CacheKey) (cached : string) (c : Call),
    In (k, cached) cache -> In c calls -> key_of c = k ->
    cached = path_of c.

(** Calls of [calls] that share a key string have the same path. *)
Definition separated (calls : list Call) : Prop :=
  forall c : Call, In c calls -> agrees calls c.


End Calls.

(** ** Composite order (section 4.4) *)

(** A list is in pass order for the ranking [rank] when an entry of a lower
    rank never comes after an entry of a higher one; entries without a rank
    are not constrained. *)
Definition in_pass_order {A : Type} (rank : A -> option nat) (l : list A)
  : Prop :=
  forall (i j : nat) (x y : A) (a b : nat),
    nth_error l i = Some x -> nth_error l j = Some y ->
    rank x = Some a -> rank y = Some b -> (a < b)%nat -> (i < j)%nat.

Inductive layer : Type := Glow | Fill | Highlight.

(** The layer an element of the pixels layer belongs to: a glow goes
    through the glow filter, a highlight is composited with a blend mode,
    a fill has neither. *)
Definition layer_of (e : element) : layer :=
  match filter e, mixBlendMode e with
  | Some _, _ => Glow
  | None, Some _ => Highlight
  | None, None => Fill
  end.

Definition layer_rank (l : layer) : nat :=
  match l with Glow => 0 | Fill => 1 | Highlight => 2 end.

Definition element_rank (e : element) : option nat :=
  Some (layer_rank (layer_of e)).

(** Every array of [renderPixels] holds elements of its own layer only. *)
Definition sorted_layers (st : layers) : Prop :=
  Forall (fun e => layer_of e = Glow) (glowPaths st)
  /\ Forall (fun e => layer_of e = Fill) (crispPaths st)
  /\ Forall (fun e => layer_of e = Highlight) (bulbPaths st).

(** The highlight of the specification for the cell [(x, y)]: the shape of
    the cell filled with the bulb gradient and composited with the blend
    mode configured (['screen'] without one). *)
Definition is_highlight_of (toStr : JS.number -> string)
    (Math_cos Math_sin : JS.number -> JS.number) (Math_PI : JS.number)
    (pixelSize gridGap : JS.number) (cornerRadius : option CornerRadius)
    (pixelShape : string) (customShape : option CustomShape)
    (bulbSettings : BulbSettings) (e : element) : Prop :=
  fill e = "url(#bulbGradient)"
  /\ filter e = None
  /\ mixBlendMode e = Some (JS.or_string (blendMode bulbSettings) "screen")
  /\ exists (x y : JS.number) (cache : Cache),
      let xPos := (x * (pixelSize + gridGap) + gridGap / n2)%js in
      let yPos := (y * (pixelSize + gridGap) + gridGap / n2)%js in
      geom e =
      if String.eqb pixelShape "circle"
      then CircleGeom (xPos + pixelSize / n2)%js (yPos + pixelSize / n2)%js
             (pixelSize / n2)%js
      else PathGeom
             (fst (createShapePath toStr Math_cos Math_sin Math_PI cache xPos
                     yPos pixelSize pixelShape cornerRadius customShape)).

(** The cell has a colour to draw. *)
Definition coloured (pixelData : list (list (option string)))
    (cell : JS.number * JS.number) : bool :=
  match pixelAt pixelData (fst cell) (snd cell) with
  | Some color => JS.truthy_string color
  | None => false
  end.

(** Every ranked entry of [l] has rank [a] at least. *)
Definition ranked_from {A : Type} (rank : A -> option nat) (a : nat)
    (l : list A) : Prop :=
  Forall (fun y => forall b, rank y = Some b -> (a <= b)%nat) l.

(** The pass a canvas operation of the export belongs to; the grid comes
    after the three passes. *)
Definition pass_of (op : App.canvasOp) : option nat :=
  match op with
  | App.DrawGlowLayer _ _ _ _ _ _ _ => Some 0%nat
  | App.DrawCrispPixel _ _ _ _ _ _ => Some 1%nat
  | App.DrawBulbEffect _ _ _ _ _ _ => Some 2%nat
  | App.DrawGrid _ _ _ _ _ _ => Some 3%nat
  | _ => None
  end.

(** The operation belongs to the pass [k]. *)
Definition in_pass (k : option nat) (op : App.canvasOp) : bool :=
  option_eqb Nat.eqb (pass_of op) k.

(** The integers from [a] to [b], both included. *)
Definition Z_range (a b : Z) : list Z :=
  map (fun k => (a + Z.of_nat k)%Z) (seq 0 (Z.to_nat (b - a + 1))).

(** ** Grid lines (section 4.4)

    The stroke of width 1 that ends on the cell boundary [k]: its centre
    line is half a unit before [k * cellSize]. *)
Definition boundary_line (toStr : JS.number -> string) (vertical : bool)
    (cellSize extent : JS.number) (k : Z) : line :=
  let at_k := (JS.of_Z k * cellSize - n0_5)%js in
  if vertical then
    {| line_key := "v" ++ toStr (JS.of_Z k);
       x1 := at_k; y1 := n0; x2 := at_k; y2 := extent;
       stroke := "rgba(128, 128, 128, 0.5)"; strokeWidth := "1" |}
  else
    {| line_key := "h" ++ toStr (JS.of_Z k);
       x1 := n0; y1 := at_k; x2 := extent; y2 := at_k;
       stroke := "rgba(128, 128, 128, 0.5)"; strokeWidth := "1" |}.

(** ** Image sampling (section 6) *)

(** A pixel of the image drawn at the target resolution. *)
Record RGBA : Type := {
  red : Z;
  green : Z;
  blue : Z;
  alpha : Z
}.

(** [ImageData.data] of an image given by its rows: four bytes a pixel, the
    rows one after the other. *)
Definition image_bytes (rows : list (list RGBA)) : list Z :=
  flat_map (fun p => [red p; green p; blue p; alpha p]) (List.concat rows).

(** The entry of the sampled list for the pixel [p] at the flattened
    position [k]. *)
Definition sampled (k : nat) (p : RGBA) : App.SampledPixel :=
  {| App.r := red p; App.g := green p; App.b := blue p;
     App.index := N.of_nat k |}.

(** ** The layers without the cache *)

Section Uncached.

Variable toStr : JS.number -> string.
Variable Math_cos Math_sin : JS.number -> JS.number.
Variable Math_PI : JS.number.
Variable pixelSize gridGap : JS.number.
Variable cornerRadius : option CornerRadius.
Variable pixelShape : string.
Variable customShape : option CustomShape.

(** Where the cell in column [x] starts, along one axis. *)
Definition cell_origin (x : JS.number) : JS.number :=
  (x * (pixelSize + gridGap) + gridGap / n2)%js.

(** The fill element of a cell of colour [color], its path computed from
    the position of the cell and from nothing else. *)
Definition fill_element (cell : JS.number * JS.number) (color : string)
  : element :=
  let radius := (pixelSize / n2)%js in
  if String.eqb pixelShape "circle" then
    {| key := (toStr (fst cell) ++ "-" ++ toStr (snd cell)) ++ "-pixel-circle";
       geom := CircleGeom (cell_origin (fst cell) + radius)%js
                 (cell_origin (snd cell) + radius)%js radius;
       fill := color; filter := None; mixBlendMode := None |}
  else
    {| key := (toStr (fst cell) ++ "-" ++ toStr (snd cell)) ++ "-pixel";
       geom := PathGeom
                 (shapePath toStr Math_cos Math_sin Math_PI
                    (cell_origin (fst cell)) (cell_origin (snd cell))
                    pixelSize pixelShape cornerRadius
                    (customPath_of customShape));
       fill := color; filter := None; mixBlendMode := None |}.

(** The fill elements of the coloured cells among [cells], in order. *)
Definition fills (pixelData : list (list (option string)))
    (cells : list (JS.number * JS.number)) : list element :=
  flat_map
    (fun cell =>
       match pixelAt pixelData (fst cell) (snd cell) with
       | Some color =>
           if JS.truthy_string color then [fill_element cell color] else []
       | None => []
       end)
    cells.

(** The calls of [createShapePath] made for the coloured cells among
    [cells], in order. *)
Definition calls_of (pixelData : list (list (option string)))
    (cells : list (JS.number * JS.number)) : list Call :=
  map (fun cell =>
         {| call_x := cell_origin (fst cell);
            call_y := cell_origin (snd cell);
            call_size := pixelSize; call_shape := pixelShape;
            call_cornerRadius := cornerRadius;
            call_customShape := customShape |})
      (List.filter (coloured pixelData) cells).

End Uncached.

(** ** Pointer handlers *)

(** Coordinates that name a cell of the grid: finite, not negative and
    below the grid size. *)
Definition inside_grid (gridWidth gridHeight : JS.number)
    (coords : GridCoordinates) : Prop :=
  exists x y : Qc,
    gridX coords = JS.Fin x /\ gridY coords = JS.Fin y
    /\ (Q2Qc 0 <= x)%Qc /\ (Q2Qc 0 <= y)%Qc
    /\ JS.lt (JS.Fin x) gridWidth = true
    /\ JS.lt (JS.Fin y) gridHeight = true.

(** The coordinates handed to a callback by a mouse handler name a cell. *)
Definition mouse_callback_inside (gridWidth gridHeight : JS.number)
    (o : output) : Prop :=
  match o with
  | OnCanvasMouseDown coords false
  | OnCanvasMouseMove coords false
  | OnCanvasMouseUp coords false => inside_grid gridWidth gridHeight coords
  | _ => True
  end.

Definition click_inside (gridWidth gridHeight : JS.number) (o : output)
  : Prop :=
  match o with
  | OnClick coords => inside_grid gridWidth gridHeight coords
  | _ => True
  end.




(** An integer of magnitude below [2^52]: sums, differences and products
    of such integers that stay below it are computed exactly by the
    arithmetic of Numbers. *)
Definition small (z : Z) : Prop := (Z.abs z < 2 ^ 52)%Z.




(** A burst of mouse moves, each with the DOM of its moment. *)
Definition mouse_moves (moves : list (option Measurement * PointerEvent))
  : list (option Measurement * event) :=
  map (fun m => (fst m, MouseMove (snd m))) moves.

(** ** Reading a setting *)

(** The number a run of decimal digits denotes after the digits worth
    [acc]. *)
Fixpoint decimal_value (d : Decimal.uint) (acc : Z) : Z :=
  match d with
  | Decimal.Nil => acc
  | Decimal.D0 l => decimal_value l (10 * acc + 0)
  | Decimal.D1 l => decimal_value l (10 * acc + 1)
  | Decimal.D2 l => decimal_value l (10 * acc + 2)
  | Decimal.D3 l => decimal_value l (10 * acc + 3)
  | Decimal.D4 l => decimal_value l (10 * acc + 4)
  | Decimal.D5 l => decimal_value l (10 * acc + 5)
  | Decimal.D6 l => decimal_value l (10 * acc + 6)
  | Decimal.D7 l => decimal_value l (10 * acc + 7)
  | Decimal.D8 l => decimal_value l (10 * acc + 8)
  | Decimal.D9 l => decimal_value l (10 * acc + 9)
  end.

(** White space only. *)
Fixpoint blank (s : string) : bool :=
  match s with
  | String c rest => App.is_space c && blank rest
  | EmptyString => true
  end.

(** Empty, or beginning with a character that is no digit. *)
Definition ends_number (s : string) : bool :=
  match s with
  | String c _ =>
      match App.digit_of c with Some _ => false | None => true end
  | EmptyString => true
  end.

(** ** Painting the imported image *)

Section Painting.

Variable rgbToHex : Z -> Z -> Z -> string.

(** The colour of a cluster: its centre in hexadecimal. *)
Definition cluster_colour (cluster : App.Cluster) : string :=
  rgbToHex (App.center_r (App.center cluster))
    (App.center_g (App.center cluster)) (App.center_b (App.center cluster)).

(** A cluster holds a pixel of index [i]. *)
Definition holds_index (i : N) (cluster : App.Cluster) : bool :=
  existsb (fun p => N.eqb (App.index p) i) (App.pixels cluster).

(** The colour of the pixel of index [i] once the clusters are painted
    over a pixel that held [before]: the colour of the last cluster, in the
    order of the quantizer's answer, that holds a pixel of that index. *)
Definition repainted (clusters : list App.Cluster) (i : N)
    (before : option string) : option string :=
  fold_left
    (fun acc cluster =>
       if holds_index i cluster then Some (cluster_colour cluster) else acc)
    clusters before.

End Painting.

(** ** Editing the edges of the grid *)

(** A grid of [h] rows of [w] cells. *)
Definition rectangular (w h : nat) (grid : App.Grid) : Prop :=
  List.length grid = h /\ Forall (fun row => List.length row = w) grid.

(** The colour of the cell in row [j] and column [i]; [None] for an empty
    cell and off the grid. *)
Definition cell (grid : App.Grid) (j i : nat) : option string :=
  match nth_error grid j with
  | Some row => match nth_error row i with Some c => c | None => None end
  | None => None
  end.

(** A natural number as a JavaScript number. *)
Definition of_nat (n : nat) : JS.number := JS.of_Z (Z.of_nat n).

(** The artwork whose dimensions are those of its grid. *)
Definition artwork (w h : nat) (grid : App.Grid) (action : option string)
  : App.Artwork :=
  {| App.art_dimensions :=
       {| App.dim_width := of_nat w; App.dim_height := of_nat h |};
     App.art_grid := grid;
     App.art_lastActionType := action |}.

Definition changed (w h : nat) (grid : App.Grid)
  : run (option App.Artwork) :=
  Done (Some (artwork w h grid (Some "grid_change"))).

(** The eight operations by name, and a sequence of them: each one runs on
    the artwork the one before has left; an exception or a loop that does
    not end stops the sequence. *)
Inductive edge_op : Type :=
| AddRowTop | AddRowBottom | RemoveRowTop | RemoveRowBottom
| AddColLeft | AddColRight | RemoveColLeft | RemoveColRight.

Definition apply_op (op : edge_op) : App.Artwork -> run (option App.Artwork) :=
  match op with
  | AddRowTop => App.addRowTop
  | AddRowBottom => App.addRowBottom
  | RemoveRowTop => App.removeRowTop
  | RemoveRowBottom => App.removeRowBottom
  | AddColLeft => App.addColLeft
  | AddColRight => App.addColRight
  | RemoveColLeft => App.removeColLeft
  | RemoveColRight => App.removeColRight
  end.

Fixpoint apply_ops (ops : list edge_op) (st : App.Artwork)
  : run (option App.Artwork) :=
  match ops with
  | [] => Done (Some st)
  | op :: rest =>
      match apply_op op st with
      | Done (Some st') => apply_ops rest st'
      | other => other
      end
  end.

(** ** Copy and cut *)

(** The cell at integer coordinates, empty off the grid. *)
Definition cell_at (grid : App.Grid) (y x : Z) : option string :=
  if ((0 <=? y) && (0 <=? x))%Z then cell grid (Z.to_nat y) (Z.to_nat x)
  else None.

(** The block of [height] rows and [width] columns whose corner is at
    column [x1] of row [y1]; what lies off the grid is empty. *)
Definition block (grid : App.Grid) (x1 y1 width height : Z) : App.Grid :=
  map (fun y => map (fun x => cell_at grid (y1 + y) (x1 + x))
                  (Z_range 0 (width - 1)))
      (Z_range 0 (height - 1)).

(** The selection from [(x1, y1)] to [(x2, y2)], both included. *)
Definition selected (x1 y1 x2 y2 : Z) (j i : nat) : bool :=
  ((y1 <=? Z.of_nat j) && (Z.of_nat j <=? y2)
   && (x1 <=? Z.of_nat i) && (Z.of_nat i <=? x2))%Z.

Definition has_colour (c : option string) : bool :=
  match c with Some _ => true | None => false end.

(** Some cell of the selection holds a colour. *)
Definition selection_coloured (grid : App.Grid) (x1 y1 x2 y2 : Z) : bool :=
  existsb (fun y => existsb (fun x => has_colour (cell_at grid y x))
                      (Z_range x1 x2))
    (Z_range y1 y2).

(** The selection as the handler finds it. *)
Definition area (x1 y1 x2 y2 : Z) : App.SelectionArea :=
  {| App.sel_x1 := JS.of_Z x1; App.sel_y1 := JS.of_Z y1;
     App.sel_x2 := JS.of_Z x2; App.sel_y2 := JS.of_Z y2 |}.

(** The element that has the focus is one the handler ignores. *)
Definition typing (event : App.KeyboardEvent) : bool :=
  String.eqb (App.targetTagName event) "INPUT"
  || String.eqb (App.targetTagName event) "TEXTAREA"
  || String.eqb (App.targetTagName event) "SELECT".

(** What the colour swap of the key [x] does. *)
Definition swap_effects (colorHistory : list string)
  : list App.shortcutEffect :=
  match colorHistory with
  | _ :: swapTargetColor :: _ =>
      [ App.SelectColor swapTargetColor;
        App.ConsoleLog ("Swapped active color to: " ++ swapTargetColor) ]
  | _ => []
  end.

End Spec.

(* ================================================================== *)
(** * Properties *)
(* ================================================================== *)

(** ** Arithmetic of [JS.number] on finite values *)

Module NumberFacts.

Lemma Fin_inj (a b : Qc) : JS.Fin a = JS.Fin b -> a = b.
Proof. congruence. Qed.

Lemma this_Q2Qc (q : Q) : (this (Q2Qc q) == q)%Q.
Proof. simpl. apply Qred_correct. Qed.

Lemma Q2Qc_this (q : Qc) : Q2Qc (this q) = q.
Proof. apply Qc_is_canon. apply this_Q2Qc. Qed.

(** Unfolds the canonical operations down to [Q], where [lra] works. *)
Ltac to_Q :=
  unfold Qcle, Qclt, Qcminus, Qcdiv, Qcplus, Qcmult, Qcopp, Qcinv in *;
  repeat rewrite this_Q2Qc in *.

Lemma is_zero_true (q : Qc) : JS.is_zero q = true <-> q = Q2Qc 0.
Proof.
  unfold JS.is_zero. split.
  - apply Qc_eq_bool_correct.
  - intros ->. unfold Qc_eq_bool. destruct (Qc_eq_dec _ _); congruence.
Qed.

Lemma is_zero_false (q : Qc) : JS.is_zero q = false <-> q <> Q2Qc 0.
Proof.
  rewrite <- is_zero_true. destruct (JS.is_zero q); split; congruence.
Qed.

Lemma Qc_eq_bool_refl (q : Qc) : Qc_eq_bool q q = true.
Proof. unfold Qc_eq_bool. destruct (Qc_eq_dec q q); congruence. Qed.

Lemma Qc_eq_bool_true (x y : Qc) : Qc_eq_bool x y = true <-> x = y.
Proof.
  split; [apply Qc_eq_bool_correct | intros ->; apply Qc_eq_bool_refl].
Qed.

Lemma of_Z_inj (a b : Z) : JS.of_Z a = JS.of_Z b -> a = b.
Proof.
  unfold JS.of_Z. intros H.
  assert (E : Q2Qc (inject_Z a) = Q2Qc (inject_Z b)) by congruence.
  apply Q2Qc_eq_iff in E. unfold Qeq in E. simpl in E. lia.
Qed.

Lemma add_of_Z (a b : Z) : JS.add (JS.of_Z a) (JS.of_Z b) = JS.of_Z (a + b).
Proof.
  unfold JS.of_Z. simpl. f_equal. apply Qc_is_canon. to_Q.
  rewrite inject_Z_plus. reflexivity.
Qed.

Lemma sub_of_Z (a b : Z) : JS.sub (JS.of_Z a) (JS.of_Z b) = JS.of_Z (a - b).
Proof.
  unfold JS.of_Z, JS.sub. simpl. f_equal. apply Qc_is_canon. to_Q.
  unfold Z.sub. rewrite inject_Z_plus, inject_Z_opp. reflexivity.
Qed.

Lemma compare_of_Z (a b : Z) :
  (Q2Qc (inject_Z a) ?= Q2Qc (inject_Z b))%Qc = (a ?= b)%Z.
Proof.
  unfold Qccompare. rewrite !this_Q2Qc.
  unfold Qcompare. simpl. rewrite !Z.mul_1_r. reflexivity.
Qed.

Lemma lt_of_Z (a b : Z) : JS.lt (JS.of_Z a) (JS.of_Z b) = (a <? b)%Z.
Proof.
  unfold JS.of_Z, JS.lt. rewrite compare_of_Z. unfold Z.ltb. reflexivity.
Qed.

Lemma le_of_Z (a b : Z) : JS.le (JS.of_Z a) (JS.of_Z b) = (a <=? b)%Z.
Proof.
  unfold JS.of_Z, JS.le. rewrite compare_of_Z. unfold Z.leb.
  destruct (a ?= b)%Z; reflexivity.
Qed.

Lemma max_of_Z (a b : Z) :
  JS.Math.max (JS.of_Z a) (JS.of_Z b) = JS.of_Z (Z.max a b).
Proof.
  unfold JS.Math.max. rewrite lt_of_Z. unfold JS.of_Z at 1 2.
  destruct (Z.ltb_spec a b); f_equal; lia.
Qed.

Lemma min_of_Z (a b : Z) :
  JS.Math.min (JS.of_Z a) (JS.of_Z b) = JS.of_Z (Z.min a b).
Proof.
  unfold JS.Math.min. rewrite lt_of_Z. unfold JS.of_Z at 1 2.
  destruct (Z.ltb_spec b a); f_equal; lia.
Qed.

Lemma div_Fin (x y : Qc) :
  y <> Q2Qc 0 -> JS.div (JS.Fin x) (JS.Fin y) = JS.Fin (x / y)%Qc.
Proof. intros H. simpl. apply is_zero_false in H. rewrite H. reflexivity. Qed.




End NumberFacts.

(** ** The visible range (ViewportCuller) *)

Module ViewportProps.

Import SVGRenderer NumberFacts.

Section FiniteViewport.

Variables (vleft vtop vwidth vheight vscale : Qc).
Variables (pixelSize gridGap : Qc).
Variables (gridWidth gridHeight : Z).

Let cellSize : Qc := (pixelSize + gridGap)%Qc.

Let viewport : ViewportState :=
  {| left := JS.Fin vleft; top := JS.Fin vtop; width := JS.Fin vwidth;
     height := JS.Fin vheight; scale := JS.Fin vscale |}.

Let visible : VisibleArea :=
  visibleArea (JS.of_Z gridWidth) (JS.of_Z gridHeight) (JS.Fin pixelSize)
    (JS.Fin gridGap) viewport.

(** On finite numbers and a non-zero cell size the memo is integer valued:
    the start index is bounded below by 0 and the end index above by the
    grid size. *)
Lemma visibleArea_finite :
  cellSize <> Q2Qc 0 ->
  visible =
  {| startX := JS.of_Z (Z.max 0 (Spec.rawStart vleft cellSize - 5));
     endX := JS.of_Z (Z.min gridWidth (Spec.rawEnd vleft vwidth cellSize + 5));
     startY := JS.of_Z (Z.max 0 (Spec.rawStart vtop cellSize - 5));
     endY := JS.of_Z (Z.min gridHeight (Spec.rawEnd vtop vheight cellSize + 5))
  |}.
Proof.
  intros Hc. unfold visible, visibleArea, viewport.
  cbn [left top width height scale].
  change (JS.add (JS.Fin pixelSize) (JS.Fin gridGap)) with (JS.Fin cellSize).
  change (JS.add (JS.Fin vleft) (JS.Fin vwidth))
    with (JS.Fin (vleft + vwidth)%Qc).
  change (JS.add (JS.Fin vtop) (JS.Fin vheight))
    with (JS.Fin (vtop + vheight)%Qc).
  rewrite !(fun x => div_Fin x _ Hc).
  cbn [JS.Math.floor JS.Math.ceil]. unfold n5, n0.
  rewrite !sub_of_Z, !add_of_Z, !max_of_Z, !min_of_Z.
  reflexivity.
Qed.






End FiniteViewport.



End ViewportProps.

(** ** Pointer position to grid cell *)

Module CoordinateProps.

Import SVGRenderer NumberFacts.

Lemma Qcinv_nonzero (q : Qc) : q <> Q2Qc 0 -> (/ q)%Qc <> Q2Qc 0.
Proof.
  intros Hq H. pose proof (Qcmult_inv_r q Hq) as E.
  rewrite H, Qcmult_0_r in E. symmetry in E. exact (Q_apart_0_1 E).
Qed.

Lemma Qcdiv_nonzero (p q : Qc) :
  p <> Q2Qc 0 -> q <> Q2Qc 0 -> (p / q)%Qc <> Q2Qc 0.
Proof.
  intros Hp Hq H. unfold Qcdiv in H.
  destruct (Qcmult_integral _ _ H) as [E | E]; [exact (Hp E) |].
  exact (Qcinv_nonzero _ Hq E).
Qed.

Lemma Qcmult_nonzero (p q : Qc) :
  p <> Q2Qc 0 -> q <> Q2Qc 0 -> (p * q)%Qc <> Q2Qc 0.
Proof.
  intros Hp Hq H. destruct (Qcmult_integral _ _ H); contradiction.
Qed.

Lemma of_Z_nonzero (z : Z) : z <> 0%Z -> Q2Qc (inject_Z z) <> Q2Qc 0.
Proof.
  intros Hz H. apply Q2Qc_eq_iff in H. unfold Qeq in H. simpl in H. lia.
Qed.

(** The exact value of one axis: the quotient of the two divisions is
    [(client - origin) * count / extent], whatever the cell size. *)
Lemma axis_value (client origin extent cellSize : Qc) (count : Z) :
  cellSize <> Q2Qc 0 -> extent <> Q2Qc 0 -> (1 <= count)%Z ->
  JS.Math.max n0
    (JS.Math.min
       (JS.Math.floor
          (JS.div
             (JS.div (JS.sub (JS.Fin client) (JS.Fin origin))
                (JS.div (JS.Fin extent)
                   (JS.mul (JS.of_Z count) (JS.Fin cellSize))))
             (JS.Fin cellSize)))
       (JS.sub (JS.of_Z count) n1))
  = JS.of_Z
      (Z.max 0
         (Z.min
            (Qfloor ((client - origin) * Q2Qc (inject_Z count) / extent)%Qc)
            (count - 1))).
Proof.
  intros Hc He Hn.
  assert (Hz : Q2Qc (inject_Z count) <> Q2Qc 0) by (apply of_Z_nonzero; lia).
  assert (Ht : (Q2Qc (inject_Z count) * cellSize)%Qc <> Q2Qc 0).
  { apply Qcmult_nonzero; assumption. }
  change (JS.mul (JS.of_Z count) (JS.Fin cellSize))
    with (JS.Fin (Q2Qc (inject_Z count) * cellSize)%Qc).
  rewrite (div_Fin _ _ Ht).
  change (JS.sub (JS.Fin client) (JS.Fin origin))
    with (JS.Fin (client - origin)%Qc).
  rewrite (div_Fin _ _ (Qcdiv_nonzero _ _ He Ht)).
  rewrite (div_Fin _ _ Hc).
  cbn [JS.Math.floor]. unfold n1, n0.
  rewrite sub_of_Z, min_of_Z, max_of_Z.
  assert (E : ((client - origin) / (extent / (Q2Qc (inject_Z count) * cellSize))
               / cellSize)%Qc
              = ((client - origin) * Q2Qc (inject_Z count) / extent)%Qc).
  { field. repeat split; assumption. }
  rewrite E. reflexivity.
Qed.

Lemma Qfloor_nonpos (q : Qc) : (q <= Q2Qc 0)%Qc -> (Qfloor q <= 0)%Z.
Proof.
  intros H. to_Q. apply Qfloor_resp_le in H.
  change (Qfloor 0) with 0%Z in H. exact H.
Qed.

Lemma Qfloor_at_least (q : Qc) (n : Z) :
  (Q2Qc (inject_Z n) <= q)%Qc -> (n <= Qfloor q)%Z.
Proof.
  intros H. to_Q. apply Qfloor_resp_le in H. rewrite Qfloor_Z in H. exact H.
Qed.

Lemma count_Q (count : Z) : (1 <= count)%Z -> (1 <= inject_Z count)%Q.
Proof. intros H. change 1%Q with (inject_Z 1). rewrite <- Zle_Qle. exact H. Qed.

Lemma this_quotient (client origin extent : Qc) (count : Z) :
  (this ((client - origin) * Q2Qc (inject_Z count) / extent)%Qc
   == (this client - this origin) * inject_Z count / this extent)%Q.
Proof.
  unfold Qcminus, Qcdiv, Qcplus, Qcmult, Qcopp, Qcinv.
  rewrite !this_Q2Qc. reflexivity.
Qed.

(** The quotient along one axis, against the edges of the element and
    against another pointer position. *)
Lemma axis_near (origin extent client : Qc) (count : Z) :
  (Q2Qc 0 < extent)%Qc -> (1 <= count)%Z -> (client <= origin)%Qc ->
  (Qfloor ((client - origin) * Q2Qc (inject_Z count) / extent)%Qc <= 0)%Z.
Proof.
  intros He Hc H. apply Qfloor_nonpos. pose proof (count_Q count Hc) as Hn.
  unfold Qcle, Qclt in *. rewrite this_Q2Qc in He |- *.
  rewrite this_quotient.
  apply Qle_shift_div_r; [exact He |]. rewrite Qmult_0_l. nra.
Qed.

Lemma axis_far (origin extent client : Qc) (count : Z) :
  (Q2Qc 0 < extent)%Qc -> (1 <= count)%Z -> (origin + extent <= client)%Qc ->
  (count
   <= Qfloor ((client - origin) * Q2Qc (inject_Z count) / extent)%Qc)%Z.
Proof.
  intros He Hc H. apply Qfloor_at_least. pose proof (count_Q count Hc) as Hn.
  unfold Qcle, Qclt, Qcplus in *. rewrite this_Q2Qc in He, H.
  rewrite this_quotient, this_Q2Qc.
  apply Qle_shift_div_l; [exact He |]. nra.
Qed.

Lemma axis_monotone (origin extent client client' : Qc) (count : Z) :
  (Q2Qc 0 < extent)%Qc -> (1 <= count)%Z -> (client <= client')%Qc ->
  (Qfloor ((client - origin) * Q2Qc (inject_Z count) / extent)%Qc
   <= Qfloor ((client' - origin) * Q2Qc (inject_Z count) / extent)%Qc)%Z.
Proof.
  intros He Hc H. apply Qfloor_resp_le. pose proof (count_Q count Hc) as Hn.
  unfold Qcle, Qclt in *. rewrite this_Q2Qc in He. rewrite !this_quotient.
  apply Qle_shift_div_l; [exact He |].
  assert (E : (((this client - this origin) * inject_Z count
                / this extent) * this extent
               == (this client - this origin) * inject_Z count)%Q).
  { field. intros E0. rewrite E0 in He. exact (Qlt_irrefl _ He). }
  rewrite E. nra.
Qed.

(** [Math.max(0, m)] is never -1. *)
Lemma max_0_not_minus1 (m : JS.number) : JS.Math.max n0 m <> minus1.
Proof.
  unfold minus1, n0. destruct m as [q | | |]; try discriminate.
  - unfold JS.Math.max, JS.lt, JS.of_Z at 1 2.
    destruct (Qccompare (Q2Qc (inject_Z 0)) q) eqn:E.
    + intros H. apply of_Z_inj in H. discriminate.
    + intros H. apply (@Fin_inj q (Q2Qc (inject_Z (-1)))) in H.
      rewrite H in E. vm_compute in E. discriminate.
    + intros H. apply of_Z_inj in H. discriminate.
Qed.

(** C10, as amended.  With a grid of at least one cell each way: when the
    SVG element exists, the cell size is not zero and the bounding rectangle
    of the element has a width and a height that are not zero, the
    coordinates returned are integers clamped into
    [0, gridWidth - 1] x [0, gridHeight - 1].  The width of the rectangle
    being positive, a pointer at the left edge of the element or left of it
    gets column 0, a pointer at its right edge or right of it the last
    column, and the column does not decrease when the pointer moves to the
    right; likewise for the rows, from the top to the bottom.  And whatever
    the numbers are, -1 is returned as [gridX] (or as [gridY]) only when
    the SVG element reference is null, in which case both are -1. *)
Theorem getGridCoordinates_clamped
    (pixelSize gridGap rleft rtop rwidth rheight cx cy : Qc)
    (btn : JS.number) (gridWidth gridHeight : Z) :
  let cell (x y : Qc) :=
    getGridCoordinates (JS.of_Z gridWidth) (JS.of_Z gridHeight)
      (JS.Fin pixelSize) (JS.Fin gridGap)
      (Some {| rect_left := JS.Fin rleft; rect_top := JS.Fin rtop;
               rect_width := JS.Fin rwidth; rect_height := JS.Fin rheight |})
      {| clientX := JS.Fin x; clientY := JS.Fin y; buttons := btn |} in
  (pixelSize + gridGap)%Qc <> Q2Qc 0 ->
  rwidth <> Q2Qc 0 -> rheight <> Q2Qc 0 ->
  (1 <= gridWidth)%Z -> (1 <= gridHeight)%Z ->
  (exists gx gy : Z,
      cell cx cy
      = {| gridX := JS.of_Z gx; gridY := JS.of_Z gy; coord_buttons := btn |}
      /\ (0 <= gx <= gridWidth - 1)%Z /\ (0 <= gy <= gridHeight - 1)%Z
      /\ ((Q2Qc 0 < rwidth)%Qc ->
          ((cx <= rleft)%Qc -> gx = 0%Z)
          /\ ((rleft + rwidth <= cx)%Qc -> gx = (gridWidth - 1)%Z))
      /\ ((Q2Qc 0 < rheight)%Qc ->
          ((cy <= rtop)%Qc -> gy = 0%Z)
          /\ ((rtop + rheight <= cy)%Qc -> gy = (gridHeight - 1)%Z))
      /\ (forall cx' cy' : Qc,
            (Q2Qc 0 < rwidth)%Qc -> (Q2Qc 0 < rheight)%Qc ->
            (cx <= cx')%Qc -> (cy <= cy')%Qc ->
            exists gx' gy' : Z,
              cell cx' cy'
              = {| gridX := JS.of_Z gx'; gridY := JS.of_Z gy';
                   coord_buttons := btn |}
              /\ (gx <= gx')%Z /\ (gy <= gy')%Z))
  /\ (forall (gw gh ps gap : JS.number) (svgRef : option DOMRect)
        (e : PointerEvent),
        (gridX (getGridCoordinates gw gh ps gap svgRef e) = minus1
         \/ gridY (getGridCoordinates gw gh ps gap svgRef e) = minus1) ->
        svgRef = None)
  /\ (forall (gw gh ps gap : JS.number) (e : PointerEvent),
        gridX (getGridCoordinates gw gh ps gap None e) = minus1
        /\ gridY (getGridCoordinates gw gh ps gap None e) = minus1).
Proof.
  intros cell Hc Hw Hh Hgw Hgh.
  assert (V : forall x y : Qc,
             cell x y
             = {| gridX :=
                    JS.of_Z
                      (Z.max 0
                         (Z.min
                            (Qfloor ((x - rleft) * Q2Qc (inject_Z gridWidth)
                                     / rwidth)%Qc) (gridWidth - 1)));
                  gridY :=
                    JS.of_Z
                      (Z.max 0
                         (Z.min
                            (Qfloor ((y - rtop) * Q2Qc (inject_Z gridHeight)
                                     / rheight)%Qc) (gridHeight - 1)));
                  coord_buttons := btn |}).
  { intros x y. unfold cell, getGridCoordinates, totalWidth, totalHeight.
    cbn [rect_left rect_top rect_width rect_height clientX clientY buttons].
    change (JS.add (JS.Fin pixelSize) (JS.Fin gridGap))
      with (JS.Fin (pixelSize + gridGap)%Qc).
    rewrite (axis_value x rleft rwidth _ gridWidth Hc Hw Hgw).
    rewrite (axis_value y rtop rheight _ gridHeight Hc Hh Hgh).
    reflexivity. }
  split; [| split].
  - eexists. eexists. split; [apply V |].
    split; [lia |]. split; [lia |]. split; [| split].
    + intros Hp. split; intros H.
      * pose proof (axis_near rleft rwidth cx gridWidth Hp Hgw H). lia.
      * pose proof (axis_far rleft rwidth cx gridWidth Hp Hgw H). lia.
    + intros Hp. split; intros H.
      * pose proof (axis_near rtop rheight cy gridHeight Hp Hgh H). lia.
      * pose proof (axis_far rtop rheight cy gridHeight Hp Hgh H). lia.
    + intros cx' cy' Hpw Hph Hx Hy. eexists. eexists.
      split; [apply V |].
      pose proof (axis_monotone rleft rwidth cx cx' gridWidth Hpw Hgw Hx).
      pose proof (axis_monotone rtop rheight cy cy' gridHeight Hph Hgh Hy).
      lia.
  - intros gw gh ps gap [rect |] e H; [exfalso | reflexivity].
    destruct H as [H | H]; cbn [getGridCoordinates gridX gridY] in H;
      exact (max_0_not_minus1 _ H).
  - intros. split; reflexivity.
Qed.

(** The theorem on a 4 x 4 grid of 10-unit cells shown at twice its size,
    the pointer right of the element and above it. *)
Lemma getGridCoordinates_clamped_witness :
  (Q2Qc 8 + Q2Qc 2)%Qc <> Q2Qc 0 /\ Q2Qc 80 <> Q2Qc 0 /\ (1 <= 4)%Z
  /\ (Q2Qc 0 < Q2Qc 80)%Qc
  /\ (Q2Qc 0 + Q2Qc 80 <= Q2Qc 100)%Qc /\ (Q2Qc (-5) <= Q2Qc 0)%Qc
  /\ getGridCoordinates (JS.of_Z 4) (JS.of_Z 4) (JS.Fin (Q2Qc 8))
       (JS.Fin (Q2Qc 2))
       (Some {| rect_left := JS.Fin (Q2Qc 0); rect_top := JS.Fin (Q2Qc 0);
                rect_width := JS.Fin (Q2Qc 80);
                rect_height := JS.Fin (Q2Qc 80) |})
       {| clientX := JS.Fin (Q2Qc 100); clientY := JS.Fin (Q2Qc (-5));
          buttons := n1 |}
     = {| gridX := JS.of_Z 3; gridY := JS.of_Z 0; coord_buttons := n1 |}.
Proof.
  assert (H10 : (Q2Qc 8 + Q2Qc 2)%Qc <> Q2Qc 0).
  { intros H. apply (f_equal this) in H. vm_compute in H. discriminate. }
  assert (H80 : Q2Qc 80 <> Q2Qc 0).
  { intros H. apply (f_equal this) in H. vm_compute in H. discriminate. }
  assert (H4 : (1 <= 4)%Z) by lia.
  assert (Hp : (Q2Qc 0 < Q2Qc 80)%Qc) by reflexivity.
  assert (Hx : (Q2Qc 0 + Q2Qc 80 <= Q2Qc 100)%Qc) by (vm_compute; discriminate).
  assert (Hy : (Q2Qc (-5) <= Q2Qc 0)%Qc) by (vm_compute; discriminate).
  repeat (split; [assumption |]).
  destruct (proj1 (@getGridCoordinates_clamped (Q2Qc 8) (Q2Qc 2) (Q2Qc 0)
                     (Q2Qc 0) (Q2Qc 80) (Q2Qc 80) (Q2Qc 100) (Q2Qc (-5)) n1
                     4 4 H10 H80 H80 H4 H4))
    as (gx & gy & E & _ & _ & Ex & Ey & _).
  rewrite E, (proj2 (Ex Hp) Hx), (proj1 (Ey Hp) Hy). reflexivity.
Defined.

(** C10 as stated fails.  On a 4 x 4 grid of 10-unit cells, an element
    whose bounding rectangle is empty and a pointer at its corner give
    [NaN] for both coordinates; so does a cell size of zero whatever the
    rectangle.  [NaN] is not an index in [0, 3]. *)
Lemma getGridCoordinates_NaN :
  getGridCoordinates (JS.of_Z 4) (JS.of_Z 4) (JS.Fin (Q2Qc 8))
    (JS.Fin (Q2Qc 2))
    (Some {| rect_left := JS.Fin (Q2Qc 0); rect_top := JS.Fin (Q2Qc 0);
             rect_width := JS.Fin (Q2Qc 0); rect_height := JS.Fin (Q2Qc 0) |})
    {| clientX := JS.Fin (Q2Qc 0); clientY := JS.Fin (Q2Qc 0); buttons := n0 |}
  = {| gridX := JS.NaN; gridY := JS.NaN; coord_buttons := n0 |}
  /\ getGridCoordinates (JS.of_Z 4) (JS.of_Z 4) (JS.Fin (Q2Qc 0))
       (JS.Fin (Q2Qc 0))
       (Some {| rect_left := JS.Fin (Q2Qc 0); rect_top := JS.Fin (Q2Qc 0);
                rect_width := JS.Fin (Q2Qc 80);
                rect_height := JS.Fin (Q2Qc 80) |})
       {| clientX := JS.Fin (Q2Qc 25); clientY := JS.Fin (Q2Qc 70);
          buttons := n0 |}
     = {| gridX := JS.NaN; gridY := JS.NaN; coord_buttons := n0 |}
  /\ ~ (exists gx : Z, JS.NaN = JS.of_Z gx /\ (0 <= gx <= 4 - 1)%Z).
Proof.
  split; [vm_compute; reflexivity | split; [vm_compute; reflexivity |]].
  intros (gx & H & _). discriminate.
Qed.

End CoordinateProps.

(** ** The shape-path cache *)

Module CacheProps.

Import SVGRenderer NumberFacts.

Lemma key_eqb_eq (a b : CacheKey) : key_eqb a b = true <-> a = b.
Proof. apply String.eqb_eq. Qed.

Lemma key_eqb_refl (k : CacheKey) : key_eqb k k = true.
Proof. apply key_eqb_eq. reflexivity. Qed.

Lemma cache_get_In (c : Cache) (k : CacheKey) (v : string) :
  cache_get c k = Some v -> In (k, v) c.
Proof.
  induction c as [| [k' v'] rest IH]; simpl; [discriminate |].
  destruct (key_eqb k' k) eqn:E.
  - apply key_eqb_eq in E. intros H. left. congruence.
  - intros H. right. exact (IH H).
Qed.

Lemma cache_set_new (c : Cache) (k : CacheKey) (v : string) :
  cache_get c k = None -> cache_set c k v = (c ++ [(k, v)])%list.
Proof.
  induction c as [| [k' v'] rest IH]; simpl; [reflexivity |].
  destruct (key_eqb k' k); [discriminate |].
  intros H. rewrite (IH H). reflexivity.
Qed.

Lemma cache_delete_head (k : CacheKey) (v : string) (c : Cache) :
  cache_delete ((k, v) :: c) k = c.
Proof. simpl. rewrite key_eqb_refl. reflexivity. Qed.

Lemma cache_get_None (c : Cache) (k : CacheKey) :
  cache_get c k = None <-> ~ In k (map fst c).
Proof.
  induction c as [| [k' v'] rest IH]; cbn [cache_get map fst In].
  - tauto.
  - destruct (key_eqb k' k) eqn:E.
    + apply key_eqb_eq in E. split; [discriminate | tauto].
    + assert (k' <> k).
      { intros H. apply key_eqb_eq in H. congruence. }
      tauto.
Qed.

Lemma cache_get_app (c1 c2 : Cache) (k : CacheKey) :
  cache_get (c1 ++ c2)%list k
  = match cache_get c1 k with
    | Some v => Some v
    | None => cache_get c2 k
    end.
Proof.
  induction c1 as [| [k' v'] rest IH]; cbn [cache_get app]; [reflexivity |].
  destruct (key_eqb k' k); [reflexivity | exact IH].
Qed.

Lemma cache_get_tl (c : Cache) (k : CacheKey) :
  cache_get c k = None -> cache_get (tl c) k = None.
Proof.
  destruct c as [| [k' v'] rest]; cbn [cache_get tl]; [auto |].
  destruct (key_eqb k' k); [discriminate | auto].
Qed.

Lemma In_tl {A : Type} (a : A) (l : list A) : In a (tl l) -> In a l.
Proof. destruct l; [auto | intros H; right; exact H]. Qed.

Lemma NoDup_tl {A : Type} (l : list A) : NoDup l -> NoDup (tl l).
Proof. intros H. destruct l; [exact H | inversion H; assumption]. Qed.

Lemma map_fst_tl {A B : Type} (l : list (A * B)) :
  map fst (tl l) = tl (map fst l).
Proof. destruct l; reflexivity. Qed.

Lemma NoDup_snoc {A : Type} (l : list A) (a : A) :
  NoDup l -> ~ In a l -> NoDup (l ++ [a])%list.
Proof.
  intros Hl Ha. induction Hl as [| b l Hb Hl IH]; cbn [app].
  - constructor; [intros [] | constructor].
  - constructor.
    + rewrite in_app_iff. cbn [In]. intros [H | [H | []]];
        [exact (Hb H) | subst; apply Ha; left; reflexivity].
    + apply IH. intros H. apply Ha. right. exact H.
Qed.

Lemma limit_positive : (0 < CACHE_LIMIT)%nat.
Proof. unfold CACHE_LIMIT. lia. Qed.

Section WithMath.

Variable toStr : JS.number -> string.
Variable Math_cos Math_sin : JS.number -> JS.number.
Variable Math_PI : JS.number.

Local Notation call := (Spec.call toStr Math_cos Math_sin Math_PI).
Local Notation run_calls := (Spec.run_calls toStr Math_cos Math_sin Math_PI).
Local Notation insertions := (Spec.insertions toStr Math_cos Math_sin Math_PI).
Local Notation key_of := (Spec.key_of toStr).
Local Notation path_of := (Spec.path_of toStr Math_cos Math_sin Math_PI).

(** A cached key is answered from the cache, which does not change. *)
Lemma call_hit (cache : Cache) (c : Spec.Call) (v : string) :
  cache_get cache (key_of c) = Some v -> call cache c = (v, cache).
Proof.
  intros H. unfold Spec.call, createShapePath.
  change (cacheKey toStr _ _ _ _ _ _) with (Spec.key_of toStr c).
  cbv zeta. rewrite H. reflexivity.
Qed.

(** A new key is computed and inserted last; the first binding goes when
    that makes the cache exceed the limit. *)
Lemma call_miss (cache : Cache) (c : Spec.Call) :
  cache_get cache (key_of c) = None ->
  call cache c =
  (path_of c,
   if (cache_size cache <? CACHE_LIMIT)%nat
   then (cache ++ [(key_of c, path_of c)])%list
   else tl (cache ++ [(key_of c, path_of c)])%list).
Proof.
  intros H. unfold Spec.call, createShapePath.
  change (cacheKey toStr _ _ _ _ _ _) with (key_of c).
  cbv zeta. rewrite H.
  change (shapePath toStr Math_cos Math_sin Math_PI _ _ _ _ _ _)
    with (path_of c).
  rewrite (cache_set_new _ _ _ H). f_equal.
  unfold cache_size. rewrite length_app. cbn [List.length].
  destruct (Nat.ltb_spec CACHE_LIMIT (List.length cache + 1));
    destruct (Nat.ltb_spec (List.length cache) CACHE_LIMIT); try lia.
  - destruct cache as [| [k v] rest]; [pose proof limit_positive;
      cbn [List.length] in *; lia |].
    cbn [app cache_first_key tl]. apply cache_delete_head.
  - reflexivity.
Qed.

Lemma tl_app_last {A : Type} (l : list A) (a : A) :
  l <> [] -> tl (l ++ [a])%list = (tl l ++ [a])%list.
Proof. destruct l; [congruence | reflexivity]. Qed.

Lemma tl_skipn {A : Type} (n : nat) (l : list A) :
  tl (skipn n l) = skipn (S n) l.
Proof.
  revert l. induction n as [| n IH]; intros [| a l]; try reflexivity.
  change (tl (skipn n l) = skipn (S n) l). apply IH.
Qed.

(** Inserting one key keeps the cache at the most recent insertions. *)
Lemma insert_most_recent (n : nat) (cache : Cache) (log : list CacheKey)
    (k : CacheKey) (v : string) :
  (0 < n)%nat ->
  map fst cache = Spec.most_recent n log ->
  map fst (if (List.length cache <? n)%nat then (cache ++ [(k, v)])%list
           else tl (cache ++ [(k, v)])%list)
  = Spec.most_recent n (log ++ [k]).
Proof.
  intros Hn H. unfold Spec.most_recent in *.
  assert (Hlen : List.length cache = (List.length log - (List.length log - n))%nat).
  { rewrite <- (length_map fst cache), H, length_skipn. reflexivity. }
  rewrite length_app. cbn [List.length].
  destruct (Nat.ltb_spec (List.length cache) n) as [Hlt | Hge].
  - replace (List.length log + 1 - n)%nat with 0%nat by lia.
    replace (List.length log - n)%nat with 0%nat in H by lia.
    cbn [skipn] in *. rewrite map_app, H. reflexivity.
  - rewrite tl_app_last by (destruct cache; [cbn in Hge; lia | discriminate]).
    rewrite map_app. cbn [map fst].
    rewrite skipn_app.
    replace (List.length log + 1 - n - List.length log)%nat with 0%nat by lia.
    cbn [skipn]. f_equal.
    replace (List.length log + 1 - n)%nat with (S (List.length log - n)) by lia.
    rewrite <- tl_skipn, <- H. destruct cache; reflexivity.
Qed.

Lemma run_calls_most_recent (calls : list Spec.Call) :
  forall (cache : Cache) (log : list CacheKey),
    map fst cache = Spec.most_recent CACHE_LIMIT log ->
    map fst (run_calls cache calls)
    = Spec.most_recent CACHE_LIMIT (log ++ insertions cache calls).
Proof.
  induction calls as [| c rest IH]; intros cache log H.
  - simpl. rewrite app_nil_r. exact H.
  - cbn [Spec.run_calls fold_left Spec.insertions].
    change (fold_left _ rest ?c0) with (run_calls c0 rest).
    destruct (cache_get cache (key_of c)) as [v |] eqn:E.
    + rewrite (call_hit _ _ _ E). cbn [snd]. apply IH. exact H.
    + rewrite (call_miss _ _ E). cbn [snd].
      set (cache' := if (cache_size cache <? CACHE_LIMIT)%nat then _ else _).
      replace (log ++ key_of c :: insertions cache' rest)%list
        with ((log ++ [key_of c]) ++ insertions cache' rest)%list
        by (rewrite <- app_assoc; reflexivity).
      apply IH. apply insert_most_recent; [exact limit_positive | exact H].
Qed.

Lemma most_recent_length {A : Type} (n : nat) (l : list A) :
  (List.length (Spec.most_recent n l) <= n)%nat.
Proof. unfold Spec.most_recent. rewrite length_skipn. lia. Qed.

Lemma run_calls_bounded (calls : list Spec.Call) :
  (cache_size (run_calls empty_cache calls) <= CACHE_LIMIT)%nat.
Proof.
  unfold cache_size.
  rewrite <- (length_map fst), (run_calls_most_recent calls empty_cache []).
  - apply most_recent_length.
  - reflexivity.
Qed.

(** After a call its key is in the cache, with the path the call gave. *)
Lemma call_then_cached (cache : Cache) (c : Spec.Call) :
  cache_get (snd (call cache c)) (key_of c) = Some (fst (call cache c)).
Proof.
  destruct (cache_get cache (key_of c)) as [v |] eqn:E.
  - rewrite (call_hit _ _ _ E). exact E.
  - rewrite (call_miss _ _ E). cbn [fst snd].
    destruct (cache_size cache <? CACHE_LIMIT)%nat eqn:L.
    + rewrite cache_get_app, E. cbn [cache_get].
      rewrite key_eqb_refl. reflexivity.
    + assert (Hne : cache <> []).
      { intros ->. cbn in L. discriminate. }
      rewrite (tl_app_last _ _ Hne), cache_get_app.
      rewrite (cache_get_tl _ _ E). cbn [cache_get].
      rewrite key_eqb_refl. reflexivity.
Qed.

Lemma call_NoDup (cache : Cache) (c : Spec.Call) :
  NoDup (map fst cache) -> NoDup (map fst (snd (call cache c))).
Proof.
  intros H. destruct (cache_get cache (key_of c)) as [v |] eqn:E.
  - rewrite (call_hit _ _ _ E). exact H.
  - rewrite (call_miss _ _ E). cbn [snd].
    assert (N : NoDup (map fst (cache ++ [(key_of c,
                                           path_of c)])%list)).
    { rewrite map_app. cbn [map fst]. apply NoDup_snoc; [exact H |].
      apply cache_get_None. exact E. }
    destruct (cache_size cache <? CACHE_LIMIT)%nat; [exact N |].
    rewrite map_fst_tl. apply NoDup_tl. exact N.
Qed.

Lemma run_calls_NoDup (calls : list Spec.Call) :
  forall cache : Cache,
    NoDup (map fst cache) -> NoDup (map fst (run_calls cache calls)).
Proof.
  induction calls as [| c rest IH]; intros cache H; [exact H |].
  cbn [Spec.run_calls fold_left]. apply IH. apply call_NoDup. exact H.
Qed.

Lemma run_calls_app (calls1 calls2 : list Spec.Call) (cache : Cache) :
  run_calls cache (calls1 ++ calls2)%list
  = run_calls (run_calls cache calls1) calls2.
Proof. unfold Spec.run_calls. apply fold_left_app. Qed.

(** The bindings after a call are those before it and at most the one of
    the call. *)
Lemma call_bindings (cache : Cache) (c : Spec.Call) (k : CacheKey)
    (v : string) :
  In (k, v) (snd (call cache c)) ->
  In (k, v) cache \/ (k = key_of c /\ v = path_of c).
Proof.
  destruct (cache_get cache (key_of c)) as [cached |] eqn:E.
  - rewrite (call_hit _ _ _ E). cbn [snd]. auto.
  - rewrite (call_miss _ _ E). cbn [snd]. intros H.
    assert (H' : In (k, v) (cache ++ [(key_of c, path_of c)])%list).
    { destruct (cache_size cache <? CACHE_LIMIT)%nat;
        [exact H | apply In_tl; exact H]. }
    apply in_app_or in H'. destruct H' as [H' | [H' | []]]; [auto |].
    right. injection H' as <- <-. split; reflexivity.
Qed.

(** A cache that answers the calls [cs] rightly gives each of them the
    path of its own arguments, and goes on answering them rightly after
    any call whose key none of them shares with another path. *)
Lemma call_answered (cache : Cache) (cs : list Spec.Call) (c : Spec.Call) :
  Spec.answers toStr Math_cos Math_sin Math_PI cache cs -> In c cs ->
  fst (call cache c) = path_of c.
Proof.
  intros H Hc. destruct (cache_get cache (key_of c)) as [cached |] eqn:E.
  - rewrite (call_hit _ _ _ E). cbn [fst].
    apply (H (key_of c) cached c); [apply cache_get_In; exact E | exact Hc |
      reflexivity].
  - rewrite (call_miss _ _ E). reflexivity.
Qed.

Lemma call_keeps_answers (cache : Cache) (cs : list Spec.Call)
    (h : Spec.Call) :
  Spec.answers toStr Math_cos Math_sin Math_PI cache cs ->
  (forall c, In c cs -> key_of h = key_of c -> path_of h = path_of c) ->
  Spec.answers toStr Math_cos Math_sin Math_PI (snd (call cache h)) cs.
Proof.
  intros H Hh k v c Hin Hc Hk.
  destruct (call_bindings _ _ _ _ Hin) as [Hold | [-> ->]].
  - exact (H k v c Hold Hc Hk).
  - apply Hh; [exact Hc | symmetry; exact Hk].
Qed.

Lemma run_calls_answers (cs : list Spec.Call) (history : list Spec.Call) :
  forall cache : Cache,
    Spec.answers toStr Math_cos Math_sin Math_PI cache cs ->
    (forall h c, In h history -> In c cs -> key_of h = key_of c ->
                 path_of h = path_of c) ->
    Spec.answers toStr Math_cos Math_sin Math_PI (run_calls cache history) cs.
Proof.
  induction history as [| h rest IH]; intros cache H Hh; [exact H |].
  cbn [Spec.run_calls fold_left]. apply IH.
  - apply call_keeps_answers; [exact H |].
    intros c Hc. apply Hh; [left; reflexivity | exact Hc].
  - intros h' c Hh'. apply Hh. right. exact Hh'.
Qed.

Lemma empty_answers (cs : list Spec.Call) :
  Spec.answers toStr Math_cos Math_sin Math_PI empty_cache cs.
Proof. intros k v c []. Qed.

(** After a history in which no call took the key of [c] with another
    path, the call [c] returns the path of its own arguments. *)
Lemma call_after_history (history : list Spec.Call) (c : Spec.Call) :
  Spec.agrees toStr Math_cos Math_sin Math_PI history c ->
  fst (call (run_calls empty_cache history) c) = path_of c.
Proof.
  intros H. apply (call_answered _ [c]); [| left; reflexivity].
  apply run_calls_answers; [apply empty_answers |].
  intros h c' Hh [<- | []]. apply H. exact Hh.
Qed.

(** A call that finds nothing under its key returns the path computed
    from its own arguments. *)
Lemma createShapePath_fresh (cache : Cache) (x y size : JS.number)
    (shape : string) (cr : option CornerRadius) (cs : option CustomShape) :
  cache_get cache (cacheKey toStr x y size shape cr cs) = None ->
  fst (createShapePath toStr Math_cos Math_sin Math_PI cache x y size shape
         cr cs)
  = shapePath toStr Math_cos Math_sin Math_PI x y size shape cr
      (customPath_of cs).
Proof.
  intros H.
  pose proof (call_miss cache
                {| Spec.call_x := x; Spec.call_y := y;
                   Spec.call_size := size; Spec.call_shape := shape;
                   Spec.call_cornerRadius := cr;
                   Spec.call_customShape := cs |} H) as E.
  unfold Spec.call in E. cbn [Spec.call_x Spec.call_y Spec.call_size
    Spec.call_shape Spec.call_cornerRadius Spec.call_customShape] in E.
  rewrite E. reflexivity.
Qed.

End WithMath.

End CacheProps.

(** ** Shape paths *)

Module PathProps.

Import SVGRenderer NumberFacts CacheProps.





Section WithMath.

Variable toStr : JS.number -> string.
Variable Math_cos Math_sin : JS.number -> JS.number.
Variable Math_PI : JS.number.

Local Notation shapePath := (shapePath toStr Math_cos Math_sin Math_PI).
Local Notation createShapePath :=
  (createShapePath toStr Math_cos Math_sin Math_PI).
Local Notation run_calls := (Spec.run_calls toStr Math_cos Math_sin Math_PI).


(** The custom shape with a path. *)
Lemma shapePath_custom (x y size : JS.number) (cr : option CornerRadius)
    (p : string) :
  p <> "" -> shapePath x y size "custom" cr p = p.
Proof.
  intros Hp. unfold SVGRenderer.shapePath.
  change (String.eqb "custom" "custom") with true.
  unfold JS.truthy_string.
  destruct (String.eqb_spec p ""); [contradiction | reflexivity].
Qed.

End WithMath.

(** C3.  From the empty cache, after any sequence of calls: the cache holds
    at most 1000 entries; its keys are the most recent 1000 insertions, in
    the order they were inserted; and the next call either finds its key and
    leaves the cache as it is, or inserts its key last, evicting nothing
    while fewer than 1000 entries were held, and otherwise evicting the
    first entry, the one inserted earliest, and no other. *)
Theorem pathCache_bounded_fifo
    (toStr : JS.number -> string) (Math_cos Math_sin : JS.number -> JS.number)
    (Math_PI : JS.number) (calls : list Spec.Call) :
  let cache := Spec.run_calls toStr Math_cos Math_sin Math_PI empty_cache calls in
  (cache_size cache <= 1000)%nat
  /\ map fst cache
     = Spec.most_recent 1000
         (Spec.insertions toStr Math_cos Math_sin Math_PI empty_cache calls)
  /\ forall c : Spec.Call,
      let path := Spec.path_of toStr Math_cos Math_sin Math_PI c in
      match cache_get cache (Spec.key_of toStr c) with
      | Some cached =>
          Spec.call toStr Math_cos Math_sin Math_PI cache c = (cached, cache)
      | None =>
          if (cache_size cache <? 1000)%nat then
            Spec.call toStr Math_cos Math_sin Math_PI cache c
            = (path, (cache ++ [(Spec.key_of toStr c, path)])%list)
          else
            exists oldest rest,
              cache = oldest :: rest
              /\ Spec.call toStr Math_cos Math_sin Math_PI cache c
                 = (path, (rest ++ [(Spec.key_of toStr c, path)])%list)
      end.
Proof.
  intros cache. split; [| split].
  - apply run_calls_bounded.
  - apply (run_calls_most_recent toStr Math_cos Math_sin Math_PI calls
             empty_cache []). reflexivity.
  - intros c path.
    destruct (cache_get cache (Spec.key_of toStr c)) as [v |] eqn:E.
    + apply call_hit. exact E.
    + rewrite (call_miss _ _ _ _ _ _ E). fold path.
      change CACHE_LIMIT with 1000%nat.
      destruct (Nat.ltb_spec (cache_size cache) 1000) as [Hlt | Hge];
        [reflexivity |].
      destruct cache as [| oldest rest] eqn:Ec.
      * cbn in Hge. lia.
      * exists oldest, rest. split; reflexivity.
Qed.

Lemma string_app_assoc (a b c : string) : (a ++ b) ++ c = a ++ (b ++ c).
Proof.
  induction a as [| ch a IH]; cbn [append]; [reflexivity |].
  rewrite IH. reflexivity.
Qed.




(** A call with the shape ['custom'] and a path that is not empty returns
    that path as it is, whatever [x], [y], [size], the corner radii and the
    [viewBox] are, after any calls of which none took its key string with
    another path. *)
Lemma custom_path_verbatim
    (toStr : JS.number -> string) (Math_cos Math_sin : JS.number -> JS.number)
    (Math_PI : JS.number) (calls : list Spec.Call)
    (x y size : JS.number) (cornerRadius : option CornerRadius)
    (customPath customViewBox : string) :
  customPath <> "" ->
  Spec.agrees toStr Math_cos Math_sin Math_PI calls
    {| Spec.call_x := x; Spec.call_y := y; Spec.call_size := size;
       Spec.call_shape := "custom"; Spec.call_cornerRadius := cornerRadius;
       Spec.call_customShape :=
         Some {| path := customPath; viewBox := customViewBox |} |} ->
  fst (createShapePath toStr Math_cos Math_sin Math_PI
         (Spec.run_calls toStr Math_cos Math_sin Math_PI empty_cache calls)
         x y size "custom" cornerRadius
         (Some {| path := customPath; viewBox := customViewBox |}))
  = customPath.
Proof.
  intros Hp H.
  pose proof (call_after_history toStr Math_cos Math_sin Math_PI calls _ H)
    as E.
  unfold Spec.call, Spec.path_of in E.
  cbn [Spec.call_x Spec.call_y Spec.call_size Spec.call_shape
       Spec.call_cornerRadius Spec.call_customShape customPath_of path] in E.
  rewrite E. apply shapePath_custom. exact Hp.
Qed.

(** C5.  The custom path is lost to a collision of key strings.  After a
    call with the unknown shape name ['custom_' + j + '_x'], where [j] is
    the JSON text of the corner radii, and an empty custom path, the call
    with the shape ['custom'] and the path ['x_' + j + '_'] builds the same
    key string, for every [x], [y], [size] and corner radii; it is answered
    from the cache with the plain or rounded rectangle of the first call,
    not with its own path, which it returns when it is made on the empty
    cache. *)
Theorem custom_path_key_collision
    (toStr : JS.number -> string) (Math_cos Math_sin : JS.number -> JS.number)
    (Math_PI : JS.number) (x y size : JS.number)
    (cornerRadius : option CornerRadius) (customViewBox : string) :
  let j := JSON_stringify toStr cornerRadius in
  let custom :=
    Some {| path := "x_" ++ j ++ "_"; viewBox := customViewBox |} in
  let blank := Some {| path := ""; viewBox := customViewBox |} in
  let first :=
    createShapePath toStr Math_cos Math_sin Math_PI empty_cache x y size
      ("custom_" ++ j ++ "_x") cornerRadius blank in
  let second :=
    createShapePath toStr Math_cos Math_sin Math_PI (snd first) x y size
      "custom" cornerRadius custom in
  cacheKey toStr x y size ("custom_" ++ j ++ "_x") cornerRadius blank
  = cacheKey toStr x y size "custom" cornerRadius custom
  /\ fst second = fst first
  /\ fst first
     = shapePath toStr Math_cos Math_sin Math_PI x y size "rectangle"
         cornerRadius ""
  /\ fst second <> "x_" ++ j ++ "_"
  /\ fst (createShapePath toStr Math_cos Math_sin Math_PI empty_cache x y
            size "custom" cornerRadius custom)
     = "x_" ++ j ++ "_".
Proof.
  intros j custom blank first second.
  assert (K : cacheKey toStr x y size ("custom_" ++ j ++ "_x") cornerRadius
                blank
              = cacheKey toStr x y size "custom" cornerRadius custom).
  { unfold cacheKey, custom, blank. cbn [customPath_of path]. fold j.
    repeat (rewrite ?string_app_assoc; cbn [append]). reflexivity. }
  set (c1 := {| Spec.call_x := x; Spec.call_y := y; Spec.call_size := size;
                Spec.call_shape := "custom_" ++ j ++ "_x";
                Spec.call_cornerRadius := cornerRadius;
                Spec.call_customShape := blank |}).
  set (c2 := {| Spec.call_x := x; Spec.call_y := y; Spec.call_size := size;
                Spec.call_shape := "custom";
                Spec.call_cornerRadius := cornerRadius;
                Spec.call_customShape := custom |}).
  change first with (Spec.call toStr Math_cos Math_sin Math_PI empty_cache c1)
    in *.
  assert (E1 : fst (Spec.call toStr Math_cos Math_sin Math_PI empty_cache c1)
               = shapePath toStr Math_cos Math_sin Math_PI x y size
                   "rectangle" cornerRadius "").
  { rewrite (call_miss toStr Math_cos Math_sin Math_PI empty_cache c1 eq_refl).
    cbn [fst]. unfold Spec.path_of, c1, SVGRenderer.shapePath.
    cbn [Spec.call_x Spec.call_y Spec.call_size Spec.call_shape
         Spec.call_cornerRadius Spec.call_customShape].
    unfold blank. cbn [customPath_of path].
    cbn [append String.eqb Ascii.eqb Bool.eqb andb]. reflexivity. }
  assert (E2 : fst second
               = fst (Spec.call toStr Math_cos Math_sin Math_PI empty_cache c1)).
  { pose proof (call_then_cached toStr Math_cos Math_sin Math_PI empty_cache c1)
      as H.
    change (Spec.key_of toStr c1)
      with (cacheKey toStr x y size ("custom_" ++ j ++ "_x") cornerRadius
              blank) in H.
    rewrite K in H.
    change second
      with (Spec.call toStr Math_cos Math_sin Math_PI
              (snd (Spec.call toStr Math_cos Math_sin Math_PI empty_cache c1))
              c2).
    rewrite (call_hit toStr Math_cos Math_sin Math_PI _ c2 _ H). reflexivity. }
  split; [exact K |]. split; [exact E2 |]. split; [exact E1 |]. split.
  - rewrite E2, E1. unfold SVGRenderer.shapePath.
    cbn [append String.eqb Ascii.eqb Bool.eqb andb].
    destruct cornerRadius as [cr |]; [destruct (enabled cr) |];
      cbv [nl indent14 ascii_of_nat ascii_of_pos ascii_of_N Pos.of_succ_nat
           Pos.succ N.of_nat];
      cbn [append]; discriminate.
  - rewrite (createShapePath_fresh toStr Math_cos Math_sin Math_PI empty_cache
               _ _ _ _ _ _ eq_refl).
    unfold custom. cbn [customPath_of path]. apply shapePath_custom.
    cbn [append]. discriminate.
Qed.

End PathProps.

(** ** The three layers and the grid overlay *)

Module LayerProps.

Import SVGRenderer NumberFacts.

(** *** Lists in pass order *)

Lemma pass_order_uniform {A : Type} (rank : A -> option nat) (k : option nat)
    (l : list A) :
  Forall (fun x => rank x = k) l -> Spec.in_pass_order rank l.
Proof.
  intros H i j x y a b Hi Hj Ha Hb Hab. rewrite Forall_forall in H.
  apply nth_error_In in Hi, Hj. rewrite (H _ Hi) in Ha. rewrite (H _ Hj) in Hb.
  assert (a = b) by congruence. lia.
Qed.

Lemma pass_order_app {A : Type} (rank : A -> option nat) (l1 l2 : list A) :
  Spec.in_pass_order rank l1 -> Spec.in_pass_order rank l2 ->
  (forall x y a b, In x l1 -> In y l2 -> rank x = Some a -> rank y = Some b ->
                   (a <= b)%nat) ->
  Spec.in_pass_order rank (l1 ++ l2).
Proof.
  intros H1 H2 Hc i j x y a b Hi Hj Ha Hb Hab.
  destruct (Nat.lt_ge_cases i (List.length l1)) as [Li | Li];
    destruct (Nat.lt_ge_cases j (List.length l1)) as [Lj | Lj].
  - rewrite nth_error_app1 in Hi, Hj by assumption.
    exact (H1 i j x y a b Hi Hj Ha Hb Hab).
  - lia.
  - rewrite nth_error_app2 in Hi by assumption.
    rewrite nth_error_app1 in Hj by assumption.
    apply nth_error_In in Hi, Hj.
    pose proof (Hc y x b a Hj Hi Hb Ha). lia.
  - rewrite nth_error_app2 in Hi, Hj by assumption.
    pose proof (H2 _ _ x y a b Hi Hj Ha Hb Hab). lia.
Qed.

Lemma pass_order_three {A : Type} (rank : A -> option nat)
    (k1 k2 k3 : nat) (l1 l2 l3 : list A) :
  (k1 <= k2)%nat -> (k2 <= k3)%nat ->
  Forall (fun x => rank x = Some k1) l1 ->
  Forall (fun x => rank x = Some k2) l2 ->
  Forall (fun x => rank x = Some k3) l3 ->
  Spec.in_pass_order rank (l1 ++ l2 ++ l3).
Proof.
  intros H12 H23 F1 F2 F3.
  apply pass_order_app; [eapply pass_order_uniform; exact F1 | |].
  - apply pass_order_app;
      [eapply pass_order_uniform; exact F2
      | eapply pass_order_uniform; exact F3 |].
    intros x y a b Hx Hy Ha Hb. rewrite Forall_forall in F2, F3.
    rewrite (F2 _ Hx) in Ha. rewrite (F3 _ Hy) in Hb.
    assert (a = k2) by congruence. assert (b = k3) by congruence. lia.
  - intros x y a b Hx Hy Ha Hb. rewrite Forall_forall in F1, F2, F3.
    rewrite (F1 _ Hx) in Ha. assert (a = k1) by congruence.
    apply in_app_or in Hy. destruct Hy as [Hy | Hy].
    + rewrite (F2 _ Hy) in Hb. assert (b = k2) by congruence. lia.
    + rewrite (F3 _ Hy) in Hb. assert (b = k3) by congruence. lia.
Qed.

Lemma fold_left_invariant {A B : Type} (P : A -> Prop) (f : A -> B -> A)
    (l : list B) :
  (forall a b, P a -> P (f a b)) -> forall a, P a -> P (fold_left f l a).
Proof.
  intros Hf. induction l as [| b l IH]; intros a Ha; [exact Ha |].
  simpl. apply IH. apply Hf. exact Ha.
Qed.

Section Renderer.

Variable toStr : JS.number -> string.
Variable Math_cos Math_sin : JS.number -> JS.number.
Variable Math_PI : JS.number.
Variable pixelSize gridGap : JS.number.
Variable pixelData : list (list (option string)).
Variable cornerRadius : option CornerRadius.
Variable pixelShape : string.
Variable customShape : option CustomShape.
Variable glowEnabled : bool.
Variable glowSettings : GlowSettings.
Variable bulbEnabled : bool.
Variable bulbSettings : BulbSettings.

Local Notation renderCell :=
  (renderCell toStr Math_cos Math_sin Math_PI pixelSize gridGap pixelData
     cornerRadius pixelShape customShape glowEnabled glowSettings bulbEnabled
     bulbSettings).
Local Notation renderCells :=
  (renderCells toStr Math_cos Math_sin Math_PI pixelSize gridGap pixelData
     cornerRadius pixelShape customShape glowEnabled glowSettings bulbEnabled
     bulbSettings).
Local Notation renderPixels :=
  (renderPixels toStr Math_cos Math_sin Math_PI pixelSize gridGap pixelData
     cornerRadius pixelShape customShape glowEnabled glowSettings bulbEnabled
     bulbSettings).

Lemma Forall_snoc {A : Type} (P : A -> Prop) (l : list A) (a : A) :
  Forall P l -> P a -> Forall P (l ++ [a]).
Proof. intros Hl Ha. apply Forall_app. split; [exact Hl | auto]. Qed.

Lemma renderCell_sorted (st : layers) (cell : JS.number * JS.number) :
  Spec.sorted_layers st -> Spec.sorted_layers (renderCell st cell).
Proof.
  intros (Hg & Hc & Hb). unfold SVGRenderer.renderCell. destruct cell as [x y].
  destruct (pixelAt pixelData x y) as [color |]; [| repeat split; assumption].
  destruct (JS.truthy_string color); [| repeat split; assumption].
  destruct (createShapePath _ _ _ _ _ _ _ _ _ _ _) as [pathData cache].
  unfold Spec.sorted_layers. cbn [glowPaths crispPaths bulbPaths].
  repeat split.
  - destruct glowEnabled; [| exact Hg].
    apply Forall_snoc; [exact Hg |].
    destruct (String.eqb pixelShape "circle"); reflexivity.
  - apply Forall_snoc; [exact Hc |].
    destruct (String.eqb pixelShape "circle"); reflexivity.
  - destruct bulbEnabled; [| exact Hb].
    apply Forall_snoc; [exact Hb |].
    destruct (String.eqb pixelShape "circle"); reflexivity.
Qed.

Lemma renderCells_sorted (cache : Cache) (cells : list (JS.number * JS.number)) :
  Spec.sorted_layers (renderCells cache cells).
Proof.
  unfold SVGRenderer.renderCells.
  apply (fold_left_invariant Spec.sorted_layers).
  - intros st cell. apply renderCell_sorted.
  - repeat split; constructor.
Qed.

Lemma layered_in_pass_order (st : layers) :
  Spec.sorted_layers st -> Spec.in_pass_order Spec.element_rank (layered st).
Proof.
  intros (Hg & Hc & Hb). unfold layered.
  apply (pass_order_three Spec.element_rank 0 1 2); try lia.
  - eapply Forall_impl; [| exact Hg].
    intros e He. unfold Spec.element_rank. rewrite He. reflexivity.
  - eapply Forall_impl; [| exact Hc].
    intros e He. unfold Spec.element_rank. rewrite He. reflexivity.
  - eapply Forall_impl; [| exact Hb].
    intros e He. unfold Spec.element_rank. rewrite He. reflexivity.
Qed.

(** Whatever the order the cells are visited in. *)
Lemma renderCells_in_pass_order (cache : Cache)
    (cells : list (JS.number * JS.number)) :
  Spec.in_pass_order Spec.element_rank (layered (renderCells cache cells)).
Proof. apply layered_in_pass_order, renderCells_sorted. Qed.

Lemma renderPixels_in_pass_order (cache cache' : Cache) (visible : VisibleArea)
    (els : list element) :
  renderPixels cache visible = Done (els, cache') ->
  Spec.in_pass_order Spec.element_rank els.
Proof.
  unfold SVGRenderer.renderPixels, run_bind.
  destruct (JS.for_range false (startY visible) (endY visible)) as [ys |];
    [| discriminate].
  destruct ys as [| y ys].
  - intros H. injection H as <- _. intros i j x y a b Hi.
    destruct i; discriminate.
  - destruct (JS.for_range false (startX visible) (endX visible)) as [xs |];
      [| discriminate].
    intros H. injection H as <- _. apply renderCells_in_pass_order.
Qed.

(** On finite bounds the loops end. *)
Lemma renderPixels_returns (cache : Cache) (sx ex sy ey : Qc) :
  exists els cache',
    renderPixels cache
      {| startX := JS.Fin sx; endX := JS.Fin ex;
         startY := JS.Fin sy; endY := JS.Fin ey |}
    = Done (els, cache').
Proof.
  unfold SVGRenderer.renderPixels, run_bind. cbn [startX endX startY endY].
  unfold JS.for_range.
  destruct (map _ (seq 0 (Z.to_nat (Qceiling (ey - sy)%Qc)))); eauto.
Qed.

(** With both effects enabled every coloured cell visited adds one
    element to each of the three layers. *)
Lemma renderCell_counts (st : layers) (cell : JS.number * JS.number) :
  glowEnabled = true -> bulbEnabled = true ->
  let n := if Spec.coloured pixelData cell then 1%nat else 0%nat in
  List.length (glowPaths (renderCell st cell)) = (List.length (glowPaths st) + n)%nat
  /\ List.length (crispPaths (renderCell st cell))
     = (List.length (crispPaths st) + n)%nat
  /\ List.length (bulbPaths (renderCell st cell))
     = (List.length (bulbPaths st) + n)%nat.
Proof.
  intros Eg Eb. unfold SVGRenderer.renderCell, Spec.coloured.
  destruct cell as [x y]. cbn [fst snd].
  destruct (pixelAt pixelData x y) as [color |]; [| cbn; lia].
  destruct (JS.truthy_string color); [| cbn; lia].
  destruct (createShapePath _ _ _ _ _ _ _ _ _ _ _) as [pathData cache].
  rewrite Eg, Eb. cbn [glowPaths crispPaths bulbPaths].
  rewrite !length_app. cbn [List.length]. lia.
Qed.

Lemma renderCells_counts_from (cells : list (JS.number * JS.number)) :
  glowEnabled = true -> bulbEnabled = true ->
  forall st : layers,
    let n := List.length (List.filter (Spec.coloured pixelData) cells) in
    let st' := fold_left renderCell cells st in
    List.length (glowPaths st') = (List.length (glowPaths st) + n)%nat
    /\ List.length (crispPaths st') = (List.length (crispPaths st) + n)%nat
    /\ List.length (bulbPaths st') = (List.length (bulbPaths st) + n)%nat.
Proof.
  intros Eg Eb. induction cells as [| cell rest IH]; intros st.
  - cbn. lia.
  - cbn [fold_left List.filter].
    destruct (renderCell_counts st cell Eg Eb) as (Hg & Hc & Hb).
    destruct (IH (renderCell st cell)) as (Ig & Ic & Ib).
    cbv zeta in *. rewrite Ig, Ic, Ib, Hg, Hc, Hb.
    destruct (Spec.coloured pixelData cell); cbn [List.length]; lia.
Qed.

Lemma renderCells_counts (cache : Cache) (cells : list (JS.number * JS.number)) :
  glowEnabled = true -> bulbEnabled = true ->
  let n := List.length (List.filter (Spec.coloured pixelData) cells) in
  List.length (glowPaths (renderCells cache cells)) = n
  /\ List.length (crispPaths (renderCells cache cells)) = n
  /\ List.length (bulbPaths (renderCells cache cells)) = n.
Proof.
  intros Eg Eb.
  exact (renderCells_counts_from cells Eg Eb (no_layers cache)).
Qed.

End Renderer.

(** *** The loops over integer bounds *)

Lemma Qfloor_of_Z (z : Z) : Qfloor (Q2Qc (inject_Z z)) = z.
Proof.
  rewrite (Qfloor_comp _ _ (this_Q2Qc (inject_Z z))). apply Qfloor_Z.
Qed.

Lemma Qceiling_of_Z (z : Z) : Qceiling (Q2Qc (inject_Z z)) = z.
Proof.
  rewrite (Qceiling_comp _ _ (this_Q2Qc (inject_Z z))). apply Qceiling_Z.
Qed.

Lemma Qcminus_of_Z (a b : Z) :
  (Q2Qc (inject_Z b) - Q2Qc (inject_Z a))%Qc = Q2Qc (inject_Z (b - a)).
Proof. apply Fin_inj. exact (sub_of_Z b a). Qed.

Lemma for_range_incl_of_Z (a b : Z) :
  JS.for_range true (JS.of_Z a) (JS.of_Z b)
  = Some (map JS.of_Z (Spec.Z_range a b)).
Proof.
  unfold JS.for_range, JS.of_Z at 1 2. cbv zeta.
  rewrite Qcminus_of_Z, Qfloor_of_Z. unfold Spec.Z_range.
  rewrite map_map. f_equal. apply map_ext. intros k.
  exact (add_of_Z a (Z.of_nat k)).
Qed.

Lemma for_range_excl_of_Z (a b : Z) :
  JS.for_range false (JS.of_Z a) (JS.of_Z b)
  = Some (map JS.of_Z (Spec.Z_range a (b - 1))).
Proof.
  unfold JS.for_range, JS.of_Z at 1 2. cbv zeta.
  rewrite Qcminus_of_Z, Qceiling_of_Z. unfold Spec.Z_range.
  replace (b - 1 - a + 1)%Z with (b - a)%Z by lia.
  rewrite map_map. f_equal. apply map_ext. intros k.
  exact (add_of_Z a (Z.of_nat k)).
Qed.

(** *** The grid overlay *)

Section Grid.

Variable toStr : JS.number -> string.
Variable gridWidth gridHeight pixelSize gridGap : JS.number.

Local Notation gridLines :=
  (gridLines toStr gridWidth gridHeight pixelSize gridGap).

Lemma gridLines_hidden (visible : VisibleArea) :
  gridLines false visible = Done None.
Proof. reflexivity. Qed.

(** On an integer window the lines are those of the boundaries of the
    window, the vertical ones first. *)
Lemma gridLines_window (sx ex sy ey : Z) :
  gridLines true
    {| startX := JS.of_Z sx; endX := JS.of_Z ex;
       startY := JS.of_Z sy; endY := JS.of_Z ey |}
  = Done (Some
      (map (Spec.boundary_line toStr true (JS.add pixelSize gridGap)
              (totalHeight gridHeight pixelSize gridGap))
           (Spec.Z_range sx ex)
       ++ map (Spec.boundary_line toStr false (JS.add pixelSize gridGap)
                 (totalWidth gridWidth pixelSize gridGap))
            (Spec.Z_range sy ey))%list).
Proof.
  unfold SVGRenderer.gridLines. cbn [negb startX endX startY endY].
  rewrite !for_range_incl_of_Z. cbn [run_bind]. rewrite !map_map.
  reflexivity.
Qed.


End Grid.

(** *** One render *)

Section Render.

Variable toStr : JS.number -> string.
Variable Math_cos Math_sin : JS.number -> JS.number.
Variable Math_PI : JS.number.
Variable gridWidth gridHeight pixelSize gridGap : JS.number.
Variable pixelData : list (list (option string)).
Variable showGrid : bool.
Variable cornerRadius : option CornerRadius.
Variable pixelShape : string.
Variable customShape : option CustomShape.
Variable glowEnabled : bool.
Variable glowSettings : GlowSettings.
Variable bulbEnabled : bool.
Variable bulbSettings : BulbSettings.

Local Notation render :=
  (render toStr Math_cos Math_sin Math_PI gridWidth gridHeight pixelSize
     gridGap pixelData showGrid cornerRadius pixelShape customShape
     glowEnabled glowSettings bulbEnabled bulbSettings).
Local Notation renderPixels :=
  (renderPixels toStr Math_cos Math_sin Math_PI pixelSize gridGap pixelData
     cornerRadius pixelShape customShape glowEnabled glowSettings bulbEnabled
     bulbSettings).
Local Notation gridLines :=
  (gridLines toStr gridWidth gridHeight pixelSize gridGap showGrid).
Local Notation visibleArea :=
  (visibleArea gridWidth gridHeight pixelSize gridGap).



End Render.

End LayerProps.

(** ** The raster export *)

Module ExportProps.

Import SVGRenderer App LayerProps.

Lemma ranked_from_uniform {A : Type} (rank : A -> option nat) (a k : nat)
    (l : list A) :
  (a <= k)%nat -> Forall (fun x => rank x = Some k) l ->
  Spec.ranked_from rank a l.
Proof.
  intros Hk H. unfold Spec.ranked_from. eapply Forall_impl; [| exact H].
  intros x Hx b Hb. rewrite Hx in Hb. assert (k = b) by congruence. lia.
Qed.

Lemma ranked_from_unranked {A : Type} (rank : A -> option nat) (a : nat)
    (l : list A) :
  Forall (fun x => rank x = None) l -> Spec.ranked_from rank a l.
Proof.
  intros H. unfold Spec.ranked_from. eapply Forall_impl; [| exact H].
  intros x Hx b Hb. congruence.
Qed.

(** A block of one rank in front of a list in pass order whose ranks are
    not lower. *)
Lemma pass_order_block {A : Type} (rank : A -> option nat) (k : option nat)
    (block rest : list A) :
  Forall (fun x => rank x = k) block ->
  Spec.in_pass_order rank rest ->
  (forall a, k = Some a -> Spec.ranked_from rank a rest) ->
  Spec.in_pass_order rank (block ++ rest).
Proof.
  intros Hb Hr Hk. apply pass_order_app.
  - eapply pass_order_uniform. exact Hb.
  - exact Hr.
  - intros x y a b Hx Hy Ha Hbk. rewrite Forall_forall in Hb.
    rewrite (Hb _ Hx) in Ha. specialize (Hk a Ha).
    unfold Spec.ranked_from in Hk. rewrite Forall_forall in Hk.
    exact (Hk y Hy b Hbk).
Qed.

Lemma pass_order_cons_unranked {A : Type} (rank : A -> option nat) (x : A)
    (l : list A) :
  rank x = None -> Spec.in_pass_order rank l ->
  Spec.in_pass_order rank (x :: l).
Proof.
  intros Hx Hl. apply (pass_order_block rank None [x] l).
  - constructor; [exact Hx | constructor].
  - exact Hl.
  - discriminate.
Qed.

Lemma flat_map_length_ext {A B C : Type} (f : A -> list B) (g : A -> list C)
    (l : list A) :
  (forall a, List.length (f a) = List.length (g a)) ->
  List.length (flat_map f l) = List.length (flat_map g l).
Proof.
  intros H. induction l as [| a l IH]; [reflexivity |].
  cbn [flat_map]. rewrite !length_app, IH, H. reflexivity.
Qed.

Section RasterExport.

Variable pixelSize gridGap : JS.number.
Variable gridDimensions : GridDimensions.
Variable pixelGrid : list (list (option string)).
Variable backgroundColor : option string.
Variable rendererType : string.
Variable cornerRadius : CornerRadius.
Variable pixelShape : string.
Variable glowEnabled : bool.
Variable glowSettings : GlowSettings.
Variable bulbEnabled : bool.
Variable bulbSettings : BulbSettings.

Local Notation exportPass :=
  (exportPass pixelSize gridGap gridDimensions pixelGrid).
Local Notation performExport :=
  (performExport pixelSize gridGap gridDimensions pixelGrid backgroundColor
     rendererType cornerRadius pixelShape glowEnabled glowSettings bulbEnabled
     bulbSettings).

(** A pass issues calls of its own drawing function only. *)
Lemma exportPass_ops (draw : JS.number -> JS.number -> string -> canvasOp)
    (ops : list canvasOp) :
  exportPass draw = Done ops ->
  Forall (fun op => exists x y color, op = draw x y color) ops.
Proof.
  unfold App.exportPass, run_bind.
  destruct (JS.for_range false n0 (dim_height gridDimensions)) as [ys |];
    [| discriminate].
  destruct ys as [| y ys]; [intros H; injection H as <-; constructor |].
  destruct (JS.for_range false n0 (dim_width gridDimensions)) as [xs |];
    [| discriminate].
  intros H. injection H as <-. apply Forall_forall. intros op Hop.
  apply in_flat_map in Hop. destruct Hop as ([x' y'] & _ & Hop).
  destruct (pixelAt pixelGrid x' y') as [color |]; [| contradiction].
  destruct (JS.truthy_string color); [| contradiction].
  destruct Hop as [<- | []]. eauto.
Qed.

Lemma optional_pass_rank (enabled : bool)
    (draw : JS.number -> JS.number -> string -> canvasOp) (k : nat)
    (ops : list canvasOp) :
  (forall x y color, Spec.pass_of (draw x y color) = Some k) ->
  (if enabled then exportPass draw else Done []) = Done ops ->
  Forall (fun op => Spec.pass_of op = Some k) ops.
Proof.
  intros Hk H. destruct enabled.
  - eapply Forall_impl; [| exact (exportPass_ops draw ops H)].
    intros op (x & y & color & ->). apply Hk.
  - injection H as <-. constructor.
Qed.

(** The operations of an export, pass by pass. *)
Lemma performExport_blocks (o : ExportOptions) (ops : list canvasOp) :
  performExport o = Some (Done ops) ->
  exists (pre glow crisp bulb grid : list canvasOp)
         (drawGlow drawCrisp drawBulb :
            JS.number -> JS.number -> string -> canvasOp),
    ops = (pre ++ glow ++ crisp ++ bulb ++ grid ++ [Restore])%list
    /\ Forall (fun op => Spec.pass_of op = None) pre
    /\ (forall x y c, Spec.pass_of (drawGlow x y c) = Some 0%nat)
    /\ (forall x y c, Spec.pass_of (drawCrisp x y c) = Some 1%nat)
    /\ (forall x y c, Spec.pass_of (drawBulb x y c) = Some 2%nat)
    /\ (if glowEnabled then exportPass drawGlow else Done []) = Done glow
    /\ exportPass drawCrisp = Done crisp
    /\ (if bulbEnabled then exportPass drawBulb else Done []) = Done bulb
    /\ Forall (fun op => Spec.pass_of op = Some 3%nat) grid.
Proof.
  unfold App.performExport.
  destruct (String.eqb (format o) "svg" && String.eqb rendererType "svg");
    [discriminate |].
  intros H. injection H as H.
  match type of H with
  | run_then ?m _ = _ =>
      destruct m as [glow |] eqn:Eg; [unfold run_then at 1 in H; cbv beta iota in H | discriminate H]
  end.
  match type of H with
  | run_then ?m _ = _ =>
      destruct m as [crisp |] eqn:Ec; [unfold run_then at 1 in H; cbv beta iota in H | discriminate H]
  end.
  match type of H with
  | run_then ?m _ = _ =>
      destruct m as [bulb |] eqn:Eb; [unfold run_then at 1 in H; cbv beta iota in H | discriminate H]
  end.
  match type of H with
  | Done (?a :: ?b :: ?c :: ?d :: ?e :: ?f :: _ ++ _ ++ _ ++ ?grid ++ _)%list
    = _ =>
      exists [a; b; c; d; e; f], glow, crisp, bulb, grid
  end.
  eexists _, _, _. injection H as <-.
  split; [reflexivity |]. split; [repeat constructor |].
  split; [| split; [| split; [| split; [exact Eg | split;
    [exact Ec | split; [exact Eb |]]]]]]; try reflexivity.
  destruct (includeGrid o); repeat constructor.
Qed.

(** Glow pass, then crisp pass, then bulb pass, then the grid. *)
Lemma performExport_in_pass_order (o : ExportOptions) (ops : list canvasOp) :
  performExport o = Some (Done ops) ->
  Spec.in_pass_order Spec.pass_of ops.
Proof.
  intros H.
  destruct (performExport_blocks o ops H)
    as (pre & glow & crisp & bulb & grid & dg & dc & db & -> & Epre & Rg & Rc
        & Rb & Eg & Ec & Eb & Egrid).
  apply (optional_pass_rank _ _ 0 _ Rg) in Eg.
  apply (optional_pass_rank true _ 1 _ Rc) in Ec.
  apply (optional_pass_rank _ _ 2 _ Rb) in Eb.
  assert (Elast : Forall (fun op => Spec.pass_of op = None) [Restore]).
  { repeat constructor. }
  apply (pass_order_block Spec.pass_of None); [exact Epre | | discriminate].
  apply (pass_order_block Spec.pass_of (Some 0%nat)); [exact Eg | |].
  - apply (pass_order_block Spec.pass_of (Some 1%nat)); [exact Ec | |].
    + apply (pass_order_block Spec.pass_of (Some 2%nat)); [exact Eb | |].
      * apply (pass_order_block Spec.pass_of (Some 3%nat)); [exact Egrid | |].
        -- eapply pass_order_uniform. exact Elast.
        -- intros a _. apply ranked_from_unranked. exact Elast.
      * intros a Ha. injection Ha as <-. apply Forall_app. split.
        -- apply (ranked_from_uniform _ 2 3); [lia | exact Egrid].
        -- apply ranked_from_unranked. exact Elast.
    + intros a Ha. injection Ha as <-. repeat (apply Forall_app; split).
      * apply (ranked_from_uniform _ 1 2); [lia | exact Eb].
      * apply (ranked_from_uniform _ 1 3); [lia | exact Egrid].
      * apply ranked_from_unranked. exact Elast.
  - intros a Ha. injection Ha as <-. repeat (apply Forall_app; split).
    + apply (ranked_from_uniform _ 0 1); [lia | exact Ec].
    + apply (ranked_from_uniform _ 0 2); [lia | exact Eb].
    + apply (ranked_from_uniform _ 0 3); [lia | exact Egrid].
    + apply ranked_from_unranked. exact Elast.
Qed.

(** The three passes visit the same cells. *)
Lemma exportPass_length
    (draw draw' : JS.number -> JS.number -> string -> canvasOp)
    (ops ops' : list canvasOp) :
  exportPass draw = Done ops -> exportPass draw' = Done ops' ->
  List.length ops = List.length ops'.
Proof.
  unfold App.exportPass, run_bind.
  destruct (JS.for_range false n0 (dim_height gridDimensions)) as [ys |];
    [| discriminate].
  destruct ys as [| y ys];
    [intros H H'; injection H as <-; injection H' as <-; reflexivity |].
  destruct (JS.for_range false n0 (dim_width gridDimensions)) as [xs |];
    [| discriminate].
  intros H H'. injection H as <-. injection H' as <-.
  apply flat_map_length_ext. intros [x' y'].
  destruct (pixelAt pixelGrid x' y') as [color |]; [| reflexivity].
  destruct (JS.truthy_string color); reflexivity.
Qed.

Lemma filter_all {A : Type} (f : A -> bool) (l : list A) :
  Forall (fun x => f x = true) l -> List.filter f l = l.
Proof.
  induction 1 as [| x l Hx _ IH]; [reflexivity |].
  cbn [List.filter]. rewrite Hx, IH. reflexivity.
Qed.

Lemma filter_none {A : Type} (f : A -> bool) (l : list A) :
  Forall (fun x => f x = false) l -> List.filter f l = [].
Proof.
  induction 1 as [| x l Hx _ IH]; [reflexivity |].
  cbn [List.filter]. rewrite Hx, IH. reflexivity.
Qed.

Lemma filter_rank (k p : option nat) (l : list canvasOp) :
  Forall (fun op => Spec.pass_of op = p) l ->
  List.filter (Spec.in_pass k) l
  = if option_eqb Nat.eqb p k then l else [].
Proof.
  intros Hl. unfold Spec.in_pass.
  destruct (option_eqb Nat.eqb p k) eqn:E.
  - apply filter_all. eapply Forall_impl; [| exact Hl].
    intros op Hop. rewrite Hop. exact E.
  - apply filter_none. eapply Forall_impl; [| exact Hl].
    intros op Hop. rewrite Hop. exact E.
Qed.

(** With both effects enabled each of the three passes issues as many calls
    as the crisp pass does. *)
Lemma performExport_pass_counts (o : ExportOptions) (ops : list canvasOp) :
  glowEnabled = true -> bulbEnabled = true ->
  performExport o = Some (Done ops) ->
  exists crisp drawCrisp,
    exportPass drawCrisp = Done crisp
    /\ forall k, (k < 3)%nat ->
         List.length (List.filter (Spec.in_pass (Some k)) ops)
         = List.length crisp.
Proof.
  intros Hg Hb H.
  destruct (performExport_blocks o ops H)
    as (pre & glow & crisp & bulb & grid & dg & dc & db & -> & Epre & Rg & Rc
        & Rb & Eg & Ec & Eb & Egrid).
  rewrite Hg in Eg. rewrite Hb in Eb.
  pose proof (exportPass_length _ _ _ _ Eg Ec) as Lg.
  pose proof (exportPass_length _ _ _ _ Eb Ec) as Lb.
  exists crisp, dc. split; [exact Ec |].
  apply (optional_pass_rank true _ 0 _ Rg) in Eg.
  apply (optional_pass_rank true _ 1 _ Rc) in Ec.
  apply (optional_pass_rank true _ 2 _ Rb) in Eb.
  assert (Elast : Forall (fun op => Spec.pass_of op = None) [Restore]).
  { repeat constructor. }
  intros k Hk. rewrite !filter_app.
  rewrite (filter_rank _ _ _ Epre), (filter_rank _ _ _ Eg),
    (filter_rank _ _ _ Ec), (filter_rank _ _ _ Eb),
    (filter_rank _ _ _ Egrid), (filter_rank _ _ _ Elast).
  destruct k as [| [| [| k]]]; cbn [option_eqb Nat.eqb];
    rewrite ?app_nil_r; cbn [app]; rewrite ?app_nil_r;
    [exact Lg | reflexivity | exact Lb | lia].
Qed.

Lemma pass_cells_length
    (draw : JS.number -> JS.number -> string -> canvasOp)
    (cells : list (JS.number * JS.number)) :
  List.length
    (flat_map
       (fun cell : JS.number * JS.number =>
          let (x, y) := cell in
          match pixelAt pixelGrid x y with
          | Some color =>
              if JS.truthy_string color then
                [draw (x * (pixelSize + gridGap) + gridGap / n2)%js
                   (y * (pixelSize + gridGap) + gridGap / n2)%js color]
              else []
          | None => []
          end) cells)
  = List.length (List.filter (Spec.coloured pixelGrid) cells).
Proof.
  induction cells as [| [x' y'] cells IH]; [reflexivity |].
  cbn [flat_map List.filter]. rewrite length_app, IH.
  unfold Spec.coloured at 2. cbn [fst snd].
  destruct (pixelAt pixelGrid x' y') as [color |]; [| reflexivity].
  destruct (JS.truthy_string color); reflexivity.
Qed.

(** On a grid of [w] by [h] cells a pass calls its drawing function once
    for every coloured cell of the grid. *)
Lemma exportPass_full_grid (w h : Z)
    (draw : JS.number -> JS.number -> string -> canvasOp)
    (ops : list canvasOp) :
  dim_width gridDimensions = JS.of_Z w ->
  dim_height gridDimensions = JS.of_Z h ->
  exportPass draw = Done ops ->
  List.length ops
  = List.length
      (List.filter (Spec.coloured pixelGrid)
         (cells_of (map JS.of_Z (Spec.Z_range 0 (h - 1)))
            (map JS.of_Z (Spec.Z_range 0 (w - 1))))).
Proof.
  intros Ew Eh. unfold App.exportPass, run_bind, n0. rewrite Ew, Eh.
  rewrite !for_range_excl_of_Z.
  destruct (map JS.of_Z (Spec.Z_range 0 (h - 1))) as [| y ys];
    [intros H; injection H as <-; reflexivity |].
  intros H.
  apply (f_equal (fun r => match r with
                           | Done l => List.length l
                           | Loops => 0%nat
                           end)) in H.
  cbv beta iota in H. rewrite <- H. apply pass_cells_length.
Qed.

End RasterExport.

(** The export returns on a grid of finite dimensions. *)
Lemma performExport_returns (pixelSize gridGap : JS.number) (w h : Qc)
    (pixelGrid : list (list (option string))) (backgroundColor : option string)
    (cornerRadius : CornerRadius) (pixelShape : string)
    (glowEnabled : bool) (glowSettings : GlowSettings) (bulbEnabled : bool)
    (bulbSettings : BulbSettings) (o : ExportOptions) :
  exists ops,
    performExport pixelSize gridGap
      {| dim_width := JS.Fin w; dim_height := JS.Fin h |} pixelGrid
      backgroundColor "canvas" cornerRadius pixelShape glowEnabled
      glowSettings bulbEnabled bulbSettings o
    = Some (Done ops).
Proof.
  unfold performExport. rewrite andb_false_r.
  assert (P : forall draw, exists ops,
             exportPass pixelSize gridGap
               {| dim_width := JS.Fin w; dim_height := JS.Fin h |} pixelGrid
               draw = Done ops).
  { intros draw. unfold exportPass, run_bind. cbn [dim_width dim_height].
    unfold n0, JS.of_Z, JS.for_range. destruct (map _ _); eauto. }
  unfold run_then.
  destruct glowEnabled, bulbEnabled;
    repeat match goal with
    | |- context [exportPass ?a ?b ?c ?d ?e] =>
        let ops := fresh "ops" in
        let E := fresh "E" in
        destruct (P e) as (ops & E); rewrite E; clear E
    end; eauto.
Qed.

End ExportProps.

(** ** Composite order, grid overlay and highlight gradient *)

Module RenderProps.

Import SVGRenderer App NumberFacts LayerProps ExportProps.

(** C1.  With glow and bulb enabled: (1) whatever the order the cells are
    visited in, the elements of [renderPixels] are in pass order, every
    glow before every fill and every fill before every highlight, and each
    of the three layers has one element for every coloured cell visited;
    (2) so is the list [renderPixels] returns for a visible range, and it
    does return on a finite range; (3) the raster export draws over the
    whole grid in the same order, glow pass, then crisp pass, then bulb
    pass (then the grid), each pass drawing every coloured cell of the
    grid once, and it does return on a grid of finite dimensions. *)
Theorem layers_glow_fill_bulb
    (toStr : JS.number -> string) (Math_cos Math_sin : JS.number -> JS.number)
    (Math_PI pixelSize gridGap : JS.number)
    (pixelData : list (list (option string)))
    (cornerRadius : option CornerRadius) (pixelShape : string)
    (customShape : option CustomShape) (glowSettings : GlowSettings)
    (bulbSettings : BulbSettings) :
  (forall (cache : Cache) (cells : list (JS.number * JS.number)),
      let st :=
        renderCells toStr Math_cos Math_sin Math_PI pixelSize gridGap pixelData
          cornerRadius pixelShape customShape true glowSettings true
          bulbSettings cache cells in
      let n := List.length (List.filter (Spec.coloured pixelData) cells) in
      Spec.in_pass_order Spec.element_rank (layered st)
      /\ List.length (glowPaths st) = n
      /\ List.length (crispPaths st) = n
      /\ List.length (bulbPaths st) = n)
  /\ (forall (cache cache' : Cache) (visible : VisibleArea)
        (els : list element),
        renderPixels toStr Math_cos Math_sin Math_PI pixelSize gridGap
          pixelData cornerRadius pixelShape customShape true glowSettings true
          bulbSettings cache visible = Done (els, cache') ->
        Spec.in_pass_order Spec.element_rank els)
  /\ (forall (cache : Cache) (sx ex sy ey : Qc),
        exists els cache',
          renderPixels toStr Math_cos Math_sin Math_PI pixelSize gridGap
            pixelData cornerRadius pixelShape customShape true glowSettings
            true bulbSettings cache
            {| startX := JS.Fin sx; endX := JS.Fin ex;
               startY := JS.Fin sy; endY := JS.Fin ey |}
          = Done (els, cache'))
  /\ (forall (gridDimensions : GridDimensions)
        (pixelGrid : list (list (option string)))
        (backgroundColor : option string) (rendererType : string)
        (exportRadius : CornerRadius) (o : ExportOptions)
        (ops : list canvasOp),
        performExport pixelSize gridGap gridDimensions pixelGrid
          backgroundColor rendererType exportRadius pixelShape true
          glowSettings true bulbSettings o = Some (Done ops) ->
        Spec.in_pass_order Spec.pass_of ops
        /\ forall w h : Z,
            dim_width gridDimensions = JS.of_Z w ->
            dim_height gridDimensions = JS.of_Z h ->
            forall k : nat,
              (k < 3)%nat ->
              List.length (List.filter (Spec.in_pass (Some k)) ops)
              = List.length
                  (List.filter (Spec.coloured pixelGrid)
                     (cells_of (map JS.of_Z (Spec.Z_range 0 (h - 1)))
                        (map JS.of_Z (Spec.Z_range 0 (w - 1))))))
  /\ (forall (w h : Qc) (pixelGrid : list (list (option string)))
        (backgroundColor : option string) (exportRadius : CornerRadius)
        (o : ExportOptions),
        exists ops,
          performExport pixelSize gridGap
            {| dim_width := JS.Fin w; dim_height := JS.Fin h |} pixelGrid
            backgroundColor "canvas" exportRadius pixelShape true glowSettings
            true bulbSettings o = Some (Done ops)).
Proof.
  split; [| split; [| split; [| split]]].
  - intros cache cells st n. split.
    + apply renderCells_in_pass_order.
    + apply renderCells_counts; reflexivity.
  - intros cache cache' visible els H.
    eapply renderPixels_in_pass_order. exact H.
  - intros. apply renderPixels_returns.
  - intros gridDimensions pixelGrid backgroundColor rendererType exportRadius
      o ops H.
    split; [eapply performExport_in_pass_order; exact H |].
    intros w h Ew Eh k Hk.
    destruct (performExport_pass_counts _ _ _ _ _ _ _ _ _ _ _ _ o ops
                eq_refl eq_refl H) as (crisp & dc & Ec & Hn).
    rewrite (Hn k Hk).
    exact (exportPass_full_grid _ _ _ _ w h dc crisp Ew Eh Ec).
  - intros. apply performExport_returns.
Qed.


(** Every element of the highlight layer is the highlight of a cell. *)
Lemma renderCells_highlights
    (toStr : JS.number -> string) (Math_cos Math_sin : JS.number -> JS.number)
    (Math_PI pixelSize gridGap : JS.number)
    (pixelData : list (list (option string)))
    (cornerRadius : option CornerRadius) (pixelShape : string)
    (customShape : option CustomShape)
    (glowEnabled : bool) (glowSettings : GlowSettings)
    (bulbEnabled : bool) (bulbSettings : BulbSettings)
    (cache : Cache) (cells : list (JS.number * JS.number)) :
  Forall (Spec.is_highlight_of toStr Math_cos Math_sin Math_PI pixelSize
            gridGap cornerRadius pixelShape customShape bulbSettings)
    (bulbPaths
       (renderCells toStr Math_cos Math_sin Math_PI pixelSize gridGap
          pixelData cornerRadius pixelShape customShape glowEnabled
          glowSettings bulbEnabled bulbSettings cache cells)).
Proof.
  unfold renderCells.
  apply (fold_left_invariant
           (fun st => Forall (Spec.is_highlight_of toStr Math_cos Math_sin
                                Math_PI pixelSize gridGap cornerRadius
                                pixelShape customShape bulbSettings)
                        (bulbPaths st))); [| constructor].
  intros st [x y] H. unfold renderCell.
  destruct (pixelAt pixelData x y) as [color |]; [| exact H].
  destruct (JS.truthy_string color); [| exact H].
  destruct (createShapePath _ _ _ _ (pathCache st) _ _ _ _ _ _)
    as [pathData cache1] eqn:E.
  cbn [bulbPaths]. destruct bulbEnabled; [| exact H].
  apply Forall_app. split; [exact H |]. constructor; [| constructor].
  unfold Spec.is_highlight_of.
  destruct (String.eqb pixelShape "circle") eqn:Ec; cbn [fill filter mixBlendMode geom];
    repeat split; exists x, y, (pathCache st); rewrite ?Ec; try reflexivity.
  cbv zeta. rewrite E. reflexivity.
Qed.

(** C6, on the code.  Every element of the highlight layer is the shape of
    its cell filled with the gradient [bulbGradient] and composited with the
    configured blend mode.  The gradient has the configured colour at
    [intensity / 100] opacity inside and the same colour fully transparent
    outside; a field that is absent takes its default (50 for the positions
    and the radius, 0 for the intensity) and a field that holds a truthy
    number is used as it is.  But a position or radius that is present and
    0 takes the default too: the gradient configured at the left edge,
    [positionX = 0], is centred at 50%. *)
Theorem bulbGradient_on_zero :
  (forall (toStr : JS.number -> string)
      (Math_cos Math_sin : JS.number -> JS.number)
      (Math_PI pixelSize gridGap : JS.number)
      (pixelData : list (list (option string)))
      (cornerRadius : option CornerRadius) (pixelShape : string)
      (customShape : option CustomShape)
      (glowEnabled : bool) (glowSettings : GlowSettings)
      (bulbEnabled : bool) (bulbSettings : BulbSettings)
      (cache : Cache) (cells : list (JS.number * JS.number)),
      Forall (Spec.is_highlight_of toStr Math_cos Math_sin Math_PI pixelSize
                gridGap cornerRadius pixelShape customShape bulbSettings)
        (bulbPaths
           (renderCells toStr Math_cos Math_sin Math_PI pixelSize gridGap
              pixelData cornerRadius pixelShape customShape glowEnabled
              glowSettings bulbEnabled bulbSettings cache cells)))
  /\ (forall (toStr : JS.number -> string) (s : BulbSettings),
        let g := bulbGradient toStr s in
        let given (field : option JS.number) (default : JS.number) :=
          match field with
          | None => default
          | Some v => if JS.truthy v then v else default
          end in
        grad_id g = "bulbGradient"
        /\ grad_cx g = toStr (given (positionX s) n50) ++ "%"
        /\ grad_cy g = toStr (given (positionY s) n50) ++ "%"
        /\ grad_r g = toStr (given (radius s) n50) ++ "%"
        /\ stops g
           = [ {| offset := "0%";
                  stopColor := JS.or_string (color s) "#ffffff";
                  stopOpacity :=
                    AttrNumber (JS.div (given (intensity s) n0) n100) |};
               {| offset := "100%";
                  stopColor := JS.or_string (color s) "#ffffff";
                  stopOpacity := AttrString "0" |} ])
  /\ (let at_x (x : option JS.number) :=
         grad_cx (bulbGradient JS.toString
                    {| intensity := Some n50; radius := Some n50;
                       positionX := x; positionY := Some n50;
                       color := Some "#ffffff"; blendMode := Some "screen" |}) in
      at_x None = "50%"
      /\ at_x (Some (JS.of_Z 25)) = "25%"
      /\ at_x (Some (JS.of_Z 100)) = "100%"
      /\ at_x (Some (JS.of_Z 0)) = "50%"
      /\ at_x (Some (JS.of_Z 0)) <> "0%").
Proof.
  split; [| split].
  - intros. apply renderCells_highlights.
  - intros toStr s g given. repeat split.
  - cbv zeta. repeat split; try (vm_compute; reflexivity).
    vm_compute. discriminate.
Qed.

End RenderProps.

(** ** Image import *)

Module ImportProps.

Import App.

(** *** Sampling *)

Lemma samplePixels_In (ps : list Spec.RGBA) :
  forall (k : nat) (s : SampledPixel),
    In s (samplePixels
            (flat_map (fun p => [Spec.red p; Spec.green p; Spec.blue p;
                                 Spec.alpha p]) ps)
            (4 * N.of_nat k))
    <-> exists (j : nat) (p : Spec.RGBA),
          nth_error ps j = Some p /\ (Spec.alpha p > ALPHA_THRESHOLD)%Z
          /\ s = Spec.sampled (k + j) p.
Proof.
  induction ps as [| q ps IH]; intros k s.
  - cbn. split; [contradiction |]. intros ([| j] & p & H & _); discriminate.
  - cbn [flat_map app samplePixels].
    replace (4 * N.of_nat k + 4)%N with (4 * N.of_nat (S k))%N by lia.
    assert (Ek : (4 * N.of_nat k / 4)%N = N.of_nat k).
    { rewrite N.mul_comm. apply N.div_mul. discriminate. }
    rewrite Ek.
    assert (Hrest : In s (samplePixels
                            (flat_map (fun p => [Spec.red p; Spec.green p;
                                                 Spec.blue p; Spec.alpha p]) ps)
                            (4 * N.of_nat (S k)))
                    <-> exists j p, nth_error ps j = Some p
                                    /\ (Spec.alpha p > ALPHA_THRESHOLD)%Z
                                    /\ s = Spec.sampled (k + S j) p).
    { rewrite IH. split; intros (j & p & H1 & H2 & H3); exists j, p;
        (split; [exact H1 | split; [exact H2 |]]); rewrite H3; f_equal; lia. }
    destruct (Z.gtb_spec (Spec.alpha q) ALPHA_THRESHOLD) as [Ha | Ha].
    + cbn [In]. rewrite Hrest. split.
      * intros [<- | (j & p & H1 & H2 & H3)].
        -- exists 0%nat, q. rewrite Nat.add_0_r.
           split; [reflexivity | split; [lia | reflexivity]].
        -- exists (S j), p. auto.
      * intros ([| j] & p & H1 & H2 & H3).
        -- left. injection H1 as <-. rewrite Nat.add_0_r in H3. symmetry.
           exact H3.
        -- right. exists j, p. auto.
    + rewrite Hrest. split.
      * intros (j & p & H1 & H2 & H3). exists (S j), p. auto.
      * intros ([| j] & p & H1 & H2 & H3).
        -- injection H1 as <-. lia.
        -- exists j, p. auto.
Qed.

(** The rows of an image of width [w], one after the other. *)
Lemma nth_error_concat_row {A : Type} (w : nat) (rows : list (list A)) :
  Forall (fun row => List.length row = w) rows ->
  forall (y x : nat) (row : list A) (p : A),
    nth_error rows y = Some row -> nth_error row x = Some p ->
    nth_error (List.concat rows) (y * w + x) = Some p.
Proof.
  induction 1 as [| r rows Hr _ IH]; intros y x row p Hy Hx.
  - destruct y; discriminate.
  - destruct y as [| y]; cbn [List.concat].
    + injection Hy as ->. cbn [Nat.mul Nat.add].
      rewrite nth_error_app1; [exact Hx |].
      apply nth_error_Some. congruence.
    + rewrite nth_error_app2 by (rewrite Hr; cbn [Nat.mul]; lia).
      replace (S y * w + x - List.length r)%nat with (y * w + x)%nat
        by (rewrite Hr; cbn [Nat.mul]; lia).
      exact (IH y x row p Hy Hx).
Qed.

Lemma nth_error_concat_inv {A : Type} (w : nat) (rows : list (list A)) :
  Forall (fun row => List.length row = w) rows ->
  forall (j : nat) (p : A),
    nth_error (List.concat rows) j = Some p ->
    exists (y x : nat) (row : list A),
      nth_error rows y = Some row /\ nth_error row x = Some p
      /\ j = (y * w + x)%nat.
Proof.
  induction 1 as [| r rows Hr _ IH]; intros j p Hj.
  - destruct j; discriminate.
  - cbn [List.concat] in Hj.
    destruct (Nat.lt_ge_cases j (List.length r)) as [L | L].
    + rewrite nth_error_app1 in Hj by exact L.
      exists 0%nat, j, r. auto.
    + rewrite nth_error_app2 in Hj by exact L.
      destruct (IH _ _ Hj) as (y & x & row & Hy & Hx & E).
      exists (S y), x, row. split; [exact Hy | split; [exact Hx |]].
      cbn [Nat.mul]. lia.
Qed.

Lemma sampled_inj (j k : nat) (p q : Spec.RGBA) :
  Spec.sampled j p = Spec.sampled k q -> j = k.
Proof. unfold Spec.sampled. intros H. injection H as _ _ _ H. lia. Qed.

(** *** The handler *)

Section Handler.

Variable kMeansClustering : list SampledPixel -> JS.number -> list Cluster.
Variable rgbToHex : Z -> Z -> Z -> string.
Variable resizeGrid : JS.number -> JS.number -> AppState -> AppState.

Local Notation handleImageImport :=
  (handleImageImport kMeansClustering rgbToHex).
Local Notation paintClusters := (paintClusters rgbToHex).
Local Notation apply_effects := (apply_effects resizeGrid).

(** An import that goes through: the grid is resized, then the sampled
    pixels go to the quantizer and the grid painted from its clusters is
    stored. *)
Lemma handleImageImport_accepts (env : ImportEnv) (url : string)
    (settings : ImportSettings) :
  JS.truthy_string url = true ->
  let targetWidth := parseInt (settings_width settings) in
  let targetHeight := parseInt (settings_height settings) in
  let colorLimit := parseInt (settings_maxColors settings) in
  validSettings targetWidth targetHeight colorLimit = true ->
  image_loads env = true -> has_context env = true ->
  let pixels := samplePixels (imageData env targetWidth targetHeight) 0 in
  let painted :=
    paintClusters (to_N targetWidth) (to_N targetHeight)
      (kMeansClustering pixels colorLimit) in
  handleImageImport env (Some url) (Some settings)
  = [ ResizeGrid targetWidth targetHeight;
      KMeansClustering pixels colorLimit;
      SetColorHistory (snd painted);
      SetPixelGrid (fst painted);
      SetHasDrawn true;
      ToggleImportModal false;
      SetImportImageUrl None ].
Proof.
  intros Hu tw th k Hv Hl Hc pixels painted.
  unfold App.handleImageImport. rewrite Hu. cbn [negb].
  fold tw th k. rewrite Hv, Hl, Hc. cbn [negb].
  fold pixels. fold painted. destruct painted as [grid colors]. reflexivity.
Qed.

(** The effects of a rejected import. *)
Lemma handleImageImport_rejects (env : ImportEnv) (url : option string)
    (settings : ImportSettings) :
  validSettings (parseInt (settings_width settings))
    (parseInt (settings_height settings))
    (parseInt (settings_maxColors settings)) = false ->
  handleImageImport env url (Some settings)
  = match url with
    | Some u =>
        if JS.truthy_string u then
          [ ConsoleError "Import failed: Invalid width, height, or max colors.";
            Alert "Invalid import settings. Width/Height must be > 0, Max Colors must be between 2 and 256." ]
        else
          [ ConsoleError "Import failed: Missing image data or settings.";
            ToggleImportModal false; SetImportImageUrl None ]
    | None =>
        [ ConsoleError "Import failed: Missing image data or settings.";
          ToggleImportModal false; SetImportImageUrl None ]
    end.
Proof.
  intros Hv. unfold App.handleImageImport. destruct url as [u |]; [| reflexivity].
  destruct (JS.truthy_string u); cbn [negb]; [| reflexivity].
  rewrite Hv. reflexivity.
Qed.

End Handler.

Lemma validSettings_false (w h k : JS.number) :
  (JS.gt w n0 = false \/ JS.gt h n0 = false
   \/ JS.ge k n2 = false \/ JS.le k (JS.of_Z 256) = false)
  <-> validSettings w h k = false.
Proof.
  unfold validSettings.
  destruct (JS.gt w n0), (JS.gt h n0), (JS.ge k n2), (JS.le k (JS.of_Z 256));
    cbn; intuition congruence.
Qed.

(** C7.  For an image of width [w] drawn at the target resolution: the
    pixel at column [x] of row [y] is in the sampled list, as the record of
    its red, green and blue bytes with the index [y * w + x], exactly when
    its alpha is above 128; the sampled list holds nothing else; and that
    list is what an import that goes through hands to the quantizer. *)
Theorem import_sampling (rows : list (list Spec.RGBA)) (w : nat) :
  Forall (fun row => List.length row = w) rows ->
  let pixels := samplePixels (Spec.image_bytes rows) 0 in
  (forall (x y : nat) (row : list Spec.RGBA) (p : Spec.RGBA),
      nth_error rows y = Some row -> nth_error row x = Some p ->
      (In (Spec.sampled (y * w + x) p) pixels <-> (Spec.alpha p > 128)%Z))
  /\ (forall s : SampledPixel,
        In s pixels ->
        exists (x y : nat) (row : list Spec.RGBA) (p : Spec.RGBA),
          nth_error rows y = Some row /\ nth_error row x = Some p
          /\ (Spec.alpha p > 128)%Z /\ s = Spec.sampled (y * w + x) p)
  /\ (forall (kMeansClustering : list SampledPixel -> JS.number -> list Cluster)
        (rgbToHex : Z -> Z -> Z -> string) (env : ImportEnv) (url : string)
        (settings : ImportSettings),
        let targetWidth := parseInt (settings_width settings) in
        let targetHeight := parseInt (settings_height settings) in
        let colorLimit := parseInt (settings_maxColors settings) in
        JS.truthy_string url = true ->
        validSettings targetWidth targetHeight colorLimit = true ->
        image_loads env = true -> has_context env = true ->
        imageData env targetWidth targetHeight = Spec.image_bytes rows ->
        nth_error
          (handleImageImport kMeansClustering rgbToHex env (Some url)
             (Some settings)) 1
        = Some (KMeansClustering pixels colorLimit)).
Proof.
  intros Hw pixels.
  assert (Hin : forall s, In s pixels <->
                 exists j p, nth_error (List.concat rows) j = Some p
                             /\ (Spec.alpha p > 128)%Z
                             /\ s = Spec.sampled j p).
  { intros s. unfold pixels, Spec.image_bytes.
    exact (samplePixels_In (List.concat rows) 0 s). }
  split; [| split].
  - intros x y row p Hy Hx.
    pose proof (nth_error_concat_row w rows Hw y x row p Hy Hx) as Hp.
    rewrite Hin. split.
    + intros (j & q & Hj & Ha & E). apply sampled_inj in E as Ej.
      subst j. rewrite Hp in Hj. injection Hj as <-. exact Ha.
    + intros Ha. exists (y * w + x)%nat, p. auto.
  - intros s Hs. apply Hin in Hs. destruct Hs as (j & p & Hj & Ha & ->).
    destruct (nth_error_concat_inv w rows Hw j p Hj)
      as (y & x & row & Hy & Hx & ->).
    exists x, y, row, p. auto.
  - intros kMeansClustering rgbToHex env url settings tw th k Hu Hv Hl Hc Hd.
    rewrite (handleImageImport_accepts kMeansClustering rgbToHex env url
               settings Hu Hv Hl Hc).
    cbn [nth_error]. fold tw th. rewrite Hd. reflexivity.
Qed.

(** The theorem on an image of two rows of two pixels, one of them
    transparent. *)
Lemma import_sampling_witness :
  Forall (fun row : list Spec.RGBA => List.length row = 2%nat)
    [[Spec.Build_RGBA 0 0 0 128; Spec.Build_RGBA 255 0 0 255];
     [Spec.Build_RGBA 255 0 0 255; Spec.Build_RGBA 0 0 0 128]]
  /\ (In (Spec.sampled (1 * 2 + 0) (Spec.Build_RGBA 255 0 0 255))
        (samplePixels
           (Spec.image_bytes
              [[Spec.Build_RGBA 0 0 0 128; Spec.Build_RGBA 255 0 0 255];
               [Spec.Build_RGBA 255 0 0 255; Spec.Build_RGBA 0 0 0 128]]) 0)
      <-> (Spec.alpha (Spec.Build_RGBA 255 0 0 255) > 128)%Z).
Proof.
  set (opaque := Spec.Build_RGBA 255 0 0 255).
  set (clear := Spec.Build_RGBA 0 0 0 128).
  assert (Hw : Forall (fun row : list Spec.RGBA => List.length row = 2%nat)
                 [[clear; opaque]; [opaque; clear]]).
  { repeat constructor. }
  split; [exact Hw |].
  exact (proj1 (import_sampling [[clear; opaque]; [opaque; clear]] 2 Hw)
           0%nat 1%nat [opaque; clear] opaque eq_refl eq_refl).
Defined.

(** C8.  When the parsed width is not above 0, or the parsed height is not
    above 0, or the parsed number of colours is not within [2, 256], the
    handler returns before any processing: none of its effects resizes the
    grid, calls the quantizer or sets the pixel grid, the colour history or
    the drawn flag, and the state they leave has the grid dimensions, the
    pixel grid, the colour history and the quantizer's call count it had.
    With image data present its only effects are the error message and the
    alert, and the state is left as it was. *)
Theorem import_rejects_invalid_settings
    (kMeansClustering : list SampledPixel -> JS.number -> list Cluster)
    (rgbToHex : Z -> Z -> Z -> string)
    (resizeGrid : JS.number -> JS.number -> AppState -> AppState)
    (env : ImportEnv) (url : option string) (settings : ImportSettings)
    (st : AppState) :
  let targetWidth := parseInt (settings_width settings) in
  let targetHeight := parseInt (settings_height settings) in
  let colorLimit := parseInt (settings_maxColors settings) in
  (JS.gt targetWidth n0 = false \/ JS.gt targetHeight n0 = false
   \/ JS.ge colorLimit n2 = false \/ JS.le colorLimit (JS.of_Z 256) = false) ->
  let effects :=
    handleImageImport kMeansClustering rgbToHex env url (Some settings) in
  let st' := apply_effects resizeGrid st effects in
  (forall e : effect,
      In e effects ->
      match e with
      | ResizeGrid _ _ | KMeansClustering _ _ | SetColorHistory _
      | SetPixelGrid _ | SetHasDrawn _ => False
      | _ => True
      end)
  /\ gridDimensions st' = gridDimensions st
  /\ pixelGrid st' = pixelGrid st
  /\ colorHistory st' = colorHistory st
  /\ hasDrawn st' = hasDrawn st
  /\ quantizerCalls st' = quantizerCalls st
  /\ (forall u : string,
        url = Some u -> JS.truthy_string u = true ->
        effects
        = [ ConsoleError "Import failed: Invalid width, height, or max colors.";
            Alert "Invalid import settings. Width/Height must be > 0, Max Colors must be between 2 and 256." ]
        /\ st' = st).
Proof.
  intros tw th k Hbad effects st'. apply validSettings_false in Hbad.
  pose proof (handleImageImport_rejects kMeansClustering rgbToHex env url
                settings Hbad) as E.
  fold effects in E. unfold st'. rewrite E. clear E.
  destruct url as [u |]; [destruct (JS.truthy_string u) eqn:Hu |].
  - split; [intros e [<- | [<- | []]]; exact I |].
    do 5 (split; [reflexivity |]).
    intros u' _ _. split; reflexivity.
  - split; [intros e [<- | [<- | [<- | []]]]; exact I |].
    do 5 (split; [reflexivity |]).
    intros u' Hu' Ht. injection Hu' as ->. congruence.
  - split; [intros e [<- | [<- | [<- | []]]]; exact I |].
    do 5 (split; [reflexivity |]).
    discriminate.
Qed.

(** The theorem on a width of 0. *)
Lemma import_rejects_invalid_settings_witness :
  JS.gt (parseInt "0") n0 = false
  /\ handleImageImport (fun _ _ => []) (fun _ _ _ => "#000000")
       {| image_loads := true; has_context := true;
          imageData := fun _ _ => [] |}
       (Some "data:image/png;base64,AAAA")
       (Some {| settings_width := "0"; settings_height := "16";
                settings_maxColors := "8" |})
     = [ ConsoleError "Import failed: Invalid width, height, or max colors.";
         Alert "Invalid import settings. Width/Height must be > 0, Max Colors must be between 2 and 256." ].
Proof.
  assert (Hw : JS.gt (parseInt "0") n0 = false) by (vm_compute; reflexivity).
  split; [exact Hw |].
  exact (proj1
           (proj2 (proj2 (proj2 (proj2 (proj2 (proj2
              (import_rejects_invalid_settings (fun _ _ => [])
                 (fun _ _ _ => "#000000") (fun _ _ st => st)
                 {| image_loads := true; has_context := true;
                    imageData := fun _ _ => [] |}
                 (Some "data:image/png;base64,AAAA")
                 {| settings_width := "0"; settings_height := "16";
                    settings_maxColors := "8" |}
                 {| gridDimensions :=
                      {| dim_width := n5; dim_height := n5 |};
                    pixelGrid := []; colorHistory := []; hasDrawn := false;
                    importModalOpen := true; importImageUrl := None;
                    quantizerCalls := 0 |}
                 (or_introl Hw)))))))
              "data:image/png;base64,AAAA" eq_refl eq_refl)).
Defined.

End ImportProps.

(** ** The definitions at work *)

Module Examples.

Import SVGRenderer App.

Example parseInt_examples :
  parseInt "16" = JS.of_Z 16 /\ parseInt "  -42px" = JS.of_Z (-42)
  /\ parseInt "" = JS.NaN /\ parseInt "abc" = JS.NaN
  /\ parseInt "0x10" = JS.of_Z 0.
Proof. repeat split. Qed.

Example square_path :
  fst (createShapePath JS.toString (fun a => a) (fun a => a) n3 empty_cache
         (JS.of_Z 1) (JS.of_Z 1) (JS.of_Z 8) "rectangle" None None)
  = "M 1,1 H 9 V 9 H 1 Z".
Proof. vm_compute. reflexivity. Qed.

Example diamond_path :
  fst (createShapePath JS.toString (fun a => a) (fun a => a) n3 empty_cache
         (JS.of_Z 0) (JS.of_Z 0) (JS.of_Z 10) "diamond" None None)
  = "M 5,0 L 10,5 L 5,10 L 0,5 Z".
Proof. vm_compute. reflexivity. Qed.

(** A 2 x 2 grid with three coloured cells, glow and bulb enabled: the keys
    of the elements in document order. *)
Example renderPixels_keys :
  match
    renderPixels JS.toString (fun a => a) (fun a => a) n3 (JS.of_Z 8)
      (JS.of_Z 2)
      [[Some "#ff0000"; None]; [Some "#00ff00"; Some "#0000ff"]]
      None "rectangle" None true
      {| glow_size := None; glow_spread := None; glow_offsetX := None;
         glow_offsetY := None; glow_opacity := None; glow_blendMode := None |}
      true
      {| intensity := None; radius := None; positionX := None;
         positionY := None; color := None; blendMode := None |}
      empty_cache
      {| startX := JS.of_Z 0; endX := JS.of_Z 2;
         startY := JS.of_Z 0; endY := JS.of_Z 2 |}
  with
  | Done (els, cache) => (map key els, cache_size cache)
  | Loops => ([], 0%nat)
  end
  = ([ "0-0-glow"; "0-1-glow"; "1-1-glow";
       "0-0-pixel"; "0-1-pixel"; "1-1-pixel";
       "0-0-bulb"; "0-1-bulb"; "1-1-bulb" ], 3%nat).
Proof. vm_compute. reflexivity. Qed.

(** The grid lines of scenario C: boundaries 0 to 4 each way. *)
Example gridLines_keys :
  match
    gridLines JS.toString (JS.of_Z 4) (JS.of_Z 4) (JS.of_Z 8) (JS.of_Z 2) true
      (visibleArea (JS.of_Z 4) (JS.of_Z 4) (JS.of_Z 8) (JS.of_Z 2)
         {| left := JS.of_Z 0; top := JS.of_Z 0; width := JS.of_Z 15;
            height := JS.of_Z 15; scale := JS.of_Z 1 |})
  with
  | Done (Some lines) => map line_key lines
  | _ => []
  end
  = ["v0"; "v1"; "v2"; "v3"; "v4"; "h0"; "h1"; "h2"; "h3"; "h4"].
Proof. vm_compute. reflexivity. Qed.

(** The export of the same grid: the passes in order. *)
Example performExport_passes :
  match
    performExport (JS.of_Z 8) (JS.of_Z 2)
      {| dim_width := JS.of_Z 2; dim_height := JS.of_Z 2 |}
      [[Some "#ff0000"; None]; [Some "#00ff00"; Some "#0000ff"]]
      None "canvas"
      {| enabled := false; topLeft := n0; topRight := n0; bottomLeft := n0;
         bottomRight := n0 |}
      "rectangle" true
      {| glow_size := None; glow_spread := None; glow_offsetX := None;
         glow_offsetY := None; glow_opacity := None; glow_blendMode := None |}
      true
      {| intensity := None; radius := None; positionX := None;
         positionY := None; color := None; blendMode := None |}
      {| format := "png"; export_scale := n1; padding := n0;
         includeGrid := true; includeBackground := false |}
  with
  | Some (Done ops) => map Spec.pass_of ops
  | _ => []
  end
  = [ None; None; None; None; None; None;
      Some 0; Some 0; Some 0; Some 1; Some 1; Some 1; Some 2; Some 2; Some 2;
      Some 3; None ]%nat.
Proof. vm_compute. reflexivity. Qed.

(** 1001 calls with 1001 sizes: the first key is gone, the second is now
    the oldest, and 1000 bindings are left. *)
Example cache_evicts_oldest :
  let calls :=
    map (fun k =>
           {| Spec.call_x := n0; Spec.call_y := n0;
              Spec.call_size := JS.of_Z (Z.of_nat k);
              Spec.call_shape := "rectangle";
              Spec.call_cornerRadius := None;
              Spec.call_customShape := None |}) (seq 0 1001) in
  let cache :=
    Spec.run_calls JS.toString (fun a => a) (fun a => a) n3 empty_cache calls in
  (cache_size cache,
   cache_first_key cache,
   cache_has cache
     (Spec.key_of JS.toString
        (hd (Spec.Build_Call n0 n0 n0 "" None None) calls)))
  = (1000%nat, Some "0_0_1_rectangle_null_", false).
Proof. vm_compute. reflexivity. Qed.

(** The sampled pixels of a 2 x 2 image with one transparent pixel. *)
Example samplePixels_example :
  samplePixels [255; 0; 0; 255;  0; 255; 0; 128;
                0; 0; 255; 129;  9; 9; 9; 0]%Z 0
  = [ {| r := 255; g := 0; b := 0; index := 0 |};
      {| r := 0; g := 0; b := 255; index := 2 |} ].
Proof. reflexivity. Qed.

End Examples.

(** ** Pointer handlers and viewport tracking *)

Module HandlerProps.

Import SVGRenderer NumberFacts.

Lemma withinGrid_inside (gridWidth gridHeight : JS.number)
    (coords : GridCoordinates) :
  withinGrid gridWidth gridHeight coords = true ->
  Spec.inside_grid gridWidth gridHeight coords.
Proof.
  unfold withinGrid, Spec.inside_grid. intros H.
  apply andb_prop in H. destruct H as [H Hy2].
  apply andb_prop in H. destruct H as [H Hx2].
  apply andb_prop in H. destruct H as [Hx1 Hy1].
  revert Hx1 Hx2 Hy1 Hy2.
  destruct (gridX coords) as [x | | |]; try discriminate;
    destruct (gridY coords) as [y | | |]; try discriminate;
    try (destruct gridWidth; discriminate);
    try (destruct gridHeight; discriminate).
  intros Hx1 Hx2 Hy1 Hy2.
  exists x, y. repeat split; try assumption.
  - unfold JS.ge, JS.le, n0, JS.of_Z in Hx1. apply Qle_alt. intros E.
    change (Q2Qc (inject_Z 0) ?= x)%Qc with (this (Q2Qc 0) ?= this x)%Q in Hx1.
    rewrite E in Hx1. discriminate.
  - unfold JS.ge, JS.le, n0, JS.of_Z in Hy1. apply Qle_alt. intros E.
    change (Q2Qc (inject_Z 0) ?= y)%Qc with (this (Q2Qc 0) ?= this y)%Q in Hy1.
    rewrite E in Hy1. discriminate.
Qed.


Section Handlers.

Variables gridWidth gridHeight pixelSize gridGap : JS.number.
Variables onClick onCanvasMouseDown onCanvasMouseMove : bool.
Variables onCanvasMouseUp onCanvasMouseLeave : bool.

Let step_ :=
  step gridWidth gridHeight pixelSize gridGap onClick onCanvasMouseDown
    onCanvasMouseMove onCanvasMouseUp onCanvasMouseLeave.
Let steps_ :=
  steps gridWidth gridHeight pixelSize gridGap onClick onCanvasMouseDown
    onCanvasMouseMove onCanvasMouseUp onCanvasMouseLeave.

Lemma steps_cons (c : Component) (dom : option Measurement) (ev : event)
    (rest : list (option Measurement * event)) :
  steps_ c ((dom, ev) :: rest)
  = (fst (steps_ (fst (step_ dom c ev)) rest),
     (snd (step_ dom c ev) ++ snd (steps_ (fst (step_ dom c ev)) rest))%list).
Proof.
  unfold steps_, step_. cbn [steps].
  destruct (step _ _ _ _ _ _ _ _ _ dom c ev) as [c1 out1]. cbn [fst snd].
  destruct (steps _ _ _ _ _ _ _ _ _ c1 rest) as [c2 out2]. reflexivity.
Qed.

Lemma invoke_Forall (P : output -> Prop) (prop : bool) (o : output) :
  P o -> Forall P (invoke prop o).
Proof. intros H. destruct prop; cbn; auto. Qed.

Lemma step_mouse_inside (dom : option Measurement) (c : Component)
    (ev : event) :
  Forall (Spec.mouse_callback_inside gridWidth gridHeight)
    (snd (step_ dom c ev)).
Proof.
  unfold step_, step.
  destruct ev; cbn [fst snd];
    unfold handleClick, handleMouseDown, handleMouseUp, handleMouseMove,
      handleMouseLeave, handleTouchStart, handleTouchMove, handleTouchEnd,
      handleTouchCancel, touchTimeout, mouseMoveFrame, touchMoveFrame;
    cbn [fst snd].
  - constructor.
  - constructor.
  - destruct (rafRef (refs c)) as [[| e | touch] |]; cbn [fst snd].
    + constructor.
    + unfold mouseMoveFrame.
      destruct (withinGrid _ _ _) eqn:W; [| constructor].
      apply invoke_Forall. cbn. apply withinGrid_inside. exact W.
    + unfold touchMoveFrame. apply invoke_Forall. exact I.
    + constructor.
  - destruct (touchTimeoutRef (refs c)); cbn [fst snd]; [| constructor].
    destruct (negb _); [| constructor]. apply invoke_Forall. exact I.
  - destruct (withinGrid _ _ _); [| constructor].
    apply invoke_Forall. exact I.
  - apply Forall_app. split; [| repeat constructor].
    destruct (withinGrid _ _ _) eqn:W; [| constructor].
    apply invoke_Forall. cbn. apply withinGrid_inside. exact W.
  - apply Forall_app. split; [| repeat constructor].
    destruct (withinGrid _ _ _) eqn:W; [| constructor].
    apply invoke_Forall. cbn. apply withinGrid_inside. exact W.
  - repeat constructor.
  - apply Forall_app. split; [| repeat constructor].
    apply invoke_Forall. exact I.
  - repeat constructor.
  - destruct (option_map svgRect dom); [| constructor].
    destruct others; repeat constructor.
  - destruct (option_map svgRect dom); [| constructor].
    destruct (_ || _); repeat constructor.
  - destruct (option_map svgRect dom); [| constructor]. cbn [snd].
    constructor; [exact I |].
    destruct (match touches with [] => false | _ :: _ => _ end);
      [constructor |].
    apply Forall_app. split; apply invoke_Forall; exact I.
  - apply invoke_Forall. exact I.
Qed.

Lemma steps_mouse_inside (evs : list (option Measurement * event)) :
  forall c : Component,
    Forall (Spec.mouse_callback_inside gridWidth gridHeight)
      (snd (steps_ c evs)).
Proof.
  induction evs as [| [dom ev] rest IH]; intros c.
  - constructor.
  - rewrite steps_cons. cbn [snd]. apply Forall_app. split.
    + apply step_mouse_inside.
    + apply IH.
Qed.

Lemma click_inside_grid (dom : option Measurement) (c : Component)
    (e : PointerEvent) :
  Forall (Spec.click_inside gridWidth gridHeight) (snd (step_ dom c (Click e))).
Proof.
  unfold step_, step, handleClick. cbn [fst snd].
  destruct (withinGrid _ _ _) eqn:W; [| constructor].
  apply invoke_Forall. cbn. apply withinGrid_inside. exact W.
Qed.

(** A burst of mouse moves leaves the viewport alone, asks only for
    [preventDefault] and leaves the frame of its last move pending. *)
Lemma mouse_moves_pending (moves : list (option Measurement * PointerEvent)) :
  forall (c : Component) (dom : option Measurement) (e : PointerEvent),
    steps_ c (Spec.mouse_moves (moves ++ [(dom, e)]))
    = ({| viewport := viewport c;
          refs := {| rafRef := Some (MouseMoveFrame e);
                     multiTouchRef := multiTouchRef (refs c);
                     touchTimeoutRef := touchTimeoutRef (refs c) |} |},
       repeat PreventDefault (S (List.length moves))).
Proof.
  induction moves as [| [d0 e0] rest IH]; intros c dom e.
  - reflexivity.
  - change (Spec.mouse_moves (((d0, e0) :: rest) ++ [(dom, e)]))
      with ((d0, MouseMove e0) :: Spec.mouse_moves (rest ++ [(dom, e)])).
    rewrite steps_cons, IH. reflexivity.
Qed.

Lemma steps_app (evs1 evs2 : list (option Measurement * event)) :
  forall c : Component,
    steps_ c (evs1 ++ evs2)
    = (fst (steps_ (fst (steps_ c evs1)) evs2),
       (snd (steps_ c evs1) ++ snd (steps_ (fst (steps_ c evs1)) evs2))%list).
Proof.
  induction evs1 as [| [dom ev] rest IH]; intros c.
  - cbn [app]. change (steps_ c []) with (c, @nil output). cbn [fst snd app].
    destruct (steps_ c evs2). reflexivity.
  - change (((dom, ev) :: rest) ++ evs2)%list
      with ((dom, ev) :: (rest ++ evs2))%list.
    rewrite !steps_cons, IH. cbn [fst snd]. rewrite app_assoc. reflexivity.
Qed.









End Handlers.

Lemma abs_self_difference (a t : JS.number) :
  JS.lt n0 t = true -> JS.gt (JS.Math.abs (JS.sub a a)) t = false.
Proof.
  intros Ht. destruct a as [q | | |]; try (destruct t; reflexivity).
  unfold JS.sub, JS.neg, JS.add. rewrite Qcplus_opp_r.
  change (JS.Math.abs (JS.Fin (Q2Qc 0))) with n0.
  unfold JS.gt.
  destruct t as [x | | |]; try reflexivity; try discriminate.
  unfold JS.lt, n0, JS.of_Z in *.
  change (Q2Qc (inject_Z 0)) with (Q2Qc 0) in *.
  unfold Qccompare in *. rewrite <- Qcompare_antisym.
  destruct (Q2Qc 0 ?= x)%Q; try discriminate. reflexivity.
Qed.

(** X1.  Whatever happens to the component, a callback called by a mouse
    handler ([handleMouseDown], [handleMouseUp], the frame of
    [handleMouseMove], and [handleClick] for its click) gets the
    coordinates of a cell of the grid: finite numbers, not negative and
    below the grid size.  The [-1] of a missing element and a [NaN] from a
    degenerate geometry never reach them. *)
Theorem mouse_handlers_stay_inside_grid
    (gridWidth gridHeight pixelSize gridGap : JS.number)
    (onClick onCanvasMouseDown onCanvasMouseMove : bool)
    (onCanvasMouseUp onCanvasMouseLeave : bool)
    (c : Component) (evs : list (option Measurement * event))
    (dom : option Measurement) (e : PointerEvent) :
  Forall (Spec.mouse_callback_inside gridWidth gridHeight)
    (snd (steps gridWidth gridHeight pixelSize gridGap onClick
            onCanvasMouseDown onCanvasMouseMove onCanvasMouseUp
            onCanvasMouseLeave c evs))
  /\ Forall (Spec.click_inside gridWidth gridHeight)
       (snd (step gridWidth gridHeight pixelSize gridGap onClick
               onCanvasMouseDown onCanvasMouseMove onCanvasMouseUp
               onCanvasMouseLeave dom c (Click e))).
Proof.
  split.
  - apply steps_mouse_inside.
  - apply click_inside_grid.
Qed.

(** X2.  Mouse moves are throttled to one per frame through the one
    [rafRef]: of a burst of moves before a frame only the last is reported,
    and a frame that was pending when the burst began is cancelled, a
    viewport update included, so that the viewport state stays as it
    was. *)
Theorem mouse_moves_keep_last_frame
    (gridWidth gridHeight pixelSize gridGap : JS.number)
    (onClick onCanvasMouseDown onCanvasMouseMove : bool)
    (onCanvasMouseUp onCanvasMouseLeave : bool)
    (c : Component) (moves : list (option Measurement * PointerEvent))
    (dom dom' : option Measurement) (e : PointerEvent) :
  steps gridWidth gridHeight pixelSize gridGap onClick onCanvasMouseDown
    onCanvasMouseMove onCanvasMouseUp onCanvasMouseLeave c
    (Spec.mouse_moves (moves ++ [(dom, e)]) ++ [(dom', AnimationFrame)])
  = ({| viewport := viewport c;
        refs := {| rafRef := None;
                   multiTouchRef := multiTouchRef (refs c);
                   touchTimeoutRef := touchTimeoutRef (refs c) |} |},
     (repeat PreventDefault (S (List.length moves))
      ++ mouseMoveFrame gridWidth gridHeight pixelSize gridGap
           onCanvasMouseMove (option_map svgRect dom') e)%list).
Proof.
  rewrite steps_app, mouse_moves_pending. cbn [fst snd].
  cbn [steps step rafRef refs viewport multiTouchRef touchTimeoutRef].
  rewrite app_nil_r. reflexivity.
Qed.



(** X4.  The timer of [handleTouchStart] is not cancelled by
    [handleTouchEnd]: when a single finger leaves before the 20 ms have
    passed, the mouse-up and the click are reported first and the
    mouse-down after them, when the timer runs. *)
Theorem short_tap_reports_up_before_down
    (gridWidth gridHeight pixelSize gridGap : JS.number)
    (onClick onCanvasMouseDown onCanvasMouseMove : bool)
    (onCanvasMouseUp onCanvasMouseLeave : bool)
    (c : Component) (m1 m2 : Measurement) (dom3 : option Measurement)
    (touch lifted : Touch) :
  let up :=
    getGridCoordinates gridWidth gridHeight pixelSize gridGap
      (Some (svgRect m2)) (touchEvent lifted n0) in
  let down :=
    getGridCoordinates gridWidth gridHeight pixelSize gridGap
      (option_map svgRect dom3) (touchEvent touch n1) in
  steps gridWidth gridHeight pixelSize gridGap onClick onCanvasMouseDown
    onCanvasMouseMove onCanvasMouseUp onCanvasMouseLeave c
    [ (Some m1, TouchStart touch []); (Some m2, TouchEnd [] [lifted]);
      (dom3, Timeout) ]
  = ({| viewport := viewport c;
        refs := {| rafRef := rafRef (refs c); multiTouchRef := false;
                   touchTimeoutRef := None |} |},
     ([PreventDefault; PreventDefault]
      ++ invoke onCanvasMouseUp (OnCanvasMouseUp (withButtons up n0) true)
      ++ invoke onClick (OnClick up)
      ++ invoke onCanvasMouseDown
           (OnCanvasMouseDown (withButtons down n1) true))%list).
Proof.
  intros up down. subst up down.
  cbn [steps step handleTouchStart handleTouchEnd touchTimeout option_map
       fst snd refs viewport rafRef multiTouchRef touchTimeoutRef negb app].
  rewrite app_nil_r, <- app_assoc. reflexivity.
Qed.

(** X5.  [updateViewport] settles at once: running it again on what the
    DOM answered leaves the state it produced, whatever the state before
    and whatever the numbers measured (zero sizes, which make the scale
    [NaN] or infinite, included). *)
Theorem updateViewport_settles
    (gridWidth pixelSize gridGap : JS.number) (dom : option Measurement)
    (prev : ViewportState) :
  updateViewport gridWidth pixelSize gridGap dom
    (updateViewport gridWidth pixelSize gridGap dom prev)
  = updateViewport gridWidth pixelSize gridGap dom prev.
Proof.
  destruct dom as [[rect [container |]] |]; try reflexivity.
  set (dom := Some {| svgRect := rect; containerRect := Some container |}).
  set (s := JS.div (rect_width rect) (totalWidth gridWidth pixelSize gridGap)).
  set (new := {| left := n0; top := n0;
                 width := JS.div (rect_width container) s;
                 height := JS.div (rect_height container) s;
                 scale := s |}).
  assert (Hnew : updateViewport gridWidth pixelSize gridGap dom new = new).
  { unfold updateViewport, dom. cbn [containerRect svgRect]. cbv zeta.
    fold s. subst new. cbn [width height scale].
    rewrite !abs_self_difference by reflexivity. reflexivity. }
  assert (Hcases : updateViewport gridWidth pixelSize gridGap dom prev = new
                   \/ updateViewport gridWidth pixelSize gridGap dom prev
                      = prev).
  { unfold updateViewport, dom. cbn [containerRect svgRect]. cbv zeta.
    fold s. fold new. destruct (_ || _); auto. }
  destruct Hcases as [E | E].
  - rewrite E. exact Hnew.
  - rewrite E. exact E.
Qed.



End HandlerProps.
(** ** From a cell to the screen and back *)

Module GeometryProps.

Import SVGRenderer NumberFacts.

Lemma Qfloor_unique (x : Q) (i : Z) :
  (inject_Z i <= x)%Q -> (x < inject_Z (i + 1))%Q -> Qfloor x = i.
Proof.
  intros Hl Hu.
  pose proof (Qfloor_le x) as H1. pose proof (Qlt_floor x) as H2.
  assert (A : (inject_Z i < inject_Z (Qfloor x + 1))%Q)
    by (eapply Qle_lt_trans; eassumption).
  assert (B : (inject_Z (Qfloor x) < inject_Z (i + 1))%Q)
    by (eapply Qle_lt_trans; eassumption).
  rewrite <- Zlt_Qlt in A, B. lia.
Qed.

(** The floor of a quotient of integers is their quotient. *)
Lemma Qfloor_quotient (p d : Z) :
  (0 < d)%Z -> Qfloor (inject_Z p / inject_Z d) = (p / d)%Z.
Proof.
  intros Hd.
  assert (Hq : (0 < inject_Z d)%Q).
  { change 0%Q with (inject_Z 0). rewrite <- Zlt_Qlt. exact Hd. }
  apply Qfloor_unique.
  - apply Qle_shift_div_l; [exact Hq |].
    rewrite <- inject_Z_mult, <- Zle_Qle.
    rewrite Z.mul_comm. apply Z.mul_div_le. exact Hd.
  - apply Qlt_shift_div_r; [exact Hq |].
    rewrite <- inject_Z_mult, <- Zlt_Qlt.
    rewrite Z.mul_comm. apply Z.mul_succ_div_gt. exact Hd.
Qed.

(** One axis of [getGridCoordinates] for a drawing of [count] cells of the
    whole size [cellSize] shown at [zoom] times its size, [zoom] a whole
    number: the pointer [p] units from the origin of the element. *)
Lemma axis_whole (origin zoom cellSize p count : Z) :
  (0 < cellSize)%Z -> (0 < zoom)%Z -> (1 <= count)%Z ->
  JS.Math.max n0
    (JS.Math.min
       (JS.Math.floor
          (JS.div
             (JS.div (JS.sub (JS.of_Z (origin + p)) (JS.of_Z origin))
                (JS.div (JS.of_Z (zoom * (count * cellSize)))
                   (JS.mul (JS.of_Z count) (JS.of_Z cellSize))))
             (JS.of_Z cellSize)))
       (JS.sub (JS.of_Z count) n1))
  = JS.of_Z (Z.max 0 (Z.min (p / (zoom * cellSize)) (count - 1))).
Proof.
  intros Hc Hz Hn. unfold JS.of_Z at 1 2 3 5 6.
  rewrite CoordinateProps.axis_value;
    [| apply CoordinateProps.of_Z_nonzero; lia
     | apply CoordinateProps.of_Z_nonzero; nia | exact Hn].
  f_equal. f_equal. f_equal.
  rewrite <- (Qfloor_quotient p (zoom * cellSize)) by nia.
  apply Qfloor_comp.
  rewrite CoordinateProps.this_quotient, !this_Q2Qc.
  rewrite !inject_Z_mult, inject_Z_plus.
  assert (Hc' : ~ (inject_Z cellSize == 0)%Q).
  { intros E. unfold Qeq in E. cbn in E. lia. }
  assert (Hz' : ~ (inject_Z zoom == 0)%Q).
  { intros E. unfold Qeq in E. cbn in E. lia. }
  assert (Hn' : ~ (inject_Z count == 0)%Q).
  { intros E. unfold Qeq in E. cbn in E. lia. }
  field. repeat split; assumption.
Qed.

(** X7.  The conversion inverts the drawing at a whole zoom.  For a grid
    with whole pixel size and gap, the svg element at a whole position and
    shown at [zoom] times its own size, [zoom] a whole number, and the
    pointer [p] and [q] whole units right of and below the origin of the
    element, all of magnitude below [2^52] so that the Numbers the code
    computes with are these integers: the cell returned is
    [(p div (zoom * cellSize), q div (zoom * cellSize))] clamped to the
    grid; so a pointer anywhere on the cell in column [i] and row [j] of
    the grid as it is shown yields exactly [(i, j)]. *)
Theorem pointer_in_cell_yields_cell
    (pixelSize gridGap rleft rtop zoom p q : Z) (btn : JS.number)
    (gridWidth gridHeight : Z) :
  let cellSize := (pixelSize + gridGap)%Z in
  let shown := (zoom * cellSize)%Z in
  let found :=
    getGridCoordinates (JS.of_Z gridWidth) (JS.of_Z gridHeight)
      (JS.of_Z pixelSize) (JS.of_Z gridGap)
      (Some {| rect_left := JS.of_Z rleft; rect_top := JS.of_Z rtop;
               rect_width := JS.of_Z (zoom * (gridWidth * cellSize));
               rect_height := JS.of_Z (zoom * (gridHeight * cellSize)) |})
      {| clientX := JS.of_Z (rleft + p); clientY := JS.of_Z (rtop + q);
         buttons := btn |} in
  (0 < cellSize)%Z -> (0 < zoom)%Z ->
  (1 <= gridWidth)%Z -> (1 <= gridHeight)%Z ->
  Forall Spec.small
    [pixelSize; gridGap; rleft; rtop; p; q; zoom * (gridWidth * cellSize);
     zoom * (gridHeight * cellSize)]%Z ->
  found
  = {| gridX := JS.of_Z (Z.max 0 (Z.min (p / shown) (gridWidth - 1)));
       gridY := JS.of_Z (Z.max 0 (Z.min (q / shown) (gridHeight - 1)));
       coord_buttons := btn |}
  /\ forall i j : Z,
       (0 <= i < gridWidth)%Z -> (0 <= j < gridHeight)%Z ->
       (shown * i <= p < shown * (i + 1))%Z ->
       (shown * j <= q < shown * (j + 1))%Z ->
       found
       = {| gridX := JS.of_Z i; gridY := JS.of_Z j; coord_buttons := btn |}.
Proof.
  intros cellSize shown found Hc Hz Hw Hh _.
  assert (E : found
              = {| gridX :=
                     JS.of_Z (Z.max 0 (Z.min (p / shown) (gridWidth - 1)));
                   gridY :=
                     JS.of_Z (Z.max 0 (Z.min (q / shown) (gridHeight - 1)));
                   coord_buttons := btn |}).
  { unfold found, getGridCoordinates, totalWidth, totalHeight.
    cbn [rect_left rect_top rect_width rect_height clientX clientY buttons].
    rewrite add_of_Z. fold cellSize.
    rewrite (axis_whole rleft zoom cellSize p gridWidth Hc Hz Hw).
    rewrite (axis_whole rtop zoom cellSize q gridHeight Hc Hz Hh).
    reflexivity. }
  split; [exact E |].
  intros i j Hi Hj Hp Hq. rewrite E.
  assert (Hs : (0 < shown)%Z) by (unfold shown; nia).
  assert (Ei : (p / shown = i)%Z).
  { symmetry. apply (Z.div_unique p shown i (p - shown * i)); lia. }
  assert (Ej : (q / shown = j)%Z).
  { symmetry. apply (Z.div_unique q shown j (q - shown * j)); lia. }
  rewrite Ei, Ej. f_equal; f_equal; lia.
Qed.

(** The theorem on a 4 x 4 grid of 10-unit cells shown at three times its
    size with its corner at (7, 9): the pointer at (96, 108) is 89 units
    right of the corner and 99 below it, on the cell in column 2 and
    row 3. *)
Lemma pointer_in_cell_yields_cell_witness :
  getGridCoordinates (JS.of_Z 4) (JS.of_Z 4) (JS.of_Z 8) (JS.of_Z 2)
    (Some {| rect_left := JS.of_Z 7; rect_top := JS.of_Z 9;
             rect_width := JS.of_Z 120; rect_height := JS.of_Z 120 |})
    {| clientX := JS.of_Z 96; clientY := JS.of_Z 108; buttons := n1 |}
  = {| gridX := JS.of_Z 2; gridY := JS.of_Z 3; coord_buttons := n1 |}.
Proof.
  assert (Hsmall : Forall Spec.small [8; 2; 7; 9; 89; 99; 120; 120]%Z).
  { repeat constructor. }
  exact (proj2 (pointer_in_cell_yields_cell 8 2 7 9 3 89 99 n1 4 4
                  eq_refl eq_refl ltac:(lia) ltac:(lia) Hsmall)
           2%Z 3%Z ltac:(lia) ltac:(lia) ltac:(lia) ltac:(lia)).
Defined.

End GeometryProps.

(** ** Adding and removing rows and columns *)

Module GridEditProps.

Import App NumberFacts.

(** *** Arrays indexed by numbers *)

Lemma as_index_of_nat (n : nat) : JS.as_index (Spec.of_nat n) = Some n.
Proof.
  unfold Spec.of_nat, JS.as_index, JS.of_Z.
  rewrite LayerProps.Qfloor_of_Z, Qc_eq_bool_refl.
  destruct (Z.leb_spec 0 (Z.of_nat n)); [| lia].
  cbn [andb]. rewrite Nat2Z.id. reflexivity.
Qed.

Lemma get_of_nat {A : Type} (l : list A) (n : nat) :
  JS.get l (Spec.of_nat n) = nth_error l n.
Proof. unfold JS.get. rewrite as_index_of_nat. reflexivity. Qed.

Lemma add_of_nat (a b : nat) :
  JS.add (Spec.of_nat a) (Spec.of_nat b) = Spec.of_nat (a + b).
Proof. unfold Spec.of_nat. rewrite add_of_Z, Nat2Z.inj_add. reflexivity. Qed.

Lemma n1_of_nat : n1 = Spec.of_nat 1.
Proof. reflexivity. Qed.

Lemma sub_of_nat (a b : nat) :
  (b <= a)%nat -> JS.sub (Spec.of_nat a) (Spec.of_nat b) = Spec.of_nat (a - b).
Proof.
  intros H. unfold Spec.of_nat. rewrite sub_of_Z, Nat2Z.inj_sub by exact H.
  reflexivity.
Qed.

Lemma le_of_nat (a b : nat) :
  JS.le (Spec.of_nat a) (Spec.of_nat b) = (a <=? b)%nat.
Proof.
  unfold Spec.of_nat. rewrite le_of_Z.
  destruct (Nat.leb_spec a b); [apply Z.leb_le | apply Z.leb_gt]; lia.
Qed.

Lemma for_range_of_nat (n : nat) :
  JS.for_range false n0 (Spec.of_nat n) = Some (map Spec.of_nat (seq 0 n)).
Proof.
  unfold n0, Spec.of_nat. rewrite LayerProps.for_range_excl_of_Z.
  unfold Spec.Z_range.
  replace (Z.to_nat (Z.of_nat n - 1 - 0 + 1)) with n by lia.
  rewrite map_map. reflexivity.
Qed.

(** *** One assignment *)

Lemma nth_error_update {A : Type} (l : list A) (v : A) :
  forall i i' : nat,
    (i < List.length l)%nat ->
    nth_error (firstn i l ++ v :: skipn (S i) l) i'
    = if (i' =? i)%nat then Some v else nth_error l i'.
Proof.
  induction l as [| a l IH]; intros i i' Hi; [cbn in Hi; lia |].
  destruct i as [| i]; destruct i' as [| i']; try reflexivity.
  cbn [firstn skipn app nth_error Nat.eqb].
  apply IH. cbn in Hi. lia.
Qed.

Lemma length_update {A : Type} (l : list A) (v : A) :
  forall i : nat,
    (i < List.length l)%nat ->
    List.length (firstn i l ++ v :: skipn (S i) l) = List.length l.
Proof.
  induction l as [| a l IH]; intros i Hi; [cbn in Hi; lia |].
  destruct i as [| i]; [reflexivity |].
  cbn [firstn skipn app List.length]. f_equal. apply IH. cbn in Hi. lia.
Qed.

Lemma Forall_update {A : Type} (P : A -> Prop) (l : list A) (v : A) :
  forall i : nat,
    Forall P l -> P v -> Forall P (firstn i l ++ v :: skipn (S i) l).
Proof.
  intros i Hl Hv. revert i.
  induction Hl as [| a l Ha Hl IH]; intros i.
  - destruct i; cbn; auto.
  - destruct i as [| i]; cbn [firstn skipn app].
    + constructor; assumption.
    + constructor; [exact Ha | apply IH].
Qed.

Lemma rectangular_row (w h : nat) (grid : Grid) (j : nat) :
  Spec.rectangular w h grid -> (j < h)%nat ->
  exists row, nth_error grid j = Some row /\ List.length row = w.
Proof.
  intros [Hh Hw] Hj.
  destruct (nth_error grid j) as [row |] eqn:E.
  - exists row. split; [reflexivity |].
    rewrite Forall_forall in Hw. apply Hw. eapply nth_error_In. exact E.
  - apply nth_error_None in E. lia.
Qed.

Lemma cell_outside_rows (w h : nat) (grid : Grid) (j i : nat) :
  Spec.rectangular w h grid -> (h <= j)%nat -> Spec.cell grid j i = None.
Proof.
  intros [Hh _] Hj. unfold Spec.cell.
  replace (nth_error grid j) with (@None (list (option string)));
    [reflexivity |].
  symmetry. apply nth_error_None. lia.
Qed.

Lemma cell_outside_columns (w h : nat) (grid : Grid) (j i : nat) :
  Spec.rectangular w h grid -> (w <= i)%nat -> Spec.cell grid j i = None.
Proof.
  intros Hr Hi. unfold Spec.cell.
  destruct (nth_error grid j) as [row |] eqn:E; [| reflexivity].
  assert (Hl : List.length row = w).
  { destruct Hr as [_ Hw]. rewrite Forall_forall in Hw. apply Hw.
    eapply nth_error_In. exact E. }
  replace (nth_error row i) with (@None (option string)); [reflexivity |].
  symmetry. apply nth_error_None. lia.
Qed.

(** Two grids of the same size whose cells agree are equal. *)
Lemma rectangular_ext (w h : nat) (g g' : Grid) :
  Spec.rectangular w h g -> Spec.rectangular w h g' ->
  (forall j i : nat, (j < h)%nat -> (i < w)%nat ->
                     Spec.cell g j i = Spec.cell g' j i) ->
  g = g'.
Proof.
  intros Hg Hg' Hc. apply nth_error_ext. intros j.
  destruct (Nat.lt_ge_cases j h) as [Hj | Hj].
  - destruct (rectangular_row w h g j Hg Hj) as (row & E & L).
    destruct (rectangular_row w h g' j Hg' Hj) as (row' & E' & L').
    rewrite E, E'. f_equal. apply nth_error_ext. intros i.
    destruct (Nat.lt_ge_cases i w) as [Hi | Hi].
    + specialize (Hc j i Hj Hi). unfold Spec.cell in Hc.
      rewrite E, E' in Hc.
      destruct (nth_error row i) as [c |] eqn:Ec;
        [| apply nth_error_None in Ec; lia].
      destruct (nth_error row' i) as [c' |] eqn:Ec';
        [| apply nth_error_None in Ec'; lia].
      congruence.
    + transitivity (@None (option string));
        [| symmetry]; apply nth_error_None; lia.
  - destruct Hg as [Hg _], Hg' as [Hg' _].
    transitivity (@None (list (option string)));
      [| symmetry]; apply nth_error_None; lia.
Qed.

Lemma readCell_of_nat (w h : nat) (pixelGrid : Grid) (j i : nat) :
  Spec.rectangular w h pixelGrid -> (j < h)%nat ->
  readCell pixelGrid (Spec.of_nat j) (Spec.of_nat i)
  = Some (Spec.cell pixelGrid j i).
Proof.
  intros Hr Hj. unfold readCell, Spec.cell. rewrite get_of_nat.
  destruct (rectangular_row w h pixelGrid j Hr Hj) as (row & E & _).
  rewrite E, get_of_nat. reflexivity.
Qed.

Lemma writeCell_of_nat (w h : nat) (grid : Grid) (j i : nat)
    (v : option string) :
  Spec.rectangular w h grid -> (j < h)%nat -> (i < w)%nat ->
  exists grid',
    writeCell grid (Spec.of_nat j) (Spec.of_nat i) v = Some grid'
    /\ Spec.rectangular w h grid'
    /\ forall j' i' : nat,
         Spec.cell grid' j' i'
         = if ((j' =? j) && (i' =? i))%nat then v else Spec.cell grid j' i'.
Proof.
  intros Hr Hj Hi.
  destruct (rectangular_row w h grid j Hr Hj) as (row & E & L).
  destruct Hr as [Hh Hw].
  unfold writeCell, writeRow. rewrite !as_index_of_nat, E.
  destruct (Nat.ltb_spec i (List.length row)); [| lia].
  eexists. split; [reflexivity |]. split; [split |].
  - rewrite length_update; [exact Hh | lia].
  - apply Forall_update; [exact Hw |].
    rewrite length_update; [exact L | lia].
  - intros j' i'. unfold Spec.cell.
    rewrite nth_error_update by lia.
    destruct (Nat.eqb_spec j' j) as [-> | Hne]; cbn [andb].
    + rewrite nth_error_update by lia. rewrite E.
      destruct (i' =? i)%nat; reflexivity.
    + reflexivity.
Qed.

Lemma blankGrid_of_nat (rows cols : nat) :
  blankGrid (Spec.of_nat rows) (Spec.of_nat cols)
  = Some (repeat (repeat None cols) rows).
Proof.
  unfold blankGrid. rewrite !as_index_of_nat.
  destruct rows; reflexivity.
Qed.

Lemma blank_rectangular (rows cols : nat) :
  Spec.rectangular cols rows (repeat (repeat None cols) rows).
Proof.
  split; [apply repeat_length |].
  apply Forall_forall. intros row H. apply repeat_spec in H. subst row.
  apply repeat_length.
Qed.

Lemma blank_cell (rows cols j i : nat) :
  Spec.cell (repeat (repeat None cols) rows) j i = None.
Proof.
  unfold Spec.cell.
  destruct (nth_error (repeat (repeat None cols) rows) j) as [row |] eqn:E;
    [| reflexivity].
  apply nth_error_In, repeat_spec in E. subst row.
  destruct (nth_error (repeat None cols) i) as [c |] eqn:Ec; [| reflexivity].
  apply nth_error_In, repeat_spec in Ec. exact Ec.
Qed.

(** Case analysis on the comparisons of a cell position. *)
Ltac cases_nat :=
  repeat match goal with
         | |- context [(?a =? ?b)%nat] => destruct (Nat.eqb_spec a b)
         | |- context [(?a <=? ?b)%nat] => destruct (Nat.leb_spec a b)
         | |- context [(?a <? ?b)%nat] => destruct (Nat.ltb_spec a b)
         end;
  cbn [andb negb orb]; try lia; try reflexivity;
  try (f_equal; lia).

(** *** The two loops

    The loops of all eight functions copy a block of [pixelGrid], whose
    corner is at row [sy] and column [sx], to the block of [newGrid] whose
    corner is at row [dy] and column [dx]. *)
Section Copy.

Variables (w h W0 H0 : nat) (pixelGrid : Grid).
Variables (dy dx sy sx : nat).
Variable body : JS.number -> JS.number -> Grid -> option Grid.

Hypothesis Hsrc : Spec.rectangular w h pixelGrid.
Hypothesis Hbody :
  forall (y x : nat) (grid : Grid),
    body (Spec.of_nat y) (Spec.of_nat x) grid
    = copyCell pixelGrid (Spec.of_nat (sy + y)) (Spec.of_nat (sx + x))
        (Spec.of_nat (dy + y)) (Spec.of_nat (dx + x)) grid.

Lemma copy_row (y : nat) (grid : Grid) :
  Spec.rectangular W0 H0 grid -> (sy + y < h)%nat -> (dy + y < H0)%nat ->
  forall k : nat,
    (dx + k <= W0)%nat ->
    exists grid',
      fold_left
        (fun (acc : option Grid) x =>
           match acc with
           | Some grid => body (Spec.of_nat y) x grid
           | None => None
           end)
        (map Spec.of_nat (seq 0 k)) (Some grid)
      = Some grid'
      /\ Spec.rectangular W0 H0 grid'
      /\ forall j i : nat,
           Spec.cell grid' j i
           = if ((j =? dy + y) && (dx <=? i) && (i <? dx + k))%nat
             then Spec.cell pixelGrid (sy + y) (i - dx + sx)
             else Spec.cell grid j i.
Proof.
  intros Hg Hs Hd. induction k as [| k IH]; intros Hk.
  - exists grid. split; [reflexivity |]. split; [exact Hg |].
    intros j i. cases_nat.
  - destruct IH as (g1 & E1 & R1 & C1); [lia |].
    rewrite seq_S, map_app, fold_left_app, E1. cbn [fold_left map Nat.add].
    rewrite Hbody. unfold copyCell.
    rewrite (readCell_of_nat w h pixelGrid _ _ Hsrc Hs).
    destruct (writeCell_of_nat W0 H0 g1 (dy + y) (dx + k)
                (Spec.cell pixelGrid (sy + y) (sx + k)) R1 Hd)
      as (g2 & E2 & R2 & C2); [lia |].
    exists g2. split; [exact E2 |]. split; [exact R2 |].
    intros j i. rewrite C2, C1. cases_nat.
Qed.

Lemma copy_rows (H W : nat) (grid : Grid) :
  Spec.rectangular W0 H0 grid -> (dx + W <= W0)%nat ->
  forall m : nat,
    (sy + m <= h)%nat -> (dy + m <= H0)%nat ->
    exists grid',
      fold_left
        (fun (acc : run (option Grid)) y =>
           match acc with
           | Done (Some grid) =>
               xs <- JS.for_range false n0 (Spec.of_nat W) ;;
               Done (fold_left
                       (fun (acc : option Grid) x =>
                          match acc with
                          | Some grid => body y x grid
                          | None => None
                          end)
                       xs (Some grid))
           | _ => acc
           end)
        (map Spec.of_nat (seq 0 m)) (Done (Some grid))
      = Done (Some grid')
      /\ Spec.rectangular W0 H0 grid'
      /\ forall j i : nat,
           Spec.cell grid' j i
           = if ((dy <=? j) && (j <? dy + m) && (dx <=? i)
                 && (i <? dx + W))%nat
             then Spec.cell pixelGrid (j - dy + sy) (i - dx + sx)
             else Spec.cell grid j i.
Proof.
  intros Hg HW. induction m as [| m IH]; intros Hs Hd.
  - exists grid. split; [reflexivity |]. split; [exact Hg |].
    intros j i. cases_nat.
  - destruct IH as (g1 & E1 & R1 & C1); [lia | lia |].
    rewrite seq_S, map_app, fold_left_app, E1. cbn [fold_left map Nat.add].
    rewrite for_range_of_nat. cbn [run_bind].
    destruct (copy_row m g1 R1) with (k := W) as (g2 & E2 & R2 & C2);
      [lia | lia | exact HW |].
    rewrite E2. exists g2. split; [reflexivity |]. split; [exact R2 |].
    intros j i. rewrite C2, C1. cases_nat.
Qed.

Lemma forEachCell_copies (H W : nat) (grid : Grid) :
  Spec.rectangular W0 H0 grid ->
  (dx + W <= W0)%nat -> (sy + H <= h)%nat -> (dy + H <= H0)%nat ->
  exists grid',
    forEachCell (Spec.of_nat H) (Spec.of_nat W) body grid = Done (Some grid')
    /\ Spec.rectangular W0 H0 grid'
    /\ forall j i : nat,
         Spec.cell grid' j i
         = if ((dy <=? j) && (j <? dy + H) && (dx <=? i) && (i <? dx + W))%nat
           then Spec.cell pixelGrid (j - dy + sy) (i - dx + sx)
           else Spec.cell grid j i.
Proof.
  intros Hg HW Hs Hd. unfold forEachCell.
  rewrite for_range_of_nat. cbn [run_bind].
  apply copy_rows; assumption.
Qed.

End Copy.

(** What [gridChange] returns when the loops have filled a blank grid
    with a block of [grid], given the grid [result] they must have made. *)
Lemma edge_edit (w h W0 H0 H W dy dx sy sx : nat) (grid result : Grid)
    (body : JS.number -> JS.number -> Grid -> option Grid)
    (dimensions : GridDimensions) :
  Spec.rectangular w h grid ->
  (forall (y x : nat) (g : Grid),
      body (Spec.of_nat y) (Spec.of_nat x) g
      = copyCell grid (Spec.of_nat (sy + y)) (Spec.of_nat (sx + x))
          (Spec.of_nat (dy + y)) (Spec.of_nat (dx + x)) g) ->
  (dx + W <= W0)%nat -> (sy + H <= h)%nat -> (dy + H <= H0)%nat ->
  Spec.rectangular W0 H0 result ->
  (forall j i : nat,
      (j < H0)%nat -> (i < W0)%nat ->
      Spec.cell result j i
      = if ((dy <=? j) && (j <? dy + H) && (dx <=? i) && (i <? dx + W))%nat
        then Spec.cell grid (j - dy + sy) (i - dx + sx)
        else None) ->
  gridChange
    (forEachCell (Spec.of_nat H) (Spec.of_nat W) body
       (repeat (repeat None W0) H0))
    dimensions
  = Done (Some {| art_dimensions := dimensions; art_grid := result;
                  art_lastActionType := Some "grid_change" |}).
Proof.
  intros Hr Hbody HW Hs Hd Rres Cres.
  destruct (forEachCell_copies w h W0 H0 grid dy dx sy sx body Hr Hbody H W
              (repeat (repeat None W0) H0) (blank_rectangular H0 W0) HW Hs Hd)
    as (g' & E & R & C).
  rewrite E. unfold gridChange. do 3 f_equal.
  apply (rectangular_ext W0 H0); [exact R | exact Rres |].
  intros j i Hj Hi. rewrite C, (Cres j i Hj Hi), blank_cell. reflexivity.
Qed.

(** *** The grids the eight functions make *)

Lemma rectangular_lengths (w h : nat) (grid : Grid) (row : list (option string)) :
  Spec.rectangular w h grid -> In row grid -> List.length row = w.
Proof. intros [_ Hw] Hin. rewrite Forall_forall in Hw. auto. Qed.

Lemma cell_blank_row (w i : nat) :
  match nth_error (repeat (@None string) w) i with
  | Some c => c
  | None => None
  end = None.
Proof.
  destruct (nth_error (repeat None w) i) as [c |] eqn:E; [| reflexivity].
  apply nth_error_In, repeat_spec in E. exact E.
Qed.

Lemma cell_cons_blank (w : nat) (grid : Grid) (j i : nat) :
  Spec.cell (repeat None w :: grid) j i
  = match j with 0%nat => None | S j' => Spec.cell grid j' i end.
Proof.
  destruct j as [| j]; [| reflexivity].
  unfold Spec.cell. cbn [nth_error]. apply cell_blank_row.
Qed.

Lemma cell_tl (grid : Grid) (j i : nat) :
  Spec.cell (tl grid) j i = Spec.cell grid (S j) i.
Proof. destruct grid; [destruct j |]; reflexivity. Qed.

Lemma cell_removelast (w h : nat) (grid : Grid) (j i : nat) :
  Spec.rectangular w h grid ->
  Spec.cell (removelast grid) j i
  = if (j <? h - 1)%nat then Spec.cell grid j i else None.
Proof.
  intros [Hh _]. unfold Spec.cell.
  rewrite removelast_firstn_len, nth_error_firstn, Hh.
  replace (Init.Nat.pred h) with (h - 1)%nat by lia.
  destruct (j <? h - 1)%nat; reflexivity.
Qed.

Lemma cell_map_cons (grid : Grid) (j i : nat) :
  Spec.cell (map (cons None) grid) j i
  = match i with 0%nat => None | S i' => Spec.cell grid j i' end.
Proof.
  unfold Spec.cell. rewrite nth_error_map.
  destruct (nth_error grid j); destruct i; reflexivity.
Qed.

Lemma cell_map_snoc (w h : nat) (grid : Grid) (j i : nat) :
  Spec.rectangular w h grid ->
  Spec.cell (map (fun row => row ++ [None])%list grid) j i
  = Spec.cell grid j i.
Proof.
  intros Hr. unfold Spec.cell. rewrite nth_error_map.
  destruct (nth_error grid j) as [row |] eqn:E; [| reflexivity].
  cbn [option_map].
  assert (L : List.length row = w)
    by (eapply rectangular_lengths; [exact Hr | eapply nth_error_In; exact E]).
  destruct (Nat.lt_ge_cases i w) as [Hi | Hi].
  - rewrite nth_error_app1 by lia. reflexivity.
  - rewrite nth_error_app2 by lia.
    replace (nth_error row i) with (@None (option string))
      by (symmetry; apply nth_error_None; lia).
    destruct (i - List.length row)%nat as [| [| k]]; reflexivity.
Qed.

Lemma cell_map_tl (grid : Grid) (j i : nat) :
  Spec.cell (map (@tl (option string)) grid) j i = Spec.cell grid j (S i).
Proof.
  unfold Spec.cell. rewrite nth_error_map.
  destruct (nth_error grid j) as [[| c row] |]; [destruct i | |]; reflexivity.
Qed.

Lemma cell_map_removelast (w h : nat) (grid : Grid) (j i : nat) :
  Spec.rectangular w h grid ->
  Spec.cell (map (@removelast (option string)) grid) j i
  = if (i <? w - 1)%nat then Spec.cell grid j i else None.
Proof.
  intros Hr. unfold Spec.cell. rewrite nth_error_map.
  destruct (nth_error grid j) as [row |] eqn:E;
    [| destruct (i <? w - 1)%nat; reflexivity].
  cbn [option_map].
  assert (L : List.length row = w)
    by (eapply rectangular_lengths; [exact Hr | eapply nth_error_In; exact E]).
  rewrite removelast_firstn_len, nth_error_firstn, L.
  replace (Init.Nat.pred w) with (w - 1)%nat by lia.
  destruct (i <? w - 1)%nat; reflexivity.
Qed.

Lemma cell_app_row (w h : nat) (grid : Grid) (j i : nat) :
  Spec.rectangular w h grid ->
  Spec.cell (grid ++ [repeat None w])%list j i = Spec.cell grid j i.
Proof.
  intros Hr. pose proof Hr as [Hh _]. unfold Spec.cell.
  destruct (Nat.lt_ge_cases j h) as [Hj | Hj].
  - rewrite nth_error_app1 by lia. reflexivity.
  - rewrite nth_error_app2 by lia.
    replace (nth_error grid j) with (@None (list (option string)))
      by (symmetry; apply nth_error_None; lia).
    destruct (j - List.length grid)%nat as [| [| k]];
      cbn [nth_error]; try reflexivity.
    apply cell_blank_row.
Qed.

Lemma rectangular_cons (w h : nat) (grid : Grid) :
  Spec.rectangular w h grid ->
  Spec.rectangular w (S h) (repeat None w :: grid).
Proof.
  intros [Hh Hw]. split; [cbn; lia |].
  constructor; [apply repeat_length | exact Hw].
Qed.

Lemma rectangular_app_row (w h : nat) (grid : Grid) :
  Spec.rectangular w h grid ->
  Spec.rectangular w (S h) (grid ++ [repeat None w])%list.
Proof.
  intros [Hh Hw]. split; [rewrite length_app; cbn; lia |].
  apply Forall_app. split; [exact Hw |].
  constructor; [apply repeat_length | constructor].
Qed.

Lemma rectangular_map (w w' h : nat) (grid : Grid)
    (f : list (option string) -> list (option string)) :
  (forall row, List.length row = w -> List.length (f row) = w') ->
  Spec.rectangular w h grid -> Spec.rectangular w' h (map f grid).
Proof.
  intros Hf [Hh Hw]. split; [rewrite length_map; exact Hh |].
  apply Forall_map. revert Hw. apply Forall_impl. exact Hf.
Qed.

Lemma rectangular_tl (w h : nat) (grid : Grid) :
  Spec.rectangular w h grid -> Spec.rectangular w (h - 1) (tl grid).
Proof.
  intros [Hh Hw]. unfold Spec.rectangular.
  destruct grid as [| row grid]; cbn in *.
  - split; [lia | constructor].
  - split; [lia |]. inversion Hw; assumption.
Qed.

Lemma Forall_prefix {A : Type} (P : A -> Prop) (l : list A) :
  Forall P l -> forall n : nat, Forall P (firstn n l).
Proof.
  induction 1 as [| a l Ha Hl IH]; intros [| n]; cbn; auto.
Qed.

Lemma rectangular_removelast (w h : nat) (grid : Grid) :
  Spec.rectangular w h grid -> Spec.rectangular w (h - 1) (removelast grid).
Proof.
  intros [Hh Hw]. rewrite removelast_firstn_len. split.
  - rewrite length_firstn. lia.
  - apply Forall_prefix. exact Hw.
Qed.

Lemma length_removelast_row {A : Type} (row : list A) (w : nat) :
  List.length row = w -> List.length (removelast row) = (w - 1)%nat.
Proof. intros L. rewrite removelast_firstn_len, length_firstn. lia. Qed.

Lemma length_tl_row {A : Type} (row : list A) (w : nat) :
  List.length row = w -> List.length (tl row) = (w - 1)%nat.
Proof. intros L. destruct row; cbn in *; lia. Qed.

Section Edges.

Variables (w h : nat) (grid : Grid) (action : option string).
Hypothesis Hr : Spec.rectangular w h grid.

Let st : Artwork := Spec.artwork w h grid action.

Lemma addRowTop_result :
  addRowTop st = Spec.changed w (S h) (repeat None w :: grid).
Proof.
  unfold addRowTop, st, Spec.artwork, Spec.changed.
  cbn [art_dimensions art_grid dim_width dim_height].
  rewrite n1_of_nat, add_of_nat, blankGrid_of_nat.
  replace (h + 1)%nat with (S h) by lia.
  apply (edge_edit w h w (S h) h w 1 0 0 0 grid); try assumption; try lia.
  - intros y x g. rewrite add_of_nat. cbn [Nat.add].
    replace (y + 1)%nat with (S y) by lia. reflexivity.
  - apply rectangular_cons. exact Hr.
  - intros j i Hj Hi. rewrite cell_cons_blank. destruct j as [| j]; cases_nat.
Qed.

Lemma addRowBottom_result :
  addRowBottom st = Spec.changed w (S h) (grid ++ [repeat None w])%list.
Proof.
  unfold addRowBottom, st, Spec.artwork, Spec.changed.
  cbn [art_dimensions art_grid dim_width dim_height].
  rewrite n1_of_nat, add_of_nat, blankGrid_of_nat.
  replace (h + 1)%nat with (S h) by lia.
  apply (edge_edit w h w (S h) h w 0 0 0 0 grid); try assumption; try lia.
  - intros y x g. reflexivity.
  - apply rectangular_app_row. exact Hr.
  - intros j i Hj Hi. rewrite (cell_app_row w h) by exact Hr.
    cases_nat. apply (cell_outside_rows w h); [exact Hr | lia].
Qed.

Lemma addColLeft_result :
  addColLeft st = Spec.changed (S w) h (map (cons None) grid).
Proof.
  unfold addColLeft, st, Spec.artwork, Spec.changed.
  cbn [art_dimensions art_grid dim_width dim_height].
  rewrite n1_of_nat, add_of_nat, blankGrid_of_nat.
  replace (w + 1)%nat with (S w) by lia.
  apply (edge_edit w h (S w) h h w 0 1 0 0 grid); try assumption; try lia.
  - intros y x g. rewrite add_of_nat. cbn [Nat.add].
    replace (x + 1)%nat with (S x) by lia. reflexivity.
  - apply (rectangular_map w); [| exact Hr]. intros row L. cbn. lia.
  - intros j i Hj Hi. rewrite cell_map_cons. destruct i as [| i]; cases_nat.
Qed.

Lemma addColRight_result :
  addColRight st
  = Spec.changed (S w) h (map (fun row => row ++ [None])%list grid).
Proof.
  unfold addColRight, st, Spec.artwork, Spec.changed.
  cbn [art_dimensions art_grid dim_width dim_height].
  rewrite n1_of_nat, add_of_nat, blankGrid_of_nat.
  replace (w + 1)%nat with (S w) by lia.
  apply (edge_edit w h (S w) h h w 0 0 0 0 grid); try assumption; try lia.
  - intros y x g. reflexivity.
  - apply (rectangular_map w); [| exact Hr]. intros row L.
    rewrite length_app. cbn. lia.
  - intros j i Hj Hi. rewrite (cell_map_snoc w h) by exact Hr.
    cases_nat. apply (cell_outside_columns w h); [exact Hr | lia].
Qed.

Lemma removeRowTop_result :
  (2 <= h)%nat -> removeRowTop st = Spec.changed w (h - 1) (tl grid).
Proof.
  intros H2. unfold removeRowTop, st, Spec.artwork, Spec.changed.
  cbn [art_dimensions art_grid dim_width dim_height].
  rewrite n1_of_nat, le_of_nat.
  destruct (Nat.leb_spec h 1); [lia |].
  rewrite sub_of_nat by lia. rewrite blankGrid_of_nat.
  apply (edge_edit w h w (h - 1) (h - 1) w 0 0 1 0 grid); try assumption;
    try lia.
  - intros y x g. rewrite add_of_nat. cbn [Nat.add].
    replace (y + 1)%nat with (S y) by lia. reflexivity.
  - apply rectangular_tl. exact Hr.
  - intros j i Hj Hi. rewrite cell_tl. cases_nat.
Qed.

Lemma removeRowBottom_result :
  (2 <= h)%nat ->
  removeRowBottom st = Spec.changed w (h - 1) (removelast grid).
Proof.
  intros H2. unfold removeRowBottom, st, Spec.artwork, Spec.changed.
  cbn [art_dimensions art_grid dim_width dim_height].
  rewrite n1_of_nat, le_of_nat.
  destruct (Nat.leb_spec h 1); [lia |].
  rewrite sub_of_nat by lia. rewrite blankGrid_of_nat.
  apply (edge_edit w h w (h - 1) (h - 1) w 0 0 0 0 grid); try assumption;
    try lia.
  - intros y x g. reflexivity.
  - apply rectangular_removelast. exact Hr.
  - intros j i Hj Hi. rewrite (cell_removelast w h) by exact Hr. cases_nat.
Qed.

Lemma removeColLeft_result :
  (2 <= w)%nat ->
  removeColLeft st = Spec.changed (w - 1) h (map (@tl (option string)) grid).
Proof.
  intros H2. unfold removeColLeft, st, Spec.artwork, Spec.changed.
  cbn [art_dimensions art_grid dim_width dim_height].
  rewrite n1_of_nat, le_of_nat.
  destruct (Nat.leb_spec w 1); [lia |].
  rewrite sub_of_nat by lia. rewrite blankGrid_of_nat.
  apply (edge_edit w h (w - 1) h h (w - 1) 0 0 0 1 grid); try assumption;
    try lia.
  - intros y x g. rewrite add_of_nat. cbn [Nat.add].
    replace (x + 1)%nat with (S x) by lia. reflexivity.
  - apply (rectangular_map w); [| exact Hr].
    intros row L. apply length_tl_row. exact L.
  - intros j i Hj Hi. rewrite cell_map_tl. cases_nat.
Qed.

Lemma removeColRight_result :
  (2 <= w)%nat ->
  removeColRight st
  = Spec.changed (w - 1) h (map (@removelast (option string)) grid).
Proof.
  intros H2. unfold removeColRight, st, Spec.artwork, Spec.changed.
  cbn [art_dimensions art_grid dim_width dim_height].
  rewrite n1_of_nat, le_of_nat.
  destruct (Nat.leb_spec w 1); [lia |].
  rewrite sub_of_nat by lia. rewrite blankGrid_of_nat.
  apply (edge_edit w h (w - 1) h h (w - 1) 0 0 0 0 grid); try assumption;
    try lia.
  - intros y x g. reflexivity.
  - apply (rectangular_map w); [| exact Hr].
    intros row L. apply length_removelast_row. exact L.
  - intros j i Hj Hi. rewrite (cell_map_removelast w h) by exact Hr.
    cases_nat.
Qed.

Lemma removeRow_refused :
  (h <= 1)%nat ->
  removeRowTop st = Done (Some st) /\ removeRowBottom st = Done (Some st).
Proof.
  intros H1. unfold removeRowTop, removeRowBottom, st, Spec.artwork.
  cbn [art_dimensions art_grid dim_width dim_height].
  rewrite n1_of_nat, le_of_nat.
  destruct (Nat.leb_spec h 1); [| lia]. split; reflexivity.
Qed.

Lemma removeCol_refused :
  (w <= 1)%nat ->
  removeColLeft st = Done (Some st) /\ removeColRight st = Done (Some st).
Proof.
  intros H1. unfold removeColLeft, removeColRight, st, Spec.artwork.
  cbn [art_dimensions art_grid dim_width dim_height].
  rewrite n1_of_nat, le_of_nat.
  destruct (Nat.leb_spec w 1); [| lia]. split; reflexivity.
Qed.

End Edges.

(** The dimensions stay those of the grid and stay at least 1 by 1. *)
Lemma apply_op_well_formed (op : Spec.edge_op) (w h : nat) (grid : Grid)
    (action : option string) :
  Spec.rectangular w h grid -> (1 <= w)%nat -> (1 <= h)%nat ->
  exists (w' h' : nat) (grid' : Grid) (action' : option string),
    Spec.apply_op op (Spec.artwork w h grid action)
    = Done (Some (Spec.artwork w' h' grid' action'))
    /\ Spec.rectangular w' h' grid' /\ (1 <= w')%nat /\ (1 <= h')%nat.
Proof.
  intros Hr Hw Hh.
  destruct op; cbn [Spec.apply_op].
  - exists w, (S h), (repeat None w :: grid), (Some "grid_change").
    rewrite addRowTop_result by exact Hr.
    split; [reflexivity |]. split; [| split; lia].
    apply rectangular_cons; exact Hr.
  - exists w, (S h), (grid ++ [repeat None w])%list, (Some "grid_change").
    rewrite addRowBottom_result by exact Hr.
    split; [reflexivity |]. split; [| split; lia].
    apply rectangular_app_row; exact Hr.
  - destruct (Nat.le_gt_cases h 1) as [H1 | H1].
    + exists w, h, grid, action.
      rewrite (proj1 (removeRow_refused w h grid action H1)). auto.
    + exists w, (h - 1)%nat, (tl grid), (Some "grid_change").
      rewrite removeRowTop_result by (try exact Hr; lia).
      split; [reflexivity |]. split; [| split; lia].
      apply rectangular_tl; exact Hr.
  - destruct (Nat.le_gt_cases h 1) as [H1 | H1].
    + exists w, h, grid, action.
      rewrite (proj2 (removeRow_refused w h grid action H1)). auto.
    + exists w, (h - 1)%nat, (removelast grid), (Some "grid_change").
      rewrite removeRowBottom_result by (try exact Hr; lia).
      split; [reflexivity |]. split; [| split; lia].
      apply rectangular_removelast; exact Hr.
  - exists (S w), h, (map (cons None) grid), (Some "grid_change").
    rewrite addColLeft_result by exact Hr.
    split; [reflexivity |]. split; [| split; lia].
    apply (rectangular_map w); try exact Hr; intros row L; cbn; lia.
  - exists (S w), h, (map (fun row => row ++ [None])%list grid),
      (Some "grid_change").
    rewrite addColRight_result by exact Hr.
    split; [reflexivity |]. split; [| split; lia].
    apply (rectangular_map w); try exact Hr; intros row L;
      rewrite length_app; cbn; lia.
  - destruct (Nat.le_gt_cases w 1) as [H1 | H1].
    + exists w, h, grid, action.
      rewrite (proj1 (removeCol_refused w h grid action H1)). auto.
    + exists (w - 1)%nat, h, (map (@tl (option string)) grid),
        (Some "grid_change").
      rewrite removeColLeft_result by (try exact Hr; lia).
      split; [reflexivity |]. split; [| split; lia].
      apply (rectangular_map w); try exact Hr; intros row L;
        apply length_tl_row; exact L.
  - destruct (Nat.le_gt_cases w 1) as [H1 | H1].
    + exists w, h, grid, action.
      rewrite (proj2 (removeCol_refused w h grid action H1)). auto.
    + exists (w - 1)%nat, h, (map (@removelast (option string)) grid),
        (Some "grid_change").
      rewrite removeColRight_result by (try exact Hr; lia).
      split; [reflexivity |]. split; [| split; lia].
      apply (rectangular_map w); try exact Hr; intros row L;
        apply length_removelast_row; exact L.
Qed.

Lemma removelast_snoc {A : Type} (l : list A) (a : A) :
  removelast (l ++ [a]) = l.
Proof. apply removelast_last. Qed.

Lemma map_tl_cons {A : Type} (c : A) (l : list (list A)) :
  map (@tl A) (map (cons c) l) = l.
Proof. rewrite map_map. cbn [tl]. apply map_id. Qed.

Lemma map_removelast_snoc {A : Type} (c : A) (l : list (list A)) :
  map (@removelast A) (map (fun row => row ++ [c])%list l) = l.
Proof.
  rewrite map_map. rewrite <- (map_id l) at 2. apply map_ext.
  intros row. apply removelast_last.
Qed.

(** A grid of two rows of two cells, for the examples. *)
Lemma sample_rectangular :
  Spec.rectangular 2 2
    [[Some "#ff0000"; None]; [None; Some "#00ff00"]].
Proof. split; [reflexivity | repeat constructor]. Qed.

(** X8.  On an artwork whose grid has the dimensions recorded, each of the
    four add functions keeps every cell where it was relative to the others
    and adds one row or one column of empty cells at its edge: [addRowTop]
    before the first row, [addRowBottom] after the last, [addColLeft]
    before the first cell of every row, [addColRight] after the last.  The
    recorded height or width grows by one and the action type becomes
    ['grid_change']. *)
Theorem add_edge_result (w h : nat) (grid : Grid) (action : option string) :
  Spec.rectangular w h grid ->
  addRowTop (Spec.artwork w h grid action)
  = Spec.changed w (S h) (repeat None w :: grid)
  /\ addRowBottom (Spec.artwork w h grid action)
     = Spec.changed w (S h) (grid ++ [repeat None w])%list
  /\ addColLeft (Spec.artwork w h grid action)
     = Spec.changed (S w) h (map (cons None) grid)
  /\ addColRight (Spec.artwork w h grid action)
     = Spec.changed (S w) h (map (fun row => row ++ [None])%list grid).
Proof.
  intros Hr. split; [| split; [| split]].
  - apply addRowTop_result. exact Hr.
  - apply addRowBottom_result. exact Hr.
  - apply addColLeft_result. exact Hr.
  - apply addColRight_result. exact Hr.
Qed.

Lemma add_edge_result_witness :
  let grid := [[Some "#ff0000"; None]; [None; Some "#00ff00"]] in
  Spec.rectangular 2 2 grid
  /\ addRowTop (Spec.artwork 2 2 grid None)
     = Spec.changed 2 3 ([None; None] :: grid)
  /\ addColLeft (Spec.artwork 2 2 grid None)
     = Spec.changed 3 2
         [[None; Some "#ff0000"; None]; [None; None; Some "#00ff00"]].
Proof.
  intros grid.
  pose proof (add_edge_result 2 2 grid None sample_rectangular)
    as (H1 & _ & H3 & _).
  split; [exact sample_rectangular |]. split; [exact H1 | exact H3].
Defined.

(** X9.  The four remove functions on such an artwork.  With at least two
    rows, [removeRowTop] drops the first row and [removeRowBottom] the
    last, and the recorded height shrinks by one; with at least two
    columns, [removeColLeft] drops the first cell of every row and
    [removeColRight] the last.  With one row (one column) or none they
    leave the artwork as it is, action type included. *)
Theorem remove_edge_result (w h : nat) (grid : Grid)
    (action : option string) :
  Spec.rectangular w h grid ->
  ((2 <= h)%nat ->
   removeRowTop (Spec.artwork w h grid action)
   = Spec.changed w (h - 1) (tl grid)
   /\ removeRowBottom (Spec.artwork w h grid action)
      = Spec.changed w (h - 1) (removelast grid))
  /\ ((2 <= w)%nat ->
      removeColLeft (Spec.artwork w h grid action)
      = Spec.changed (w - 1) h (map (@tl (option string)) grid)
      /\ removeColRight (Spec.artwork w h grid action)
         = Spec.changed (w - 1) h (map (@removelast (option string)) grid))
  /\ ((h <= 1)%nat ->
      removeRowTop (Spec.artwork w h grid action)
      = Done (Some (Spec.artwork w h grid action))
      /\ removeRowBottom (Spec.artwork w h grid action)
         = Done (Some (Spec.artwork w h grid action)))
  /\ ((w <= 1)%nat ->
      removeColLeft (Spec.artwork w h grid action)
      = Done (Some (Spec.artwork w h grid action))
      /\ removeColRight (Spec.artwork w h grid action)
         = Done (Some (Spec.artwork w h grid action))).
Proof.
  intros Hr. split; [| split; [| split]].
  - intros H2. split.
    + apply removeRowTop_result; assumption.
    + apply removeRowBottom_result; assumption.
  - intros H2. split.
    + apply removeColLeft_result; assumption.
    + apply removeColRight_result; assumption.
  - apply removeRow_refused.
  - apply removeCol_refused.
Qed.

Lemma remove_edge_result_witness :
  let grid := [[Some "#ff0000"; None]; [None; Some "#00ff00"]] in
  Spec.rectangular 2 2 grid
  /\ removeRowTop (Spec.artwork 2 2 grid None)
     = Spec.changed 2 1 [[None; Some "#00ff00"]]
  /\ removeColRight (Spec.artwork 2 2 grid None)
     = Spec.changed 1 2 [[Some "#ff0000"]; [None]].
Proof.
  intros grid.
  pose proof (remove_edge_result 2 2 grid None sample_rectangular)
    as (Hrows & Hcols & _).
  split; [exact sample_rectangular |]. split.
  - exact (proj1 (Hrows (le_n 2))).
  - exact (proj2 (Hcols (le_n 2))).
Defined.

(** X10.  Adding an edge and removing it again restores the grid and the
    recorded dimensions: for an artwork of at least one row and one column
    whose grid has the dimensions recorded, each add function followed by
    the remove function of the same edge returns the grid it started
    from. *)
Theorem add_then_remove_restores (w h : nat) (grid : Grid)
    (action : option string) :
  Spec.rectangular w h grid -> (1 <= w)%nat -> (1 <= h)%nat ->
  Spec.apply_ops [Spec.AddRowTop; Spec.RemoveRowTop]
    (Spec.artwork w h grid action)
  = Spec.changed w h grid
  /\ Spec.apply_ops [Spec.AddRowBottom; Spec.RemoveRowBottom]
       (Spec.artwork w h grid action)
     = Spec.changed w h grid
  /\ Spec.apply_ops [Spec.AddColLeft; Spec.RemoveColLeft]
       (Spec.artwork w h grid action)
     = Spec.changed w h grid
  /\ Spec.apply_ops [Spec.AddColRight; Spec.RemoveColRight]
       (Spec.artwork w h grid action)
     = Spec.changed w h grid.
Proof.
  intros Hr Hw Hh. cbn [Spec.apply_ops Spec.apply_op].
  split; [| split; [| split]].
  - rewrite addRowTop_result by exact Hr. unfold Spec.changed at 1.
    rewrite removeRowTop_result;
      [| apply rectangular_cons; exact Hr | lia].
    cbn [tl]. replace (S h - 1)%nat with h by lia. reflexivity.
  - rewrite addRowBottom_result by exact Hr. unfold Spec.changed at 1.
    rewrite removeRowBottom_result;
      [| apply rectangular_app_row; exact Hr | lia].
    rewrite removelast_snoc. replace (S h - 1)%nat with h by lia.
    reflexivity.
  - rewrite addColLeft_result by exact Hr. unfold Spec.changed at 1.
    rewrite removeColLeft_result; [| | lia].
    + rewrite map_tl_cons. replace (S w - 1)%nat with w by lia.
      reflexivity.
    + apply (rectangular_map w); [| exact Hr]. intros row L. cbn. lia.
  - rewrite addColRight_result by exact Hr. unfold Spec.changed at 1.
    rewrite removeColRight_result; [| | lia].
    + rewrite map_removelast_snoc. replace (S w - 1)%nat with w by lia.
      reflexivity.
    + apply (rectangular_map w); [| exact Hr]. intros row L.
      rewrite length_app. cbn. lia.
Qed.

Lemma add_then_remove_restores_witness :
  let grid := [[Some "#ff0000"; None]; [None; Some "#00ff00"]] in
  Spec.rectangular 2 2 grid
  /\ Spec.apply_ops [Spec.AddColLeft; Spec.RemoveColLeft]
       (Spec.artwork 2 2 grid None)
     = Spec.changed 2 2 grid.
Proof.
  intros grid. split; [exact sample_rectangular |].
  exact (proj1 (proj2 (proj2
    (add_then_remove_restores 2 2 grid None sample_rectangular
       (le_S 1 1 (le_n 1)) (le_S 1 1 (le_n 1)))))).
Defined.

(** X11.  No sequence of the eight functions breaks the artwork: started
    on an artwork of at least one row and one column whose grid has the
    dimensions recorded, every sequence runs to its end without an
    exception and leaves an artwork whose grid again has exactly the
    dimensions recorded, with at least one row and one column. *)
Theorem edge_ops_keep_artwork_well_formed (ops : list Spec.edge_op) :
  forall (w h : nat) (grid : Grid) (action : option string),
    Spec.rectangular w h grid -> (1 <= w)%nat -> (1 <= h)%nat ->
    exists (w' h' : nat) (grid' : Grid) (action' : option string),
      Spec.apply_ops ops (Spec.artwork w h grid action)
      = Done (Some (Spec.artwork w' h' grid' action'))
      /\ Spec.rectangular w' h' grid' /\ (1 <= w')%nat /\ (1 <= h')%nat.
Proof.
  induction ops as [| op rest IH]; intros w h grid action Hr Hw Hh.
  - exists w, h, grid, action. cbn [Spec.apply_ops]. auto.
  - destruct (apply_op_well_formed op w h grid action Hr Hw Hh)
      as (w1 & h1 & g1 & a1 & E1 & R1 & Hw1 & Hh1).
    cbn [Spec.apply_ops]. rewrite E1. apply IH; assumption.
Qed.

Lemma edge_ops_keep_artwork_well_formed_witness :
  let grid := [[Some "#ff0000"; None]; [None; Some "#00ff00"]] in
  Spec.rectangular 2 2 grid
  /\ exists (w' h' : nat) (grid' : Grid) (action' : option string),
       Spec.apply_ops
         [Spec.RemoveRowTop; Spec.RemoveRowBottom; Spec.AddColRight;
          Spec.RemoveColLeft; Spec.RemoveColLeft; Spec.RemoveColLeft]
         (Spec.artwork 2 2 grid None)
       = Done (Some (Spec.artwork w' h' grid' action'))
       /\ Spec.rectangular w' h' grid' /\ (1 <= w')%nat /\ (1 <= h')%nat.
Proof.
  intros grid. split; [exact sample_rectangular |].
  exact (edge_ops_keep_artwork_well_formed
           [Spec.RemoveRowTop; Spec.RemoveRowBottom; Spec.AddColRight;
            Spec.RemoveColLeft; Spec.RemoveColLeft; Spec.RemoveColLeft]
           2 2 grid None sample_rectangular (le_S 1 1 (le_n 1))
           (le_S 1 1 (le_n 1))).
Defined.

End GridEditProps.

(** ** The path cache as a memo *)

Module MemoProps.

Import SVGRenderer NumberFacts CacheProps.

Section Render.

Variable toStr : JS.number -> string.
Variable Math_cos Math_sin : JS.number -> JS.number.
Variable Math_PI pixelSize gridGap : JS.number.
Variable pixelData : list (list (option string)).
Variable cornerRadius : option CornerRadius.
Variable pixelShape : string.
Variable customShape : option CustomShape.
Variable glowEnabled : bool.
Variable glowSettings : GlowSettings.
Variable bulbEnabled : bool.
Variable bulbSettings : BulbSettings.

Local Notation renderCell :=
  (renderCell toStr Math_cos Math_sin Math_PI pixelSize gridGap pixelData
     cornerRadius pixelShape customShape glowEnabled glowSettings bulbEnabled
     bulbSettings).
Local Notation fills :=
  (Spec.fills toStr Math_cos Math_sin Math_PI pixelSize gridGap cornerRadius
     pixelShape customShape pixelData).
Local Notation calls_of :=
  (Spec.calls_of pixelSize gridGap cornerRadius pixelShape customShape
     pixelData).
Local Notation run_calls := (Spec.run_calls toStr Math_cos Math_sin Math_PI).

Local Notation answers := (Spec.answers toStr Math_cos Math_sin Math_PI).
Local Notation separated :=
  (Spec.separated toStr Math_cos Math_sin Math_PI).

(** What the layers and the cache gain from the cells visited. *)
Let gained (st st' : layers) (cells : list (JS.number * JS.number)) : Prop :=
  crispPaths st' = (crispPaths st ++ fills cells)%list
  /\ map geom (glowPaths st')
     = (map geom (glowPaths st)
        ++ if glowEnabled then map geom (fills cells) else [])%list
  /\ map fill (glowPaths st')
     = (map fill (glowPaths st)
        ++ if glowEnabled then map fill (fills cells) else [])%list
  /\ map geom (bulbPaths st')
     = (map geom (bulbPaths st)
        ++ if bulbEnabled then map geom (fills cells) else [])%list
  /\ pathCache st' = run_calls (pathCache st) (calls_of cells).

Lemma renderCell_gains (st : layers) (cs : list Spec.Call)
    (cell : JS.number * JS.number) :
  answers (pathCache st) cs ->
  incl (calls_of [cell]) cs ->
  gained st (renderCell st cell) [cell].
Proof.
  intros Ha Hi. destruct cell as [x y]. unfold gained, SVGRenderer.renderCell.
  unfold Spec.fills, Spec.calls_of, Spec.coloured in *.
  cbn [flat_map List.filter fst snd] in *.
  destruct (pixelAt pixelData x y) as [color |] eqn:Ep;
    [destruct (JS.truthy_string color) eqn:Et |].
  - cbn [map] in *.
    set (xPos := (x * (pixelSize + gridGap) + gridGap / n2)%js).
    set (yPos := (y * (pixelSize + gridGap) + gridGap / n2)%js).
    assert (P : fst (createShapePath toStr Math_cos Math_sin Math_PI
                       (pathCache st) xPos yPos pixelSize pixelShape
                       cornerRadius customShape)
                = shapePath toStr Math_cos Math_sin Math_PI xPos yPos
                    pixelSize pixelShape cornerRadius
                    (customPath_of customShape)).
    { apply (call_answered toStr Math_cos Math_sin Math_PI (pathCache st) cs
               {| Spec.call_x := xPos; Spec.call_y := yPos;
                  Spec.call_size := pixelSize; Spec.call_shape := pixelShape;
                  Spec.call_cornerRadius := cornerRadius;
                  Spec.call_customShape := customShape |} Ha).
      apply Hi. left. reflexivity. }
    change (run_calls (pathCache st) [?c])
      with (snd (createShapePath toStr Math_cos Math_sin Math_PI
                   (pathCache st) xPos yPos pixelSize pixelShape cornerRadius
                   customShape)).
    destruct (createShapePath toStr Math_cos Math_sin Math_PI (pathCache st)
                xPos yPos pixelSize pixelShape cornerRadius customShape)
      as [pathData cache].
    cbn [fst snd] in P |- *. subst pathData.
    unfold Spec.fill_element, Spec.cell_origin. cbn [fst snd].
    fold xPos yPos.
    cbn [crispPaths glowPaths bulbPaths pathCache].
    destruct (String.eqb pixelShape "circle"), glowEnabled, bulbEnabled;
      rewrite ?map_app, ?app_nil_r; cbn [map geom fill app];
      repeat split; reflexivity.
  - cbn [map Spec.run_calls fold_left]. rewrite !app_nil_r.
    destruct glowEnabled, bulbEnabled; rewrite ?app_nil_r; auto.
  - cbn [map Spec.run_calls fold_left]. rewrite !app_nil_r.
    destruct glowEnabled, bulbEnabled; rewrite ?app_nil_r; auto.
Qed.

Lemma fills_cons (cell : JS.number * JS.number)
    (cells : list (JS.number * JS.number)) :
  fills (cell :: cells) = (fills [cell] ++ fills cells)%list.
Proof.
  unfold Spec.fills. cbn [flat_map]. rewrite app_nil_r. reflexivity.
Qed.

Lemma calls_of_cons (cell : JS.number * JS.number)
    (cells : list (JS.number * JS.number)) :
  calls_of (cell :: cells) = (calls_of [cell] ++ calls_of cells)%list.
Proof.
  unfold Spec.calls_of. rewrite <- map_app. f_equal.
  cbn [List.filter]. destruct (Spec.coloured pixelData cell); reflexivity.
Qed.

Lemma renderCells_gain (cs : list Spec.Call)
    (cells : list (JS.number * JS.number)) :
  separated cs ->
  forall st : layers,
    answers (pathCache st) cs ->
    incl (calls_of cells) cs ->
    gained st (fold_left renderCell cells st) cells.
Proof.
  intros Hs. induction cells as [| cell rest IH]; intros st Ha Hi.
  - unfold gained. cbn [fold_left Spec.fills Spec.calls_of flat_map
                        List.filter map Spec.run_calls].
    rewrite !app_nil_r.
    destruct glowEnabled, bulbEnabled; rewrite ?app_nil_r; auto.
  - rewrite (calls_of_cons cell rest) in Hi.
    assert (Hi1 : incl (calls_of [cell]) cs).
    { intros c Hc. apply Hi. apply in_or_app. left. exact Hc. }
    assert (Hi2 : incl (calls_of rest) cs).
    { intros c Hc. apply Hi. apply in_or_app. right. exact Hc. }
    destruct (renderCell_gains st cs cell Ha Hi1)
      as (C1 & G1 & F1 & B1 & P1).
    assert (Ha1 : answers (pathCache (renderCell st cell)) cs).
    { rewrite P1. apply run_calls_answers; [exact Ha |].
      intros h c Hh Hc K. apply (Hs c Hc h (Hi1 h Hh) K). }
    destruct (IH _ Ha1 Hi2) as (C2 & G2 & F2 & B2 & P2).
    unfold gained. cbn [fold_left].
    rewrite C2, G2, F2, B2, P2, P1, C1, G1, F1, B1.
    rewrite (fills_cons cell rest), (calls_of_cons cell rest).
    rewrite (run_calls_app toStr Math_cos Math_sin Math_PI).
    destruct glowEnabled, bulbEnabled;
      rewrite ?map_app, ?app_nil_r, <- ?app_assoc; auto.
Qed.

End Render.

(** X12.  The cache is a memo on the key string, not on the arguments.  On
    any cache that calls from the empty cache have left, [createShapePath]
    returns what the cache holds under the key string of the call when it
    holds something, and else the path computed from the arguments; after
    the call, every call that builds the same key string, the same call
    made again among them, returns the same path and leaves the cache as it
    is; no key is held twice; and corner radii of [NaN] and of [Infinity]
    build the same key string, for [JSON.stringify] writes both as
    [null]. *)
Theorem createShapePath_is_a_memo
    (toStr : JS.number -> string) (Math_cos Math_sin : JS.number -> JS.number)
    (Math_PI : JS.number) (calls : list Spec.Call) (x y size : JS.number)
    (shape : string) (cornerRadius : option CornerRadius)
    (customShape : option CustomShape) :
  let cache :=
    Spec.run_calls toStr Math_cos Math_sin Math_PI empty_cache calls in
  let result :=
    createShapePath toStr Math_cos Math_sin Math_PI cache x y size shape
      cornerRadius customShape in
  fst result
  = match cache_get cache (cacheKey toStr x y size shape cornerRadius
                             customShape) with
    | Some cached => cached
    | None =>
        shapePath toStr Math_cos Math_sin Math_PI x y size shape cornerRadius
          (customPath_of customShape)
    end
  /\ (forall (x' y' size' : JS.number) (shape' : string)
        (cornerRadius' : option CornerRadius)
        (customShape' : option CustomShape),
        cacheKey toStr x' y' size' shape' cornerRadius' customShape'
        = cacheKey toStr x y size shape cornerRadius customShape ->
        createShapePath toStr Math_cos Math_sin Math_PI (snd result) x' y'
          size' shape' cornerRadius' customShape'
        = result)
  /\ NoDup (map fst (snd result))
  /\ (forall (e : bool) (tr bl br : JS.number),
        cacheKey toStr x y size shape
          (Some {| enabled := e; topLeft := JS.NaN; topRight := tr;
                   bottomLeft := bl; bottomRight := br |}) customShape
        = cacheKey toStr x y size shape
            (Some {| enabled := e; topLeft := JS.PInf; topRight := tr;
                     bottomLeft := bl; bottomRight := br |}) customShape).
Proof.
  intros cache result.
  set (c := {| Spec.call_x := x; Spec.call_y := y; Spec.call_size := size;
               Spec.call_shape := shape;
               Spec.call_cornerRadius := cornerRadius;
               Spec.call_customShape := customShape |}).
  change result with (Spec.call toStr Math_cos Math_sin Math_PI cache c).
  change (cacheKey toStr x y size shape cornerRadius customShape)
    with (Spec.key_of toStr c).
  split; [| split; [| split]].
  - destruct (cache_get cache (Spec.key_of toStr c)) as [v |] eqn:E.
    + rewrite (call_hit _ _ _ _ _ _ _ E). reflexivity.
    + rewrite (call_miss _ _ _ _ _ _ E). reflexivity.
  - intros x' y' size' shape' cornerRadius' customShape' K.
    set (c' := {| Spec.call_x := x'; Spec.call_y := y';
                  Spec.call_size := size'; Spec.call_shape := shape';
                  Spec.call_cornerRadius := cornerRadius';
                  Spec.call_customShape := customShape' |}).
    change (createShapePath toStr Math_cos Math_sin Math_PI
              (snd (Spec.call toStr Math_cos Math_sin Math_PI cache c)) x' y'
              size' shape' cornerRadius' customShape')
      with (Spec.call toStr Math_cos Math_sin Math_PI
              (snd (Spec.call toStr Math_cos Math_sin Math_PI cache c)) c').
    pose proof (call_then_cached toStr Math_cos Math_sin Math_PI cache c)
      as H.
    change (Spec.key_of toStr c' = Spec.key_of toStr c) in K.
    rewrite <- K in H.
    rewrite (call_hit _ _ _ _ _ _ _ H).
    destruct (Spec.call toStr Math_cos Math_sin Math_PI cache c).
    reflexivity.
  - apply call_NoDup. apply run_calls_NoDup. constructor.
  - intros e tr bl br. reflexivity.
Qed.

(** X13.  A render shows what the grid holds.  From a cache that earlier
    calls have left, when none of them took the key string of a call of the
    render with another path and the calls of the render that share a key
    string have the same path, for any order of cells and any setting of
    the two effects: the fill layer is the fill element of every coloured
    cell visited, in order, each path computed from the position of its own
    cell; the glow layer, when enabled, has the same shapes and colours, and
    the bulb layer the same shapes; a layer that is disabled is empty; and
    the cache left is the one the calls for the coloured cells lead to, so
    it stays within its limit. *)
Theorem renderCells_shows_the_grid
    (toStr : JS.number -> string) (Math_cos Math_sin : JS.number -> JS.number)
    (Math_PI pixelSize gridGap : JS.number)
    (pixelData : list (list (option string)))
    (cornerRadius : option CornerRadius) (pixelShape : string)
    (customShape : option CustomShape) (glowEnabled : bool)
    (glowSettings : GlowSettings) (bulbEnabled : bool)
    (bulbSettings : BulbSettings) (calls : list Spec.Call)
    (cells : list (JS.number * JS.number)) :
  let cache :=
    Spec.run_calls toStr Math_cos Math_sin Math_PI empty_cache calls in
  let own :=
    Spec.calls_of pixelSize gridGap cornerRadius pixelShape customShape
      pixelData cells in
  let st :=
    renderCells toStr Math_cos Math_sin Math_PI pixelSize gridGap pixelData
      cornerRadius pixelShape customShape glowEnabled glowSettings
      bulbEnabled bulbSettings cache cells in
  let fills :=
    Spec.fills toStr Math_cos Math_sin Math_PI pixelSize gridGap cornerRadius
      pixelShape customShape pixelData cells in
  (forall c : Spec.Call,
      In c own -> Spec.agrees toStr Math_cos Math_sin Math_PI calls c) ->
  Spec.separated toStr Math_cos Math_sin Math_PI own ->
  crispPaths st = fills
  /\ map geom (glowPaths st) = (if glowEnabled then map geom fills else [])
  /\ map fill (glowPaths st) = (if glowEnabled then map fill fills else [])
  /\ map geom (bulbPaths st) = (if bulbEnabled then map geom fills else [])
  /\ pathCache st
     = Spec.run_calls toStr Math_cos Math_sin Math_PI empty_cache
         (calls ++ own)%list
  /\ (cache_size (pathCache st) <= CACHE_LIMIT)%nat.
Proof.
  intros cache own st fills Hagree Hsep.
  assert (Ha : Spec.answers toStr Math_cos Math_sin Math_PI cache own).
  { apply run_calls_answers; [apply empty_answers |].
    intros h c Hh Hc. apply (Hagree c Hc h Hh). }
  destruct (renderCells_gain toStr Math_cos Math_sin Math_PI pixelSize gridGap
              pixelData cornerRadius pixelShape customShape glowEnabled
              glowSettings bulbEnabled bulbSettings own cells Hsep
              (no_layers cache) Ha (incl_refl _)) as (C & G & F & B & P).
  cbn [no_layers crispPaths glowPaths bulbPaths pathCache map app] in C, G, F,
    B, P.
  change (crispPaths st = fills) in C.
  change (map geom (glowPaths st)
          = if glowEnabled then map geom fills else []) in G.
  change (map fill (glowPaths st)
          = if glowEnabled then map fill fills else []) in F.
  change (map geom (bulbPaths st)
          = if bulbEnabled then map geom fills else []) in B.
  change (pathCache st
          = Spec.run_calls toStr Math_cos Math_sin Math_PI cache own) in P.
  assert (P' : pathCache st
               = Spec.run_calls toStr Math_cos Math_sin Math_PI empty_cache
                   (calls ++ own)%list).
  { rewrite P. symmetry. apply run_calls_app. }
  repeat split; try assumption.
  rewrite P'. apply run_calls_bounded.
Qed.

(** The theorem on a grid of 2 x 2 cells of size 8 with a gap of 2, three
    of them coloured, after a circle has been drawn at the place of the
    first cell, with numbers printed in decimal. *)
Lemma renderCells_shows_the_grid_witness :
  let pixelData :=
    [[Some "#ff0000"; None]; [Some "#00ff00"; Some "#0000ff"]] in
  let cells := [(n0, n0); (n1, n0); (n0, n1); (n1, n1)] in
  let glow :=
    {| glow_size := None; glow_spread := None; glow_offsetX := None;
       glow_offsetY := None; glow_opacity := None; glow_blendMode := None |} in
  let bulb :=
    {| intensity := None; radius := None; positionX := None;
       positionY := None; color := None; blendMode := None |} in
  let circle :=
    {| Spec.call_x := n1; Spec.call_y := n1; Spec.call_size := JS.of_Z 8;
       Spec.call_shape := "circle"; Spec.call_cornerRadius := None;
       Spec.call_customShape := None |} in
  let own := Spec.calls_of (JS.of_Z 8) n2 None "rectangle" None pixelData cells in
  (forall c : Spec.Call,
      In c own ->
      Spec.agrees JS.toString (fun a => a) (fun a => a) n3 [circle] c)
  /\ Spec.separated JS.toString (fun a => a) (fun a => a) n3 own
  /\ crispPaths
       (renderCells JS.toString (fun a => a) (fun a => a) n3 (JS.of_Z 8) n2
          pixelData None "rectangle" None true glow false bulb
          (Spec.run_calls JS.toString (fun a => a) (fun a => a) n3
             empty_cache [circle]) cells)
     = Spec.fills JS.toString (fun a => a) (fun a => a) n3 (JS.of_Z 8) n2 None
         "rectangle" None pixelData cells.
Proof.
  intros pixelData cells glow bulb circle own.
  assert (H1 : forall c : Spec.Call,
             In c own ->
             Spec.agrees JS.toString (fun a => a) (fun a => a) n3 [circle] c).
  { intros c Hc h [<- | []] K.
    destruct Hc as [<- | [<- | [<- | []]]]; vm_compute in K; discriminate. }
  assert (H2 : Spec.separated JS.toString (fun a => a) (fun a => a) n3 own).
  { intros c Hc h Hh K.
    destruct Hc as [<- | [<- | [<- | []]]];
      destruct Hh as [<- | [<- | [<- | []]]];
      first [reflexivity | vm_compute in K; discriminate]. }
  split; [exact H1 |]. split; [exact H2 |].
  exact (proj1 (renderCells_shows_the_grid JS.toString (fun a => a)
                  (fun a => a) n3 (JS.of_Z 8) n2 pixelData None "rectangle"
                  None true glow false bulb [circle] cells H1 H2)).
Defined.

End MemoProps.

(** ** Bounds and fallbacks of a render *)

Module RenderEdgeProps.

Import SVGRenderer NumberFacts LayerProps.

Lemma or_number_not_NaN (v : option JS.number) :
  JS.or_number v n0 <> JS.NaN.
Proof.
  unfold JS.or_number.
  destruct v as [[q | | |] |]; cbn [JS.truthy]; try discriminate.
  destruct (negb (JS.is_zero q)); discriminate.
Qed.

Lemma or_number_absent (d : JS.number) :
  JS.or_number None d = d /\ JS.or_number (Some JS.NaN) d = d.
Proof. split; reflexivity. Qed.

Section Renderer.

Variable toStr : JS.number -> string.
Variable Math_cos Math_sin : JS.number -> JS.number.
Variable Math_PI pixelSize gridGap : JS.number.
Variable pixelData : list (list (option string)).
Variable cornerRadius : option CornerRadius.
Variable pixelShape : string.
Variable customShape : option CustomShape.
Variable glowEnabled : bool.
Variable glowSettings : GlowSettings.
Variable bulbEnabled : bool.
Variable bulbSettings : BulbSettings.

Local Notation renderCell :=
  (renderCell toStr Math_cos Math_sin Math_PI pixelSize gridGap pixelData
     cornerRadius pixelShape customShape glowEnabled glowSettings bulbEnabled
     bulbSettings).
Local Notation renderCells :=
  (renderCells toStr Math_cos Math_sin Math_PI pixelSize gridGap pixelData
     cornerRadius pixelShape customShape glowEnabled glowSettings bulbEnabled
     bulbSettings).

(** A cell adds three elements at most. *)
Lemma renderCell_at_most_three (st : layers) (cell : JS.number * JS.number) :
  (List.length (layered (renderCell st cell))
   <= List.length (layered st) + 3)%nat.
Proof.
  unfold SVGRenderer.renderCell, layered. destruct cell as [x y].
  destruct (pixelAt pixelData x y) as [color |]; [| lia].
  destruct (JS.truthy_string color); [| lia].
  destruct (createShapePath _ _ _ _ _ _ _ _ _ _ _) as [pathData cache].
  cbn [glowPaths crispPaths bulbPaths].
  destruct glowEnabled, bulbEnabled; rewrite !length_app;
    cbn [List.length]; lia.
Qed.

Lemma fold_renderCell_length (cells : list (JS.number * JS.number)) :
  forall st : layers,
    (List.length (layered (fold_left renderCell cells st))
     <= List.length (layered st) + 3 * List.length cells)%nat.
Proof.
  induction cells as [| cell rest IH]; intros st; cbn [fold_left List.length].
  - lia.
  - pose proof (IH (renderCell st cell)).
    pose proof (renderCell_at_most_three st cell). lia.
Qed.

Lemma renderCells_length (cache : Cache)
    (cells : list (JS.number * JS.number)) :
  (List.length (layered (renderCells cache cells))
   <= 3 * List.length cells)%nat.
Proof.
  exact (fold_renderCell_length cells (no_layers cache)).
Qed.

End Renderer.

Lemma cells_of_length (ys xs : list JS.number) :
  List.length (cells_of ys xs) = (List.length ys * List.length xs)%nat.
Proof.
  unfold cells_of. induction ys as [| y ys IH]; [reflexivity |].
  cbn [flat_map List.length].
  rewrite length_app, length_map, IH. lia.
Qed.

Lemma Z_range_length (a b : Z) :
  List.length (Spec.Z_range a b) = Z.to_nat (b - a + 1).
Proof. unfold Spec.Z_range. rewrite length_map, length_seq. reflexivity. Qed.

(** X14.  The attributes computed for the glow filter and the opacity of
    the first stop of the bulb gradient are never [NaN], whatever the pixel
    size and whatever the settings hold or lack; a setting that is missing
    or [NaN] gives 0. *)
Theorem defs_attributes_are_numbers
    (toStr : JS.number -> string) (pixelSize : JS.number)
    (glowSettings : GlowSettings) (bulbSettings : BulbSettings) :
  let f := glowFilterDef pixelSize glowSettings in
  morphology_radius f <> JS.NaN
  /\ offset_dx f <> JS.NaN
  /\ offset_dy f <> JS.NaN
  /\ blur_stdDeviation f <> JS.NaN
  /\ opacity_slope f <> JS.NaN
  /\ (exists a : JS.number,
        option_map stopOpacity (hd_error (stops (bulbGradient toStr bulbSettings)))
        = Some (AttrNumber a)
        /\ a <> JS.NaN)
  /\ glowFilterDef pixelSize
       {| glow_size := None; glow_spread := None; glow_offsetX := None;
          glow_offsetY := None; glow_opacity := None;
          glow_blendMode := glow_blendMode glowSettings |}
     = {| morphology_radius := n0; offset_dx := n0; offset_dy := n0;
          blur_stdDeviation := n0; opacity_slope := n0 |}.
Proof.
  intros f. unfold f, glowFilterDef.
  cbn [morphology_radius offset_dx offset_dy blur_stdDeviation opacity_slope].
  do 5 (split; [apply or_number_not_NaN |]).
  split; [| reflexivity].
  unfold bulbGradient. cbn [stops hd_error option_map stopOpacity].
  eexists. split; [reflexivity |].
  pose proof (or_number_not_NaN (intensity bulbSettings)) as H.
  assert (H100 : Q2Qc (inject_Z 100) <> Q2Qc 0)
    by (apply CoordinateProps.of_Z_nonzero; lia).
  destruct (JS.or_number (intensity bulbSettings) n0) as [q | | |].
  - unfold n100, JS.of_Z. rewrite (div_Fin _ _ H100). discriminate.
  - cbv. discriminate.
  - cbv. discriminate.
  - contradiction.
Qed.

(** X15.  Windowing bounds the work of a render by the grid, not by the
    viewport or by the data: for finite viewport values, a cell size that
    is not zero and a grid of [gridWidth] by [gridHeight] cells, a render
    returns, its pixels layer holds at most three elements for each cell of
    the grid, and its grid layer at most one line for each of the
    [gridWidth + 1] and [gridHeight + 1] cell boundaries. *)
Theorem windowing_bounds_a_render
    (toStr : JS.number -> string) (Math_cos Math_sin : JS.number -> JS.number)
    (Math_PI : JS.number) (gridWidth gridHeight : Z) (pixelSize gridGap : Qc)
    (pixelData : list (list (option string))) (showGrid : bool)
    (cornerRadius : option CornerRadius) (pixelShape : string)
    (customShape : option CustomShape) (glowEnabled : bool)
    (glowSettings : GlowSettings) (bulbEnabled : bool)
    (bulbSettings : BulbSettings) (cache : Cache)
    (vleft vtop vwidth vheight vscale : Qc) :
  (pixelSize + gridGap)%Qc <> Q2Qc 0 ->
  (0 <= gridWidth)%Z -> (0 <= gridHeight)%Z ->
  exists (defs overlay : svg_child) (pixels : list element)
         (grid : list svg_child) (cache' : Cache),
    render toStr Math_cos Math_sin Math_PI (JS.of_Z gridWidth)
      (JS.of_Z gridHeight) (JS.Fin pixelSize) (JS.Fin gridGap) pixelData
      showGrid cornerRadius pixelShape customShape glowEnabled glowSettings
      bulbEnabled bulbSettings cache
      {| left := JS.Fin vleft; top := JS.Fin vtop; width := JS.Fin vwidth;
         height := JS.Fin vheight; scale := JS.Fin vscale |}
    = Done ((defs :: PixelsLayer pixels :: overlay :: grid)%list, cache')
    /\ (Z.of_nat (List.length pixels) <= 3 * (gridWidth * gridHeight))%Z
    /\ Forall (fun child =>
                 exists lines,
                   child = GridLayer lines
                   /\ (Z.of_nat (List.length lines)
                       <= (gridWidth + 1) + (gridHeight + 1))%Z)
         grid
    /\ (List.length grid <= 1)%nat.
Proof.
  intros Hc Hw Hh. unfold render.
  rewrite (ViewportProps.visibleArea_finite vleft vtop vwidth vheight vscale
             pixelSize gridGap gridWidth gridHeight Hc).
  set (sx := Z.max 0 (Spec.rawStart vleft (pixelSize + gridGap) - 5)).
  set (ex := Z.min gridWidth
               (Spec.rawEnd vleft vwidth (pixelSize + gridGap) + 5)).
  set (sy := Z.max 0 (Spec.rawStart vtop (pixelSize + gridGap) - 5)).
  set (ey := Z.min gridHeight
               (Spec.rawEnd vtop vheight (pixelSize + gridGap) + 5)).
  assert (Bx : (0 <= sx /\ ex <= gridWidth)%Z) by (unfold sx, ex; lia).
  assert (By : (0 <= sy /\ ey <= gridHeight)%Z) by (unfold sy, ey; lia).
  assert (Hlines :
    exists lines,
      gridLines toStr (JS.of_Z gridWidth) (JS.of_Z gridHeight)
        (JS.Fin pixelSize) (JS.Fin gridGap) showGrid
        {| startX := JS.of_Z sx; endX := JS.of_Z ex;
           startY := JS.of_Z sy; endY := JS.of_Z ey |}
      = Done lines
      /\ forall l, lines = Some l ->
                   (Z.of_nat (List.length l)
                    <= (gridWidth + 1) + (gridHeight + 1))%Z).
  { destruct showGrid.
    - rewrite gridLines_window. eexists. split; [reflexivity |].
      intros l E. injection E as <-.
      rewrite length_app, !length_map, !Z_range_length. lia.
    - exists None. split; [reflexivity | discriminate]. }
  destruct Hlines as (lines & El & Bl). rewrite El.
  assert (Bgrid :
    Forall (fun child =>
              exists l,
                child = GridLayer l
                /\ (Z.of_nat (List.length l)
                    <= (gridWidth + 1) + (gridHeight + 1))%Z)
      (if showGrid
       then [GridLayer (match lines with Some l => l | None => [] end)]
       else [])
    /\ (List.length
          (if showGrid
           then [GridLayer (match lines with Some l => l | None => [] end)]
           else [])
        <= 1)%nat).
  { destruct showGrid; cbn [List.length]; split; try lia; constructor;
      [| constructor].
    destruct lines as [l |].
    - exists l. split; [reflexivity | apply Bl; reflexivity].
    - exists []. split; [reflexivity | cbn [List.length]; lia]. }
  destruct Bgrid as [Bg1 Bg2].
  unfold renderPixels. cbn [startX endX startY endY].
  rewrite !for_range_excl_of_Z. unfold run_bind.
  set (xs := map JS.of_Z (Spec.Z_range sx (ex - 1))).
  assert (Lx : (Z.of_nat (List.length xs) <= gridWidth)%Z)
    by (unfold xs; rewrite length_map, Z_range_length; lia).
  assert (Ly : (Z.of_nat (List.length (map JS.of_Z (Spec.Z_range sy (ey - 1))))
                <= gridHeight)%Z)
    by (rewrite length_map, Z_range_length; lia).
  destruct (map JS.of_Z (Spec.Z_range sy (ey - 1))) as [| y ys] eqn:Ey.
  - eexists _, _, [], _, cache. split; [reflexivity |].
    split; [cbn [List.length]; nia |]. split; assumption.
  - eexists _, _, _, _, _. split; [reflexivity |].
    split; [| split; assumption].
    pose proof (renderCells_length toStr Math_cos Math_sin Math_PI
                  (JS.Fin pixelSize) (JS.Fin gridGap) pixelData cornerRadius
                  pixelShape customShape glowEnabled glowSettings
                  bulbEnabled bulbSettings cache (cells_of (y :: ys) xs)) as B.
    rewrite cells_of_length in B. nia.
Qed.

(** The theorem on a 4 x 4 grid of 10-unit cells with one coloured cell,
    seen through a viewport of 15 by 15 units. *)
Lemma windowing_bounds_a_render_witness :
  (0 <= 4)%Z
  /\ exists (defs overlay : svg_child) (pixels : list element)
            (grid : list svg_child) (cache' : Cache),
       render JS.toString (fun a => a) (fun a => a) n3 (JS.of_Z 4) (JS.of_Z 4)
         (JS.Fin (Q2Qc 8)) (JS.Fin (Q2Qc 2)) [[Some "#ff0000"]] true None
         "rectangle" None true
         {| glow_size := None; glow_spread := None; glow_offsetX := None;
            glow_offsetY := None; glow_opacity := None;
            glow_blendMode := None |}
         false
         {| intensity := None; radius := None; positionX := None;
            positionY := None; color := None; blendMode := None |}
         empty_cache
         {| left := JS.Fin (Q2Qc 0); top := JS.Fin (Q2Qc 0);
            width := JS.Fin (Q2Qc 15); height := JS.Fin (Q2Qc 15);
            scale := JS.Fin (Q2Qc 1) |}
       = Done ((defs :: PixelsLayer pixels :: overlay :: grid)%list, cache')
       /\ (Z.of_nat (List.length pixels) <= 3 * (4 * 4))%Z
       /\ Forall (fun child =>
                    exists lines,
                      child = GridLayer lines
                      /\ (Z.of_nat (List.length lines) <= (4 + 1) + (4 + 1))%Z)
            grid
       /\ (List.length grid <= 1)%nat.
Proof.
  assert (H4 : (0 <= 4)%Z) by lia.
  assert (Hc : (Q2Qc 8 + Q2Qc 2)%Qc <> Q2Qc 0).
  { intros H. apply (f_equal this) in H. vm_compute in H. discriminate. }
  split; [exact H4 |].
  exact (windowing_bounds_a_render JS.toString (fun a => a) (fun a => a) n3
           4 4 (Q2Qc 8) (Q2Qc 2) [[Some "#ff0000"]] true None "rectangle" None
           true
           {| glow_size := None; glow_spread := None; glow_offsetX := None;
              glow_offsetY := None; glow_opacity := None;
              glow_blendMode := None |}
           false
           {| intensity := None; radius := None; positionX := None;
              positionY := None; color := None; blendMode := None |}
           empty_cache (Q2Qc 0) (Q2Qc 0) (Q2Qc 15) (Q2Qc 15) (Q2Qc 1)
           Hc H4 H4).
Defined.

(** The default case of the [switch]. *)
Lemma shapePath_fallback
    (toStr : JS.number -> string) (Math_cos Math_sin : JS.number -> JS.number)
    (Math_PI x y size : JS.number) (shape : string)
    (cornerRadius : option CornerRadius) (customPath customPath' : string) :
  shape <> "circle" -> shape <> "diamond" -> shape <> "triangle" ->
  shape <> "hexagon" -> (shape = "custom" -> customPath = "") ->
  shapePath toStr Math_cos Math_sin Math_PI x y size shape cornerRadius
    customPath
  = shapePath toStr Math_cos Math_sin Math_PI x y size "rectangle"
      cornerRadius customPath'.
Proof.
  intros Hc Hd Ht Hh Hcustom. unfold shapePath.
  assert (E : String.eqb shape "custom" && JS.truthy_string customPath
              = false).
  { destruct (String.eqb_spec shape "custom") as [Es | Es]; [| reflexivity].
    rewrite (Hcustom Es). reflexivity. }
  rewrite E.
  destruct (String.eqb_spec shape "circle"); [contradiction |].
  destruct (String.eqb_spec shape "diamond"); [contradiction |].
  destruct (String.eqb_spec shape "triangle"); [contradiction |].
  destruct (String.eqb_spec shape "hexagon"); [contradiction |].
  reflexivity.
Qed.

(** X16.  A shape name that is none of the four drawn shapes falls back to
    the rectangle, and so does ['custom'] when the custom path is empty:
    [createShapePath] returns for it the path it returns for ['rectangle']
    with the same position, size, corner radii and custom shape, each call
    made after any calls of which none took its key string with another
    path. *)
Theorem unknown_shape_is_a_rectangle
    (toStr : JS.number -> string) (Math_cos Math_sin : JS.number -> JS.number)
    (Math_PI : JS.number) (calls calls' : list Spec.Call)
    (x y size : JS.number) (shape : string)
    (cornerRadius : option CornerRadius) (customShape : option CustomShape) :
  let call (name : string) :=
    {| Spec.call_x := x; Spec.call_y := y; Spec.call_size := size;
       Spec.call_shape := name; Spec.call_cornerRadius := cornerRadius;
       Spec.call_customShape := customShape |} in
  shape <> "circle" -> shape <> "diamond" -> shape <> "triangle" ->
  shape <> "hexagon" ->
  (shape = "custom" -> customPath_of customShape = "") ->
  Spec.agrees toStr Math_cos Math_sin Math_PI calls (call shape) ->
  Spec.agrees toStr Math_cos Math_sin Math_PI calls' (call "rectangle") ->
  fst (createShapePath toStr Math_cos Math_sin Math_PI
         (Spec.run_calls toStr Math_cos Math_sin Math_PI empty_cache calls)
         x y size shape cornerRadius customShape)
  = fst (createShapePath toStr Math_cos Math_sin Math_PI
           (Spec.run_calls toStr Math_cos Math_sin Math_PI empty_cache calls')
           x y size "rectangle" cornerRadius customShape).
Proof.
  intros call Hc Hd Ht Hh Hcustom Ha Hr.
  pose proof (CacheProps.call_after_history toStr Math_cos Math_sin Math_PI
                calls _ Ha) as E1.
  pose proof (CacheProps.call_after_history toStr Math_cos Math_sin Math_PI
                calls' _ Hr) as E2.
  unfold Spec.call, Spec.path_of, call in E1, E2.
  cbn [Spec.call_x Spec.call_y Spec.call_size Spec.call_shape
       Spec.call_cornerRadius Spec.call_customShape] in E1, E2.
  rewrite E1, E2. apply shapePath_fallback; assumption.
Qed.

(** The theorem for the name ['star'] after a circle has been drawn at the
    same place, with numbers printed in decimal. *)
Lemma unknown_shape_is_a_rectangle_witness :
  let circle :=
    {| Spec.call_x := n1; Spec.call_y := n2; Spec.call_size := JS.of_Z 8;
       Spec.call_shape := "circle"; Spec.call_cornerRadius := None;
       Spec.call_customShape := None |} in
  "star" <> "circle"
  /\ fst (createShapePath JS.toString (fun a => a) (fun a => a) n3
            (Spec.run_calls JS.toString (fun a => a) (fun a => a) n3
               empty_cache [circle])
            n1 n2 (JS.of_Z 8) "star" None None)
     = fst (createShapePath JS.toString (fun a => a) (fun a => a) n3
              empty_cache n1 n2 (JS.of_Z 8) "rectangle" None None).
Proof.
  intros circle.
  assert (H1 : "star" <> "circle") by discriminate.
  assert (H2 : "star" <> "diamond") by discriminate.
  assert (H3 : "star" <> "triangle") by discriminate.
  assert (H4 : "star" <> "hexagon") by discriminate.
  assert (H5 : "star" = "custom" -> customPath_of None = "") by reflexivity.
  assert (Ha : Spec.agrees JS.toString (fun a => a) (fun a => a) n3 [circle]
                 {| Spec.call_x := n1; Spec.call_y := n2;
                    Spec.call_size := JS.of_Z 8; Spec.call_shape := "star";
                    Spec.call_cornerRadius := None;
                    Spec.call_customShape := None |}).
  { intros h [<- | []] K. vm_compute in K. discriminate. }
  assert (Hr : Spec.agrees JS.toString (fun a => a) (fun a => a) n3 []
                 {| Spec.call_x := n1; Spec.call_y := n2;
                    Spec.call_size := JS.of_Z 8;
                    Spec.call_shape := "rectangle";
                    Spec.call_cornerRadius := None;
                    Spec.call_customShape := None |}).
  { intros h []. }
  split; [exact H1 |].
  exact (unknown_shape_is_a_rectangle JS.toString (fun a => a) (fun a => a)
           n3 [circle] [] n1 n2 (JS.of_Z 8) "star" None None H1 H2 H3 H4 H5
           Ha Hr).
Defined.

End RenderEdgeProps.

(** ** The grid an import paints, and the colour history *)

Module PaintProps.

Import App NumberFacts.

Lemma nth_error_indexed {A B : Type} (g : nat -> A -> B) (l : list A) :
  forall s n : nat,
    nth_error (map (fun '(j, a) => g j a) (combine (seq s (List.length l)) l)) n
    = option_map (g (s + n)%nat) (nth_error l n).
Proof.
  induction l as [| a l IH]; intros s n.
  - destruct n; reflexivity.
  - cbn [List.length seq combine map]. destruct n as [| n].
    + cbn [nth_error option_map]. rewrite Nat.add_0_r. reflexivity.
    + cbn [nth_error]. rewrite IH. f_equal. f_equal. lia.
Qed.

Lemma length_indexed {A B : Type} (g : nat -> A -> B) (l : list A) (s : nat) :
  List.length (map (fun '(j, a) => g j a) (combine (seq s (List.length l)) l))
  = List.length l.
Proof.
  rewrite length_map, length_combine, length_seq. lia.
Qed.

(** One assignment of the painting loop. *)
Lemma grid_set_spec (W H : nat) (grid : Grid) (x y : N) (v : string) :
  Spec.rectangular W H grid ->
  Spec.rectangular W H (grid_set grid x y v)
  /\ forall j i : nat,
       Spec.cell (grid_set grid x y v) j i
       = if ((j =? N.to_nat y) && (i =? N.to_nat x) && (j <? H)
             && (i <? W))%nat
         then Some v
         else Spec.cell grid j i.
Proof.
  intros Hr. pose proof Hr as [Hh Hw]. unfold grid_set.
  assert (Hrow : (0 < H)%nat ->
                 match grid with
                 | row0 :: _ => List.length row0
                 | [] => 0%nat
                 end = W).
  { intros H0. destruct grid as [| row0 rest]; [cbn in Hh; lia |].
    inversion Hw; assumption. }
  destruct ((N.to_nat y <? List.length grid)%nat
            && (N.to_nat x <? match grid with
                              | row0 :: _ => List.length row0
                              | [] => 0
                              end)%nat) eqn:G.
  - apply andb_prop in G. destruct G as [Gy Gx].
    apply Nat.ltb_lt in Gy, Gx. rewrite Hrow in Gx by lia.
    split; [split |].
    + rewrite length_indexed. exact Hh.
    + apply Forall_forall. intros row Hin.
      apply In_nth_error in Hin. destruct Hin as (n & Hn).
      rewrite (nth_error_indexed
                 (fun j row =>
                    if (j =? N.to_nat y)%nat
                    then map (fun '(i, c) =>
                                if (i =? N.to_nat x)%nat then Some v else c)
                           (combine (seq 0 (List.length row)) row)
                    else row)) in Hn.
      destruct (nth_error grid n) as [row0 |] eqn:E; [| discriminate].
      cbn [option_map] in Hn. injection Hn as <-.
      assert (L : List.length row0 = W).
      { rewrite Forall_forall in Hw. apply Hw.
        eapply nth_error_In. exact E. }
      cbn [Nat.add]. destruct (n =? N.to_nat y)%nat; [| exact L].
      rewrite length_indexed. exact L.
    + intros j i. unfold Spec.cell.
      rewrite (nth_error_indexed
                 (fun j row =>
                    if (j =? N.to_nat y)%nat
                    then map (fun '(i, c) =>
                                if (i =? N.to_nat x)%nat then Some v else c)
                           (combine (seq 0 (List.length row)) row)
                    else row)).
      cbn [Nat.add].
      destruct (nth_error grid j) as [row |] eqn:E; cbn [option_map].
      * assert (L : List.length row = W).
        { rewrite Forall_forall in Hw. apply Hw.
          eapply nth_error_In. exact E. }
        assert (Hj : (j < H)%nat).
        { rewrite <- Hh. apply nth_error_Some. congruence. }
        destruct (Nat.eqb_spec j (N.to_nat y)); cbn [andb].
        -- rewrite (nth_error_indexed
                      (fun i c => if (i =? N.to_nat x)%nat then Some v else c)).
           cbn [Nat.add].
           destruct (nth_error row i) as [c |] eqn:Ec; cbn [option_map].
           ++ assert (Hi : (i < W)%nat).
              { rewrite <- L. apply nth_error_Some. congruence. }
              destruct (Nat.eqb_spec i (N.to_nat x)); cbn [andb].
              ** destruct (Nat.ltb_spec j H); [| lia].
                 destruct (Nat.ltb_spec i W); [| lia]. reflexivity.
              ** reflexivity.
           ++ assert (Hi : (W <= i)%nat).
              { rewrite <- L. apply nth_error_None. exact Ec. }
              destruct (i =? N.to_nat x)%nat, (j <? H)%nat; cbn [andb];
                try reflexivity.
              destruct (Nat.ltb_spec i W); [lia | reflexivity].
        -- reflexivity.
      * assert (Hj : (H <= j)%nat).
        { rewrite <- Hh. apply nth_error_None. exact E. }
        destruct (j =? N.to_nat y)%nat, (i =? N.to_nat x)%nat; cbn [andb];
          try reflexivity.
        destruct (Nat.ltb_spec j H); [lia | reflexivity].
  - split; [exact Hr |]. intros j i.
    destruct (Nat.eqb_spec j (N.to_nat y)); cbn [andb]; [| reflexivity].
    destruct (Nat.eqb_spec i (N.to_nat x)); cbn [andb]; [| reflexivity].
    destruct (Nat.ltb_spec j H); cbn [andb]; [| reflexivity].
    destruct (Nat.ltb_spec i W); [| reflexivity].
    exfalso. subst j i.
    rewrite Hrow in G by lia. rewrite Hh in G.
    destruct (Nat.ltb_spec (N.to_nat y) H); [| lia].
    destruct (Nat.ltb_spec (N.to_nat x) W); [| lia].
    discriminate.
Qed.

(** The pixel of index [idx] is the cell in row [idx / W], column
    [idx mod W]. *)
Lemma pixel_cell (W idx : N) (j i : nat) :
  (i < N.to_nat W)%nat ->
  ((j =? N.to_nat (idx / W)) && (i =? N.to_nat (idx mod W)))%nat
  = (N.of_nat j * W + N.of_nat i =? idx)%N.
Proof.
  intros Hi.
  assert (HW : W <> 0%N) by lia.
  pose proof (N.div_mod idx W HW) as Hdm.
  pose proof (N.mod_lt idx W HW) as Hlt.
  destruct (N.eqb_spec (N.of_nat j * W + N.of_nat i) idx) as [E | E].
  - assert (Hq : N.of_nat j = (idx / W)%N).
    { apply (N.div_unique idx W (N.of_nat j) (N.of_nat i)); lia. }
    assert (Hm : N.of_nat i = (idx mod W)%N).
    { apply (N.mod_unique idx W (N.of_nat j) (N.of_nat i)); lia. }
    rewrite <- Hq, <- Hm, !Nat2N.id, !Nat.eqb_refl. reflexivity.
  - destruct (Nat.eqb_spec j (N.to_nat (idx / W))) as [Ej | Ej];
      [| reflexivity].
    destruct (Nat.eqb_spec i (N.to_nat (idx mod W))) as [Ei | Ei];
      [| reflexivity].
    exfalso. apply E. subst j i. rewrite !N2Nat.id. lia.
Qed.

Section Painter.

Variable rgbToHex : Z -> Z -> Z -> string.
Variables (W H : N).

Local Notation rectangular :=
  (Spec.rectangular (N.to_nat W) (N.to_nat H)).

(** The pixels of one cluster. *)
Lemma paint_cluster (hexColor : string) (pixels : list SampledPixel) :
  forall grid : Grid,
    rectangular grid ->
    let grid' :=
      fold_left
        (fun grid pixel =>
           grid_set grid (index pixel mod W)%N (index pixel / W)%N hexColor)
        pixels grid in
    rectangular grid'
    /\ forall j i : nat,
         (j < N.to_nat H)%nat -> (i < N.to_nat W)%nat ->
         Spec.cell grid' j i
         = if existsb
                (fun p => N.eqb (index p) (N.of_nat j * W + N.of_nat i))
                pixels
           then Some hexColor
           else Spec.cell grid j i.
Proof.
  induction pixels as [| p rest IH]; intros grid Hr.
  - split; [exact Hr | reflexivity].
  - cbn [fold_left existsb].
    destruct (grid_set_spec (N.to_nat W) (N.to_nat H) grid
                (index p mod W)%N (index p / W)%N hexColor Hr) as [R1 C1].
    destruct (IH _ R1) as [R2 C2]. split; [exact R2 |].
    intros j i Hj Hi. rewrite (C2 j i Hj Hi), C1.
    rewrite (pixel_cell W (index p) j i Hi).
    destruct (Nat.ltb_spec j (N.to_nat H)); [| lia].
    destruct (Nat.ltb_spec i (N.to_nat W)); [| lia].
    rewrite !andb_true_r. rewrite (N.eqb_sym (index p)).
    destruct (N.of_nat j * W + N.of_nat i =? index p)%N;
      destruct (existsb _ rest); reflexivity.
Qed.

(** The two things the loop over the clusters builds, one at a time. *)
Let paint_grid (grid : Grid) (cluster : Cluster) : Grid :=
  fold_left
    (fun grid pixel =>
       grid_set grid (index pixel mod W)%N (index pixel / W)%N
         (Spec.cluster_colour rgbToHex cluster))
    (pixels cluster) grid.

Let add_colour (colors : list string) (cluster : Cluster) : list string :=
  if existsb (String.eqb (Spec.cluster_colour rgbToHex cluster)) colors
  then colors
  else (colors ++ [Spec.cluster_colour rgbToHex cluster])%list.

Lemma paintClusters_split (clusters : list Cluster) :
  forall (grid : Grid) (colors : list string),
    fold_left
      (fun (acc : list (list (option string)) * list string) cluster =>
         let (grid, colors) := acc in
         let hexColor :=
           rgbToHex (center_r (center cluster)) (center_g (center cluster))
             (center_b (center cluster)) in
         (fold_left
            (fun grid pixel =>
               grid_set grid (index pixel mod W)%N (index pixel / W)%N
                 hexColor)
            (pixels cluster) grid,
          if existsb (String.eqb hexColor) colors then colors
          else (colors ++ [hexColor])%list))
      clusters (grid, colors)
    = (fold_left paint_grid clusters grid,
       fold_left add_colour clusters colors).
Proof.
  induction clusters as [| c rest IH]; intros grid colors; [reflexivity |].
  cbn [fold_left]. rewrite IH. reflexivity.
Qed.

Lemma paint_clusters (clusters : list Cluster) :
  forall grid : Grid,
    rectangular grid ->
    rectangular (fold_left paint_grid clusters grid)
    /\ forall j i : nat,
         (j < N.to_nat H)%nat -> (i < N.to_nat W)%nat ->
         Spec.cell (fold_left paint_grid clusters grid) j i
         = Spec.repainted rgbToHex clusters (N.of_nat j * W + N.of_nat i)
             (Spec.cell grid j i).
Proof.
  induction clusters as [| c rest IH]; intros grid Hr.
  - split; [exact Hr | reflexivity].
  - cbn [fold_left Spec.repainted].
    destruct (paint_cluster (Spec.cluster_colour rgbToHex c) (pixels c)
                grid Hr) as [R1 C1].
    destruct (IH (paint_grid grid c) R1) as [R2 C2]. split; [exact R2 |].
    intros j i Hj Hi. rewrite (C2 j i Hj Hi). unfold Spec.repainted.
    f_equal. unfold paint_grid. rewrite (C1 j i Hj Hi). reflexivity.
Qed.

Lemma existsb_eqb_In (c : string) (l : list string) :
  existsb (String.eqb c) l = true <-> In c l.
Proof.
  rewrite existsb_exists. split.
  - intros (x & Hin & E). apply String.eqb_eq in E. subst. exact Hin.
  - intros Hin. exists c. split; [exact Hin | apply String.eqb_refl].
Qed.

Lemma add_colours (clusters : list Cluster) :
  forall colors : list string,
    NoDup colors ->
    NoDup (fold_left add_colour clusters colors)
    /\ forall c : string,
         In c (fold_left add_colour clusters colors)
         <-> In c colors
             \/ exists cluster,
                  In cluster clusters
                  /\ Spec.cluster_colour rgbToHex cluster = c.
Proof.
  induction clusters as [| k rest IH]; intros colors Hn.
  - split; [exact Hn |]. intros c. cbn [fold_left In].
    split; [auto | intros [Hc | (? & [] & _)]; exact Hc].
  - cbn [fold_left].
    assert (Hn1 : NoDup (add_colour colors k)
                  /\ forall c, In c (add_colour colors k)
                               <-> In c colors
                                   \/ Spec.cluster_colour rgbToHex k = c).
    { unfold add_colour.
      destruct (existsb _ colors) eqn:E.
      - apply existsb_eqb_In in E. split; [exact Hn |].
        intros c. split; [auto | intros [Hc | <-]; assumption].
      - split.
        + apply CacheProps.NoDup_snoc; [exact Hn |].
          intros Hin. apply existsb_eqb_In in Hin. congruence.
        + intros c. rewrite in_app_iff. cbn [In]. tauto. }
    destruct Hn1 as [Hn1 Hin1]. destruct (IH _ Hn1) as [Hn2 Hin2].
    split; [exact Hn2 |]. intros c. rewrite Hin2, Hin1. cbn [In]. split.
    + intros [[Hc | Hk] | (cl & Hcl & E)];
        [left; exact Hc | right; exists k; auto
        | right; exists cl; auto].
    + intros [Hc | (cl & [<- | Hcl] & E)];
        [left; left; exact Hc | left; right; exact E
        | right; exists cl; auto].
Qed.

End Painter.

(** *** [[...new Set(l)]] *)

Lemma dedup_In (l : list string) :
  forall (seen : list string) (c : string),
    In c (dedup seen l) <-> In c l /\ ~ In c seen.
Proof.
  induction l as [| s rest IH]; intros seen c; cbn [dedup In].
  - tauto.
  - destruct (existsb (String.eqb s) seen) eqn:E.
    + apply existsb_eqb_In in E. rewrite IH. split.
      * tauto.
      * intros [[<- | Hc] Hn]; [contradiction | tauto].
    + assert (Hs : ~ In s seen).
      { intros H. apply existsb_eqb_In in H. congruence. }
      cbn [In]. rewrite IH. cbn [In]. split.
      * intros [<- | [Hc Hn]]; [tauto |]. tauto.
      * intros [[<- | Hc] Hn]; [tauto |].
        destruct (string_dec s c) as [-> | Hne]; [tauto |]. right. tauto.
Qed.

Lemma dedup_NoDup (l : list string) :
  forall seen : list string, NoDup (dedup seen l).
Proof.
  induction l as [| s rest IH]; intros seen; cbn [dedup].
  - constructor.
  - destruct (existsb (String.eqb s) seen); [apply IH |].
    constructor; [| apply IH].
    rewrite dedup_In. cbn [In]. tauto.
Qed.

(** Only the members of [seen] matter. *)
Lemma dedup_seen_ext (l : list string) :
  forall seen seen' : list string,
    (forall c, In c seen <-> In c seen') -> dedup seen l = dedup seen' l.
Proof.
  induction l as [| s rest IH]; intros seen seen' H; cbn [dedup].
  - reflexivity.
  - assert (E : existsb (String.eqb s) seen = existsb (String.eqb s) seen').
    { destruct (existsb (String.eqb s) seen) eqn:E1;
        destruct (existsb (String.eqb s) seen') eqn:E2; try reflexivity.
      - apply existsb_eqb_In, H, existsb_eqb_In in E1. congruence.
      - apply existsb_eqb_In, H, existsb_eqb_In in E2. congruence. }
    rewrite E. destruct (existsb (String.eqb s) seen').
    + apply IH. exact H.
    + f_equal. apply IH. intros c. cbn [In]. rewrite H. tauto.
Qed.

(** A list without duplicates at the front stays as it is. *)
Lemma dedup_fresh_prefix (q : list string) :
  forall (seen rest : list string),
    NoDup q -> (forall c, In c q -> ~ In c seen) ->
    dedup seen (q ++ rest) = (q ++ dedup (q ++ seen) rest)%list.
Proof.
  induction q as [| s q IH]; intros seen rest Hn Hs; [reflexivity |].
  cbn [app dedup].
  destruct (existsb (String.eqb s) seen) eqn:E.
  - apply existsb_eqb_In in E. exfalso. apply (Hs s); [left; reflexivity |].
    exact E.
  - inversion Hn as [| ? ? Hnot Hq]; subst. f_equal.
    rewrite IH; [| exact Hq |].
    + f_equal. apply dedup_seen_ext. intros c.
      rewrite !in_app_iff. cbn [In]. rewrite in_app_iff. tauto.
    + intros c Hc [<- | Hin]; [contradiction |]. apply (Hs c); [| exact Hin].
      right. exact Hc.
Qed.

Lemma NoDup_firstn {A : Type} (l : list A) :
  NoDup l -> forall n : nat, NoDup (firstn n l).
Proof.
  induction 1 as [| a l Ha Hl IH]; intros [| n]; cbn [firstn];
    try constructor.
  - intros Hin. apply Ha. revert Hin. clear.
    revert n. induction l as [| b l IH]; intros [| n]; cbn; try tauto.
    intros [-> | H]; [left; reflexivity | right; eapply IH; exact H].
  - apply IH.
Qed.

Lemma In_firstn_In {A : Type} (l : list A) (a : A) :
  forall n : nat, In a (firstn n l) -> In a l.
Proof.
  induction l as [| b l IH]; intros [| n]; cbn; try tauto.
  intros [-> | H]; [left; reflexivity | right; eapply IH; exact H].
Qed.

(** The grid and the colours of [paintClusters]. *)
Lemma paintClusters_result
    (rgbToHex : Z -> Z -> Z -> string) (targetWidth targetHeight : N)
    (clusters : list Cluster) :
  let painted := paintClusters rgbToHex targetWidth targetHeight clusters in
  Spec.rectangular (N.to_nat targetWidth) (N.to_nat targetHeight)
    (fst painted)
  /\ (forall j i : nat,
        (j < N.to_nat targetHeight)%nat -> (i < N.to_nat targetWidth)%nat ->
        Spec.cell (fst painted) j i
        = Spec.repainted rgbToHex clusters
            (N.of_nat j * targetWidth + N.of_nat i) None)
  /\ NoDup (snd painted)
  /\ (forall c : string,
        In c (snd painted)
        <-> exists cluster,
              In cluster clusters
              /\ Spec.cluster_colour rgbToHex cluster = c).
Proof.
  intros painted. unfold painted, paintClusters.
  rewrite paintClusters_split. cbn [fst snd].
  destruct (paint_clusters rgbToHex targetWidth targetHeight clusters
              (repeat (repeat None (N.to_nat targetWidth))
                 (N.to_nat targetHeight))
              (GridEditProps.blank_rectangular _ _)) as [R C].
  destruct (add_colours rgbToHex clusters [] (NoDup_nil _)) as [Hn Hin].
  split; [exact R |]. split; [| split; [exact Hn |]].
  - intros j i Hj Hi. rewrite (C j i Hj Hi).
    rewrite GridEditProps.blank_cell. reflexivity.
  - intros c. rewrite Hin. cbn [In]. tauto.
Qed.

(** X17.  The grid an import paints.  It has [targetHeight] rows of
    [targetWidth] cells.  The cell in row [j] and column [i] holds the
    colour of the last cluster of the quantizer's answer that holds a pixel
    of index [j * targetWidth + i], and is empty when no cluster does.  The
    colours collected for the history are those of the clusters, each
    once. *)
Theorem import_paints_clusters
    (rgbToHex : Z -> Z -> Z -> string) (targetWidth targetHeight : N)
    (clusters : list Cluster) :
  let painted := paintClusters rgbToHex targetWidth targetHeight clusters in
  Spec.rectangular (N.to_nat targetWidth) (N.to_nat targetHeight)
    (fst painted)
  /\ (forall j i : nat,
        (j < N.to_nat targetHeight)%nat -> (i < N.to_nat targetWidth)%nat ->
        Spec.cell (fst painted) j i
        = Spec.repainted rgbToHex clusters
            (N.of_nat j * targetWidth + N.of_nat i) None)
  /\ NoDup (snd painted)
  /\ (forall c : string,
        In c (snd painted)
        <-> exists cluster,
              In cluster clusters
              /\ Spec.cluster_colour rgbToHex cluster = c).
Proof. apply paintClusters_result. Qed.

(** X18.  The colour history after [setColorHistory] has run with the
    colours of an import: it holds no colour twice and at most 256 colours;
    every colour in it is a new one or was in the history before; when the
    new colours are distinct and at most 256 they come first, in their
    order; and when the new and the old ones together are at most 256,
    none is lost. *)
Theorem colour_history_after_import
    (resizeGrid : JS.number -> JS.number -> AppState -> AppState)
    (st : AppState) (quantizedColors : list string) :
  let after :=
    colorHistory (apply_effect resizeGrid st (SetColorHistory quantizedColors))
  in
  NoDup after
  /\ (List.length after <= 256)%nat
  /\ (forall c, In c after -> In c quantizedColors \/ In c (colorHistory st))
  /\ (NoDup quantizedColors -> (List.length quantizedColors <= 256)%nat ->
      firstn (List.length quantizedColors) after = quantizedColors)
  /\ ((List.length (quantizedColors ++ colorHistory st) <= 256)%nat ->
      forall c, In c quantizedColors \/ In c (colorHistory st) -> In c after).
Proof.
  intros after. unfold after. cbn [apply_effect colorHistory].
  unfold MAX_HISTORY_LENGTH.
  set (all := (quantizedColors ++ colorHistory st)%list).
  split; [apply NoDup_firstn, dedup_NoDup |].
  split; [rewrite length_firstn; lia |].
  split; [| split].
  - intros c Hc. apply In_firstn_In, dedup_In in Hc.
    destruct Hc as [Hc _]. apply in_app_iff in Hc. exact Hc.
  - intros Hn Hl. unfold all.
    rewrite dedup_fresh_prefix; [| exact Hn | intros c _ []].
    rewrite firstn_firstn, Nat.min_l by exact Hl.
    rewrite firstn_app, Nat.sub_diag, firstn_all. cbn [firstn].
    apply app_nil_r.
  - intros Hl c Hc.
    assert (Hd : (List.length (dedup [] all) <= 256)%nat).
    { clear - Hl. fold all in Hl.
      assert (G : forall l seen,
                 (List.length (dedup seen l) <= List.length l)%nat).
      { induction l as [| s l IH]; intros seen; cbn [dedup List.length];
          [lia |].
        destruct (existsb (String.eqb s) seen).
        - specialize (IH seen). lia.
        - cbn [List.length]. specialize (IH (s :: seen)). lia. }
      specialize (G all []). lia. }
    rewrite firstn_all2 by exact Hd.
    apply dedup_In. split; [apply in_app_iff; exact Hc | intros []].
Qed.

(** X19.  An import that goes through, seen on the state of the
    application: once its effects have been applied, the pixel grid has the
    target size and is painted as the clusters say; it marks the artwork as
    drawn, closes the dialog and forgets the image; the colour history
    holds no colour twice and at most 256; and the quantizer has been called
    once. *)
Theorem import_goes_through
    (kMeansClustering : list SampledPixel -> JS.number -> list Cluster)
    (rgbToHex : Z -> Z -> Z -> string)
    (resizeGrid : JS.number -> JS.number -> AppState -> AppState)
    (env : ImportEnv) (url : string) (settings : ImportSettings)
    (st : AppState) :
  let targetWidth := parseInt (settings_width settings) in
  let targetHeight := parseInt (settings_height settings) in
  let colorLimit := parseInt (settings_maxColors settings) in
  let clusters :=
    kMeansClustering (samplePixels (imageData env targetWidth targetHeight) 0)
      colorLimit in
  let after :=
    apply_effects resizeGrid st
      (handleImageImport kMeansClustering rgbToHex env (Some url)
         (Some settings)) in
  JS.truthy_string url = true ->
  validSettings targetWidth targetHeight colorLimit = true ->
  image_loads env = true -> has_context env = true ->
  Spec.rectangular (N.to_nat (to_N targetWidth)) (N.to_nat (to_N targetHeight))
    (pixelGrid after)
  /\ (forall j i : nat,
        (j < N.to_nat (to_N targetHeight))%nat ->
        (i < N.to_nat (to_N targetWidth))%nat ->
        Spec.cell (pixelGrid after) j i
        = Spec.repainted rgbToHex clusters
            (N.of_nat j * to_N targetWidth + N.of_nat i) None)
  /\ hasDrawn after = true
  /\ importModalOpen after = false
  /\ importImageUrl after = None
  /\ NoDup (colorHistory after)
  /\ (List.length (colorHistory after) <= 256)%nat
  /\ quantizerCalls after
     = S (quantizerCalls (resizeGrid targetWidth targetHeight st)).
Proof.
  intros tw th k clusters after Hu Hv Hl Hc. unfold after.
  rewrite (ImportProps.handleImageImport_accepts kMeansClustering rgbToHex
             env url settings Hu Hv Hl Hc).
  fold tw th k. fold clusters.
  destruct (paintClusters_result rgbToHex (to_N tw) (to_N th) clusters)
    as (R & C & _).
  set (painted := paintClusters rgbToHex (to_N tw) (to_N th) clusters) in *.
  unfold apply_effects. cbn [fold_left apply_effect].
  cbn [pixelGrid hasDrawn importModalOpen importImageUrl colorHistory
       quantizerCalls gridDimensions].
  split; [exact R |]. split; [exact C |].
  do 3 (split; [reflexivity |]).
  split; [apply NoDup_firstn, dedup_NoDup |].
  split; [rewrite length_firstn; unfold MAX_HISTORY_LENGTH; lia |].
  reflexivity.
Qed.

(** The theorem on an image of two pixels, the second transparent, and a
    quantizer that answers with one black cluster. *)
Lemma import_goes_through_witness :
  let kMeansClustering (pixels : list SampledPixel) (k : JS.number) :=
    [ {| center := {| center_r := 0; center_g := 0; center_b := 0 |};
         pixels := pixels |} ] in
  let env :=
    {| image_loads := true; has_context := true;
       imageData := fun _ _ => [10; 20; 30; 255; 40; 50; 60; 0]%Z |} in
  let settings :=
    {| settings_width := "2"; settings_height := "1";
       settings_maxColors := "2" |} in
  let st :=
    {| gridDimensions := {| dim_width := n3; dim_height := n3 |};
       pixelGrid := []; colorHistory := ["#ffffff"]; hasDrawn := false;
       importModalOpen := true; importImageUrl := Some "data:";
       quantizerCalls := 0 |} in
  let after :=
    apply_effects (fun _ _ st => st) st
      (handleImageImport kMeansClustering (fun _ _ _ => "#000000") env
         (Some "data:") (Some settings)) in
  validSettings (parseInt "2") (parseInt "1") (parseInt "2") = true
  /\ pixelGrid after = [[Some "#000000"; None]]
  /\ Spec.rectangular 2 1 (pixelGrid after)
  /\ colorHistory after = ["#000000"; "#ffffff"].
Proof.
  intros kMeansClustering env settings st after.
  assert (Hu : JS.truthy_string "data:" = true) by reflexivity.
  assert (Hv : validSettings (parseInt "2") (parseInt "1") (parseInt "2")
               = true) by (vm_compute; reflexivity).
  split; [exact Hv |].
  split; [vm_compute; reflexivity |].
  split; [| vm_compute; reflexivity].
  exact (proj1 (import_goes_through kMeansClustering
                  (fun _ _ _ => "#000000") (fun _ _ st => st) env "data:"
                  settings st Hu Hv eq_refl eq_refl)).
Defined.

End PaintProps.

(** ** Reading the import settings *)

Module ParseProps.

Import App NumberFacts.

Lemma digits_uint (d : Decimal.uint) (post : string) :
  Spec.ends_number post = true ->
  forall acc : option Z,
    digits (NilEmpty.string_of_uint d ++ post) acc
    = match d, acc with
      | Decimal.Nil, _ => acc
      | _, Some a => Some (Spec.decimal_value d a)
      | _, None => Some (Spec.decimal_value d 0)
      end.
Proof.
  intros Hp. induction d; intros acc;
    cbn [NilEmpty.string_of_uint append digits Spec.decimal_value].
  1: { destruct post as [| c rest]; cbn [digits]; [reflexivity |].
       cbn [Spec.ends_number] in Hp.
       destruct (digit_of c); [discriminate | reflexivity]. }
  all: match goal with
       | |- context [digit_of ?c] =>
           change (digit_of c) with (Some 0%Z)
           || change (digit_of c) with (Some 1%Z)
           || change (digit_of c) with (Some 2%Z)
           || change (digit_of c) with (Some 3%Z)
           || change (digit_of c) with (Some 4%Z)
           || change (digit_of c) with (Some 5%Z)
           || change (digit_of c) with (Some 6%Z)
           || change (digit_of c) with (Some 7%Z)
           || change (digit_of c) with (Some 8%Z)
           || change (digit_of c) with (Some 9%Z)
       end;
    cbv beta iota; rewrite IHd;
    destruct d, acc; reflexivity.
Qed.

Lemma decimal_value_pos (d : Decimal.uint) :
  forall p : positive,
    Z.pos (Pos.of_uint_acc d p) = Spec.decimal_value d (Z.pos p).
Proof.
  induction d; intros p; cbn [Pos.of_uint_acc Spec.decimal_value];
    [reflexivity | rewrite IHd; f_equal; lia ..].
Qed.

Lemma decimal_value_of_uint (d : Decimal.uint) :
  Z.of_uint d = Spec.decimal_value d 0.
Proof.
  unfold Z.of_uint.
  induction d; cbn [Pos.of_uint Spec.decimal_value Z.of_N];
    [reflexivity | exact IHd | apply decimal_value_pos ..].
Qed.

Lemma skip_spaces_blank (pre s : string) :
  Spec.blank pre = true -> skip_spaces (pre ++ s) = skip_spaces s.
Proof.
  induction pre as [| c pre IH]; cbn [Spec.blank append skip_spaces];
    [reflexivity |].
  intros H. apply andb_prop in H. destruct H as [Hc Hb].
  rewrite Hc. exact (IH Hb).
Qed.

Lemma skip_spaces_digit (c : ascii) (s : string) (k : Z) :
  digit_of c = Some k -> skip_spaces (String c s) = String c s.
Proof.
  unfold digit_of. cbn [skip_spaces]. unfold is_space.
  destruct (Nat.leb_spec 48 (nat_of_ascii c)); cbn [andb]; [| discriminate].
  destruct (Nat.leb_spec (nat_of_ascii c) 57); [| discriminate].
  intros _.
  destruct (Nat.eqb_spec (nat_of_ascii c) 32); [lia |].
  destruct (Nat.leb_spec (nat_of_ascii c) 13); [lia |].
  destruct (Nat.eqb_spec (nat_of_ascii c) 160); [lia |].
  rewrite andb_false_r. reflexivity.
Qed.

Lemma round53_exact (z : Z) : (Z.abs z < 2 ^ 53)%Z -> JS.round53 z = z.
Proof.
  intros H. unfold JS.round53. cbv zeta.
  assert (L : (Z.log2 (Z.abs z) - 52 <= 0)%Z).
  { destruct (Z.eq_dec (Z.abs z) 0) as [E | E].
    - rewrite E. cbn. lia.
    - assert (0 < Z.abs z)%Z by lia.
      assert (Z.log2 (Z.abs z) < 53)%Z by (apply Z.log2_lt_pow2; lia).
      lia. }
  apply Z.leb_le in L. rewrite L. reflexivity.
Qed.

Lemma of_integer_exact (z : Z) :
  (Z.abs z < 2 ^ 53)%Z -> JS.of_integer z = JS.of_Z z.
Proof.
  intros H. unfold JS.of_integer. cbv zeta. rewrite (round53_exact z H).
  assert (P : (2 ^ 53 < 2 ^ 1024)%Z) by (apply Z.pow_lt_mono_r; lia).
  destruct (Z.leb_spec (2 ^ 1024) (Z.abs z)); [lia | reflexivity].
Qed.

Lemma round53_large (z : Z) :
  (2 ^ 53 <= Z.abs z)%Z ->
  exists m : Z, (2 ^ 53 <= m)%Z /\ JS.round53 z = (Z.sgn z * m)%Z.
Proof.
  intros H. unfold JS.round53. cbv zeta.
  set (a := Z.abs z) in *.
  assert (Ha : (0 < a)%Z) by (pose proof (Z.pow_pos_nonneg 2 53); lia).
  assert (L : (53 <= Z.log2 a)%Z).
  { rewrite <- (Z.log2_pow2 53) by lia. apply Z.log2_le_mono. exact H. }
  set (e := (Z.log2 a - 52)%Z).
  assert (He : (1 <= e)%Z) by (unfold e; lia).
  destruct (Z.leb_spec e 0); [lia |].
  set (q := (a / 2 ^ e)%Z).
  assert (Hq : (2 ^ 52 <= q)%Z).
  { unfold q. apply Z.div_le_lower_bound; [apply Z.pow_pos_nonneg; lia |].
    rewrite <- Z.pow_add_r by lia.
    replace (e + 52)%Z with (Z.log2 a) by (unfold e; lia).
    apply Z.log2_spec. exact Ha. }
  assert (H2 : (2 <= 2 ^ e)%Z).
  { change 2%Z with (2 ^ 1)%Z at 1. apply Z.pow_le_mono_r; lia. }
  match goal with
  | |- exists m, _ /\ (Z.sgn z * (?t * _))%Z = _ => set (q' := t)
  end.
  assert (Hq' : (q <= q')%Z).
  { unfold q'. destruct (_ <? _)%Z; [lia |]. destruct (_ <? _)%Z; [lia |].
    destruct (Z.even q); lia. }
  exists (q' * 2 ^ e)%Z. split; [| reflexivity].
  change (2 ^ 53)%Z with (2 ^ 52 * 2)%Z.
  assert (0 < 2 ^ 52)%Z by reflexivity. nia.
Qed.

(** How the Number read compares with a small constant. *)
Lemma of_integer_compare (z k : Z) :
  (Z.abs k < 2 ^ 53)%Z ->
  JS.lt (JS.of_Z k) (JS.of_integer z) = (k <? z)%Z
  /\ JS.le (JS.of_Z k) (JS.of_integer z) = (k <=? z)%Z
  /\ JS.le (JS.of_integer z) (JS.of_Z k) = (z <=? k)%Z.
Proof.
  intros Hk. destruct (Z_lt_le_dec (Z.abs z) (2 ^ 53)) as [Hz | Hz].
  - rewrite (of_integer_exact z Hz), lt_of_Z, !le_of_Z. auto.
  - destruct (round53_large z Hz) as (m & Hm & E).
    unfold JS.of_integer. cbv zeta. rewrite E.
    assert (Hs : (z < 0 \/ 0 < z)%Z) by lia.
    destruct Hs as [Hs | Hs].
    + rewrite (Z.sgn_neg z Hs).
      assert (Z.abs (-1 * m) = m)%Z as -> by lia.
      assert (z <= - 2 ^ 53)%Z by lia.
      destruct (Z.leb_spec (2 ^ 1024) m).
      * apply Z.ltb_lt in Hs. rewrite Hs.
        destruct (Z.ltb_spec k z); [lia |].
        destruct (Z.leb_spec k z); [lia |].
        destruct (Z.leb_spec z k); [| lia]. auto.
      * rewrite lt_of_Z, !le_of_Z.
        destruct (Z.ltb_spec k z); [lia |].
        destruct (Z.ltb_spec k (-1 * m)); [lia |].
        destruct (Z.leb_spec k z); [lia |].
        destruct (Z.leb_spec k (-1 * m)); [lia |].
        destruct (Z.leb_spec z k); [| lia].
        destruct (Z.leb_spec (-1 * m) k); [| lia]. auto.
    + rewrite (Z.sgn_pos z Hs).
      assert (Z.abs (1 * m) = m)%Z as -> by lia.
      assert (2 ^ 53 <= z)%Z by lia.
      destruct (Z.leb_spec (2 ^ 1024) m).
      * destruct (Z.ltb_spec z 0); [lia |].
        destruct (Z.ltb_spec k z); [| lia].
        destruct (Z.leb_spec k z); [| lia].
        destruct (Z.leb_spec z k); [lia |]. auto.
      * rewrite lt_of_Z, !le_of_Z.
        destruct (Z.ltb_spec k z); [| lia].
        destruct (Z.ltb_spec k (1 * m)); [| lia].
        destruct (Z.leb_spec k z); [| lia].
        destruct (Z.leb_spec k (1 * m)); [| lia].
        destruct (Z.leb_spec z k); [lia |].
        destruct (Z.leb_spec (1 * m) k); [lia |]. auto.
Qed.

(** A run of digits, as [parseInt] reads it with and without a minus
    sign before it. *)
Lemma parseInt_uint (d : Decimal.uint) (post : string) :
  d <> Decimal.Nil -> Spec.ends_number post = true ->
  parseInt (NilEmpty.string_of_uint d ++ post) = JS.of_integer (Z.of_uint d)
  /\ parseInt (String "-" (NilEmpty.string_of_uint d ++ post))
     = JS.of_integer (- Z.of_uint d).
Proof.
  intros Hd Hp. rewrite decimal_value_of_uint.
  pose proof (digits_uint d post Hp None) as Hdig.
  unfold parseInt.
  change (skip_spaces (String "-" (NilEmpty.string_of_uint d ++ post)))
    with (String "-" (NilEmpty.string_of_uint d ++ post)).
  cbv zeta. split.
  - destruct d; [contradiction | ..];
      cbn [NilEmpty.string_of_uint append] in Hdig |- *;
      (erewrite skip_spaces_digit by reflexivity);
      cbv beta iota; rewrite Hdig; reflexivity.
  - cbv beta iota. rewrite Hdig. destruct d; [contradiction | ..];
      reflexivity.
Qed.

Lemma parseInt_show_Z (z : Z) (pre post : string) :
  Spec.blank pre = true -> Spec.ends_number post = true ->
  parseInt (pre ++ JS.show_Z z ++ post) = JS.of_integer z.
Proof.
  intros Hb Hp.
  assert (E : parseInt (pre ++ JS.show_Z z ++ post)
              = parseInt (JS.show_Z z ++ post)).
  { unfold parseInt. rewrite (skip_spaces_blank pre _ Hb). reflexivity. }
  rewrite E. unfold JS.show_Z. destruct z as [| p | p]; cbn [Z.to_int].
  - cbn [NilEmpty.string_of_int].
    destruct (parseInt_uint (Decimal.D0 Decimal.Nil) post) as [H _];
      [discriminate | exact Hp | exact H].
  - cbn [NilEmpty.string_of_int].
    destruct (parseInt_uint (Pos.to_uint p) post
                (DecimalPos.Unsigned.to_uint_nonnil p) Hp) as [H _].
    rewrite H. unfold Z.of_uint. rewrite DecimalPos.Unsigned.of_to.
    reflexivity.
  - cbn [NilEmpty.string_of_int append].
    destruct (parseInt_uint (Pos.to_uint p) post
                (DecimalPos.Unsigned.to_uint_nonnil p) Hp) as [_ H].
    change (String (Ascii true false true true false true false false)
              (NilEmpty.string_of_uint (Pos.to_uint p)) ++ post)
      with (String "-" (NilEmpty.string_of_uint (Pos.to_uint p) ++ post)).
    rewrite H. unfold Z.of_uint. rewrite DecimalPos.Unsigned.of_to.
    reflexivity.
Qed.

(** X20.  The settings of an import are read as decimal numbers.
    [parseInt] reads the decimal form of every integer as the Number
    nearest to it, which is the integer itself when its magnitude is below
    [2^53], also with white space before it and with anything that does not
    begin with a digit after it; so for settings written that way the check
    of [handleImageImport] lets the import go on exactly when the width and
    the height are positive and the colour limit is between 2 and 256, and
    the grid is then resized to the width and height read. *)
Theorem import_reads_decimal_settings
    (kMeansClustering : list SampledPixel -> JS.number -> list Cluster)
    (rgbToHex : Z -> Z -> Z -> string) (env : ImportEnv) (url : string)
    (w h n : Z) (pre post : string) :
  let settings :=
    {| settings_width := pre ++ JS.show_Z w ++ post;
       settings_height := pre ++ JS.show_Z h ++ post;
       settings_maxColors := pre ++ JS.show_Z n ++ post |} in
  let accepted := ((0 <? w) && (0 <? h) && (2 <=? n) && (n <=? 256))%Z in
  Spec.blank pre = true -> Spec.ends_number post = true ->
  JS.truthy_string url = true ->
  parseInt (settings_width settings) = JS.of_integer w
  /\ parseInt (settings_height settings) = JS.of_integer h
  /\ parseInt (settings_maxColors settings) = JS.of_integer n
  /\ (forall z : Z, (Z.abs z < 2 ^ 53)%Z -> JS.of_integer z = JS.of_Z z)
  /\ hd_error
       (handleImageImport kMeansClustering rgbToHex env (Some url)
          (Some settings))
     = Some (if accepted
             then ResizeGrid (JS.of_integer w) (JS.of_integer h)
             else ConsoleError
                    "Import failed: Invalid width, height, or max colors.").
Proof.
  intros settings accepted Hb Hp Hu.
  assert (Ew := parseInt_show_Z w pre post Hb Hp).
  assert (Eh := parseInt_show_Z h pre post Hb Hp).
  assert (En := parseInt_show_Z n pre post Hb Hp).
  split; [exact Ew |]. split; [exact Eh |]. split; [exact En |].
  split; [exact of_integer_exact |].
  unfold handleImageImport. rewrite Hu. cbn [negb].
  subst settings. cbn [settings_width settings_height settings_maxColors].
  cbv zeta. rewrite Ew, Eh, En.
  assert (V : validSettings (JS.of_integer w) (JS.of_integer h)
                (JS.of_integer n) = accepted).
  { unfold validSettings, JS.gt, JS.ge, n0, n2.
    rewrite (proj1 (of_integer_compare w 0 eq_refl)).
    rewrite (proj1 (of_integer_compare h 0 eq_refl)).
    rewrite (proj1 (proj2 (of_integer_compare n 2 eq_refl))).
    rewrite (proj2 (proj2 (of_integer_compare n 256 eq_refl))).
    reflexivity. }
  rewrite V. destruct accepted; reflexivity.
Qed.

Lemma import_reads_decimal_settings_witness :
  Spec.blank " " = true /\ Spec.ends_number "px" = true
  /\ parseInt " 32px" = JS.of_Z 32
  /\ parseInt " 9007199254740993px" = JS.of_Z 9007199254740992.
Proof.
  assert (Hb : Spec.blank " " = true) by reflexivity.
  assert (Hp : Spec.ends_number "px" = true) by reflexivity.
  split; [exact Hb |]. split; [exact Hp |].
  pose proof (import_reads_decimal_settings
                (fun _ _ => []) (fun _ _ _ => "#000000")
                {| image_loads := false; has_context := false;
                   imageData := fun _ _ => [] |}
                "data:" 32 9007199254740993 16 " " "px" Hb Hp eq_refl) as H.
  split; [exact (proj1 H) | exact (proj1 (proj2 H))].
Defined.

End ParseProps.

(** ** Copy and cut of the selection *)

Module ClipboardProps.

Import App NumberFacts GridEditProps.

Lemma of_Z_of_nat (z : Z) :
  (0 <= z)%Z -> JS.of_Z z = Spec.of_nat (Z.to_nat z).
Proof. intros H. unfold Spec.of_nat. rewrite Z2Nat.id by exact H. reflexivity. Qed.

Lemma inBounds_of_Z (w h : nat) (grid : Grid) (y x : Z) :
  Spec.rectangular w h grid ->
  inBounds grid (JS.of_Z y) (JS.of_Z x)
  = ((0 <=? y) && (y <? Z.of_nat h) && (0 <=? x) && (x <? Z.of_nat w))%Z.
Proof.
  intros [Hh Hw]. unfold inBounds, JS.ge, n0.
  rewrite !le_of_Z, lt_of_Z, Hh.
  destruct grid as [| row0 rest].
  - cbn in Hh. subst h.
    destruct (0 <=? y)%Z eqn:E0, (y <? Z.of_nat 0)%Z eqn:E1;
      cbn [andb]; try reflexivity.
    apply Z.leb_le in E0. apply Z.ltb_lt in E1. lia.
  - inversion Hw as [| ? ? L _]. rewrite lt_of_Z, L. reflexivity.
Qed.

Lemma cell_at_inside (grid : Grid) (y x : Z) :
  (0 <= y)%Z -> (0 <= x)%Z ->
  Spec.cell_at grid y x = Spec.cell grid (Z.to_nat y) (Z.to_nat x).
Proof.
  intros Hy Hx. unfold Spec.cell_at.
  destruct (Z.leb_spec 0 y); [| lia].
  destruct (Z.leb_spec 0 x); [| lia]. reflexivity.
Qed.

Lemma cell_at_outside (w h : nat) (grid : Grid) (y x : Z) :
  Spec.rectangular w h grid ->
  ((0 <=? y) && (y <? Z.of_nat h) && (0 <=? x) && (x <? Z.of_nat w))%Z = false ->
  Spec.cell_at grid y x = None.
Proof.
  intros Hr Hb. unfold Spec.cell_at.
  destruct (Z.leb_spec 0 y); cbn [andb] in *; [| reflexivity].
  destruct (Z.leb_spec 0 x); cbn [andb] in *; [| reflexivity].
  destruct (Z.ltb_spec y (Z.of_nat h)); cbn [andb] in *.
  - destruct (Z.ltb_spec x (Z.of_nat w)); [discriminate |].
    apply (cell_outside_columns w h); [exact Hr | lia].
  - apply (cell_outside_rows w h); [exact Hr | lia].
Qed.

(** *** Copy *)

(** What one step of the inner loop pushes. *)
Lemma extract_value (w h : nat) (grid : Grid) (sy sx : Z)
    (row : list (option string)) :
  Spec.rectangular w h grid ->
  (if inBounds grid (JS.of_Z sy) (JS.of_Z sx) then
     match readCell grid (JS.of_Z sy) (JS.of_Z sx) with
     | Some v => Some (row ++ [v])%list
     | None => None
     end
   else Some (row ++ [None])%list)
  = Some (row ++ [Spec.cell_at grid sy sx])%list.
Proof.
  intros Hr. rewrite (inBounds_of_Z w h grid sy sx Hr).
  destruct ((0 <=? sy) && (sy <? Z.of_nat h) && (0 <=? sx)
            && (sx <? Z.of_nat w))%Z eqn:B.
  - apply andb_prop in B. destruct B as [B Bx2].
    apply andb_prop in B. destruct B as [B Bx1].
    apply andb_prop in B. destruct B as [By1 By2].
    apply Z.leb_le in By1, Bx1. apply Z.ltb_lt in By2, Bx2.
    rewrite (of_Z_of_nat sy By1), (of_Z_of_nat sx Bx1).
    rewrite (readCell_of_nat w h grid _ _ Hr) by lia.
    rewrite cell_at_inside by assumption. reflexivity.
  - rewrite (cell_at_outside w h grid sy sx Hr B). reflexivity.
Qed.

Lemma extract_row (w h : nat) (grid : Grid) (x1 y1 y : Z) (zs : list Z) :
  Spec.rectangular w h grid ->
  forall row : list (option string),
    fold_left
      (fun (acc : option (list (option string))) x =>
         match acc with
         | Some row =>
             if inBounds grid (JS.of_Z y1 + JS.of_Z y)%js (JS.of_Z x1 + x)%js
             then
               match
                 readCell grid (JS.of_Z y1 + JS.of_Z y)%js (JS.of_Z x1 + x)%js
               with
               | Some v => Some (row ++ [v])%list
               | None => None
               end
             else Some (row ++ [None])%list
         | None => None
         end)
      (map JS.of_Z zs) (Some row)
    = Some (row ++ map (fun x => Spec.cell_at grid (y1 + y) (x1 + x)) zs)%list.
Proof.
  intros Hr. rewrite (add_of_Z y1 y).
  induction zs as [| z zs IH]; intros row.
  - cbn [map fold_left]. rewrite app_nil_r. reflexivity.
  - cbn [map fold_left]. rewrite (add_of_Z x1 z).
    rewrite (extract_value w h grid _ _ row Hr), IH, <- app_assoc.
    reflexivity.
Qed.

Lemma extract_rows (w h : nat) (grid : Grid) (x1 y1 width : Z)
    (ys : list Z) :
  Spec.rectangular w h grid ->
  forall data : Grid,
    fold_left
      (fun (acc : run (option Grid)) y =>
         match acc with
         | Done (Some extractedData) =>
             xs <- JS.for_range false n0 (JS.of_Z width) ;;
             Done (match
                     fold_left
                       (fun (acc : option (list (option string))) x =>
                          match acc with
                          | Some row =>
                              if inBounds grid (JS.of_Z y1 + y)%js
                                   (JS.of_Z x1 + x)%js
                              then
                                match
                                  readCell grid (JS.of_Z y1 + y)%js
                                    (JS.of_Z x1 + x)%js
                                with
                                | Some v => Some (row ++ [v])%list
                                | None => None
                                end
                              else Some (row ++ [None])%list
                          | None => None
                          end)
                       xs (Some [])
                   with
                   | Some row => Some (extractedData ++ [row])%list
                   | None => None
                   end)
         | _ => acc
         end)
      (map JS.of_Z ys) (Done (Some data))
    = Done (Some (data
                  ++ map (fun y =>
                            map (fun x => Spec.cell_at grid (y1 + y) (x1 + x))
                              (Spec.Z_range 0 (width - 1)))
                       ys)%list).
Proof.
  intros Hr. unfold n0. rewrite LayerProps.for_range_excl_of_Z.
  cbn [run_bind].
  induction ys as [| y ys IH]; intros data.
  - cbn [map fold_left]. rewrite app_nil_r. reflexivity.
  - cbn [map fold_left].
    rewrite (extract_row w h grid x1 y1 y _ Hr []). cbn [app].
    rewrite IH, <- app_assoc. reflexivity.
Qed.

Lemma extractData_block (w h : nat) (grid : Grid) (x1 y1 width height : Z) :
  Spec.rectangular w h grid ->
  extractData grid (JS.of_Z x1) (JS.of_Z y1) (JS.of_Z width) (JS.of_Z height)
  = Done (Some (Spec.block grid x1 y1 width height)).
Proof.
  intros Hr. unfold extractData. cbv zeta.
  change (JS.for_range false n0 (JS.of_Z height))
    with (JS.for_range false (JS.of_Z 0) (JS.of_Z height)).
  rewrite (LayerProps.for_range_excl_of_Z 0 height). cbn [run_bind].
  exact (extract_rows w h grid x1 y1 width _ Hr []).
Qed.

Lemma selection_size (a b : Z) :
  (JS.of_Z b - JS.of_Z a + n1)%js = JS.of_Z (b - a + 1).
Proof. unfold n1. rewrite sub_of_Z, add_of_Z. reflexivity. Qed.

(** *** Cut *)

Lemma existsb_pointwise {A : Type} (f g : A -> bool) (l : list A) :
  (forall a, f a = g a) -> existsb f l = existsb g l.
Proof.
  intros H. induction l as [| a l IH]; cbn [existsb]; [reflexivity |].
  rewrite H, IH. reflexivity.
Qed.

Lemma cell_at_pointwise (g g' : Grid) :
  (forall j i, Spec.cell g' j i = Spec.cell g j i) ->
  forall y x, Spec.cell_at g' y x = Spec.cell_at g y x.
Proof.
  intros H y x. unfold Spec.cell_at. rewrite H. reflexivity.
Qed.

Lemma cell_at_of_nat (g : Grid) (j i : nat) :
  Spec.cell_at g (Z.of_nat j) (Z.of_nat i) = Spec.cell g j i.
Proof.
  rewrite cell_at_inside by lia. rewrite !Nat2Z.id. reflexivity.
Qed.

Lemma has_colour_false (c : option string) :
  Spec.has_colour c = false -> c = None.
Proof. destruct c; [discriminate | reflexivity]. Qed.

(** The body of the loops at integer coordinates. *)
Lemma clearCell_of_Z (w h : nat) (g : Grid) (changed : bool) (y x : Z) :
  Spec.rectangular w h g ->
  exists g' : Grid,
    clearCell (JS.of_Z y) (JS.of_Z x) (g, changed)
    = Some (g', changed || Spec.has_colour (Spec.cell_at g y x))
    /\ Spec.rectangular w h g'
    /\ forall j i : nat,
         Spec.cell g' j i
         = if ((Z.of_nat j =? y) && (Z.of_nat i =? x))%Z then None
           else Spec.cell g j i.
Proof.
  intros Hr. unfold clearCell. rewrite (inBounds_of_Z w h g y x Hr).
  destruct ((0 <=? y) && (y <? Z.of_nat h) && (0 <=? x)
            && (x <? Z.of_nat w))%Z eqn:B.
  - apply andb_prop in B. destruct B as [B Bx2].
    apply andb_prop in B. destruct B as [B Bx1].
    apply andb_prop in B. destruct B as [By1 By2].
    apply Z.leb_le in By1, Bx1. apply Z.ltb_lt in By2, Bx2.
    rewrite (of_Z_of_nat y By1), (of_Z_of_nat x Bx1), get_of_nat.
    destruct (rectangular_row w h g (Z.to_nat y) Hr) as (row & E & L);
      [lia |].
    rewrite E, get_of_nat.
    assert (Ec : Spec.cell_at g y x
                 = match nth_error row (Z.to_nat x) with
                   | Some c => c
                   | None => None
                   end).
    { rewrite cell_at_inside by assumption. unfold Spec.cell.
      rewrite E. reflexivity. }
    destruct (nth_error row (Z.to_nat x)) as [[c |] |] eqn:Ex.
    + destruct (writeCell_of_nat w h g (Z.to_nat y) (Z.to_nat x) None Hr)
        as (g' & Ew & Rw & Cw); [lia | lia |].
      rewrite Ew. exists g'. rewrite Ec. cbn [Spec.has_colour].
      rewrite orb_true_r. split; [reflexivity |]. split; [exact Rw |].
      intros j i. rewrite Cw.
      destruct (Nat.eqb_spec j (Z.to_nat y)), (Nat.eqb_spec i (Z.to_nat x)),
        (Z.eqb_spec (Z.of_nat j) y), (Z.eqb_spec (Z.of_nat i) x);
        cbn [andb]; try reflexivity; lia.
    + exists g. rewrite Ec. cbn [Spec.has_colour]. rewrite orb_false_r.
      split; [reflexivity |]. split; [exact Hr |].
      intros j i.
      destruct (Z.eqb_spec (Z.of_nat j) y), (Z.eqb_spec (Z.of_nat i) x);
        cbn [andb]; try reflexivity.
      subst y x. rewrite cell_at_of_nat in Ec. exact Ec.
    + apply nth_error_None in Ex. lia.
  - exists g. rewrite (cell_at_outside w h g y x Hr B).
    cbn [Spec.has_colour]. rewrite orb_false_r.
    split; [reflexivity |]. split; [exact Hr |].
    intros j i.
    destruct (Z.eqb_spec (Z.of_nat j) y), (Z.eqb_spec (Z.of_nat i) x);
      cbn [andb]; try reflexivity.
    subst y x. rewrite <- cell_at_of_nat.
    apply (cell_at_outside w h g _ _ Hr B).
Qed.

Lemma clear_row (w h : nat) (y : Z) (zs : list Z) :
  forall (g : Grid) (changed : bool),
    Spec.rectangular w h g ->
    exists g' : Grid,
      fold_left
        (fun (acc : option (Grid * bool)) x =>
           match acc with
           | Some st => clearCell (JS.of_Z y) x st
           | None => None
           end)
        (map JS.of_Z zs) (Some (g, changed))
      = Some (g',
              changed
              || existsb (fun x => Spec.has_colour (Spec.cell_at g y x)) zs)
      /\ Spec.rectangular w h g'
      /\ forall j i : nat,
           Spec.cell g' j i
           = if ((Z.of_nat j =? y)%Z && existsb (Z.eqb (Z.of_nat i)) zs)
             then None
             else Spec.cell g j i.
Proof.
  induction zs as [| x zs IH]; intros g changed Hr.
  - exists g. cbn [map fold_left existsb]. rewrite orb_false_r.
    split; [reflexivity |]. split; [exact Hr |].
    intros j i. rewrite andb_false_r. reflexivity.
  - cbn [map fold_left existsb].
    destruct (clearCell_of_Z w h g changed y x Hr) as (g1 & E1 & R1 & C1).
    rewrite E1.
    destruct (IH g1 (changed || Spec.has_colour (Spec.cell_at g y x)) R1)
      as (g2 & E2 & R2 & C2).
    exists g2. split; [| split; [exact R2 |]].
    + rewrite E2. f_equal. f_equal. rewrite <- orb_assoc. f_equal.
      destruct (Spec.has_colour (Spec.cell_at g y x)) eqn:S;
        [reflexivity |].
      cbn [orb]. apply existsb_pointwise. intros x'. f_equal.
      apply cell_at_pointwise. intros j i. rewrite C1.
      destruct (Z.eqb_spec (Z.of_nat j) y), (Z.eqb_spec (Z.of_nat i) x);
        cbn [andb]; try reflexivity.
      subst y x. apply has_colour_false in S.
      rewrite cell_at_of_nat in S. symmetry. exact S.
    + intros j i. rewrite C2, C1.
      destruct (Z.eqb_spec (Z.of_nat j) y); cbn [andb]; [| reflexivity].
      destruct (Z.of_nat i =? x)%Z; cbn [orb];
        [destruct (existsb (Z.eqb (Z.of_nat i)) zs) |]; reflexivity.
Qed.

Lemma clear_rows (w h : nat) (x1 x2 : Z) (ys : list Z) :
  forall (g : Grid) (changed : bool),
    Spec.rectangular w h g ->
    exists g' : Grid,
      fold_left
        (fun (acc : run (option (Grid * bool))) y =>
           match acc with
           | Done (Some st) =>
               xs <- JS.for_range true (JS.of_Z x1) (JS.of_Z x2) ;;
               Done (fold_left
                       (fun (acc : option (Grid * bool)) x =>
                          match acc with
                          | Some st => clearCell y x st
                          | None => None
                          end)
                       xs (Some st))
           | _ => acc
           end)
        (map JS.of_Z ys) (Done (Some (g, changed)))
      = Done (Some (g',
                    changed
                    || existsb
                         (fun y =>
                            existsb
                              (fun x => Spec.has_colour (Spec.cell_at g y x))
                              (Spec.Z_range x1 x2))
                         ys))
      /\ Spec.rectangular w h g'
      /\ forall j i : nat,
           Spec.cell g' j i
           = if (existsb (Z.eqb (Z.of_nat j)) ys
                 && existsb (Z.eqb (Z.of_nat i)) (Spec.Z_range x1 x2))
             then None
             else Spec.cell g j i.
Proof.
  rewrite LayerProps.for_range_incl_of_Z. cbn [run_bind].
  induction ys as [| y ys IH]; intros g changed Hr.
  - exists g. cbn [map fold_left existsb]. rewrite orb_false_r.
    split; [reflexivity |]. split; [exact Hr |]. reflexivity.
  - cbn [map fold_left existsb].
    destruct (clear_row w h y (Spec.Z_range x1 x2) g changed Hr)
      as (g1 & E1 & R1 & C1).
    rewrite E1.
    set (row := existsb (fun x => Spec.has_colour (Spec.cell_at g y x))
                  (Spec.Z_range x1 x2)) in *.
    destruct (IH g1 (changed || row) R1) as (g2 & E2 & R2 & C2).
    exists g2. split; [| split; [exact R2 |]].
    + rewrite E2. f_equal. f_equal. f_equal. rewrite <- orb_assoc. f_equal.
      destruct row eqn:S; [reflexivity |].
      cbn [orb]. apply existsb_pointwise. intros y'.
      apply existsb_pointwise. intros x'. f_equal.
      apply cell_at_pointwise. intros j i. rewrite C1.
      destruct (Z.eqb_spec (Z.of_nat j) y); cbn [andb]; [| reflexivity].
      destruct (existsb (Z.eqb (Z.of_nat i)) (Spec.Z_range x1 x2)) eqn:In;
        [| reflexivity].
      subst y. unfold row in S.
      apply existsb_exists in In. destruct In as (x & Hin & Ex).
      apply Z.eqb_eq in Ex. subst x.
      assert (F : Spec.has_colour (Spec.cell_at g (Z.of_nat j) (Z.of_nat i))
                  = false).
      { destruct (Spec.has_colour _) eqn:T; [| reflexivity].
        assert (X : existsb
                      (fun x => Spec.has_colour
                                  (Spec.cell_at g (Z.of_nat j) x))
                      (Spec.Z_range x1 x2) = true).
        { apply existsb_exists. exists (Z.of_nat i). auto. }
        congruence. }
      apply has_colour_false in F. rewrite cell_at_of_nat in F.
      symmetry. exact F.
    + intros j i. rewrite C2, C1.
      destruct (Z.of_nat j =? y)%Z; cbn [orb andb];
        destruct (existsb (Z.eqb (Z.of_nat j)) ys);
        destruct (existsb (Z.eqb (Z.of_nat i)) (Spec.Z_range x1 x2));
        reflexivity.
Qed.

Lemma Z_range_member (a b z : Z) :
  existsb (Z.eqb z) (Spec.Z_range a b) = ((a <=? z) && (z <=? b))%Z.
Proof.
  destruct (existsb (Z.eqb z) (Spec.Z_range a b)) eqn:E.
  - apply existsb_exists in E. destruct E as (x & Hin & Ex).
    apply Z.eqb_eq in Ex. subst x. unfold Spec.Z_range in Hin.
    apply in_map_iff in Hin. destruct Hin as (k & <- & Hk).
    apply in_seq in Hk. symmetry. apply andb_true_iff.
    rewrite !Z.leb_le. lia.
  - symmetry. apply andb_false_iff.
    destruct (Z.leb_spec a z); [| left; reflexivity].
    destruct (Z.leb_spec z b); [| right; reflexivity].
    exfalso. assert (T : existsb (Z.eqb z) (Spec.Z_range a b) = true);
      [| congruence].
    apply existsb_exists. exists z. split; [| apply Z.eqb_refl].
    unfold Spec.Z_range. apply in_map_iff. exists (Z.to_nat (z - a)).
    split; [lia |]. apply in_seq. lia.
Qed.

(** The loops of the cut on a selection with integer corners. *)
Lemma clearSelection_result (w h : nat) (grid : Grid) (x1 y1 x2 y2 : Z) :
  Spec.rectangular w h grid ->
  exists newGrid : Grid,
    clearSelection grid (JS.of_Z x1) (JS.of_Z y1) (JS.of_Z x2) (JS.of_Z y2)
    = Done (Some (newGrid, Spec.selection_coloured grid x1 y1 x2 y2))
    /\ Spec.rectangular w h newGrid
    /\ forall j i : nat,
         Spec.cell newGrid j i
         = if Spec.selected x1 y1 x2 y2 j i then None else Spec.cell grid j i.
Proof.
  intros Hr. unfold clearSelection.
  rewrite LayerProps.for_range_incl_of_Z. cbn [run_bind].
  destruct (clear_rows w h x1 x2 (Spec.Z_range y1 y2) grid false Hr)
    as (g' & E & R & C).
  exists g'. split; [exact E |]. split; [exact R |].
  intros j i. rewrite C, !Z_range_member. unfold Spec.selected.
  rewrite andb_assoc. reflexivity.
Qed.

Lemma key_is_not_shift (key : string) :
  JS.toLowerCase key = "c" \/ JS.toLowerCase key = "x" ->
  String.eqb key "Shift" = false.
Proof.
  intros H. destruct (String.eqb_spec key "Shift") as [-> | _];
    [| reflexivity].
  destruct H as [H | H]; vm_compute in H; discriminate.
Qed.

(** X21.  Copy.  With the focus outside the form fields, a selection with
    integer corners and a grid whose rows have the same length, Ctrl or
    Cmd with C prevents the default, stores in the copy buffer the block of
    the selection, as many rows and columns as the selection has, with
    empty cells for what lies off the grid, and returns; the grid is not
    touched, whatever the colour history.  Without a selection it only
    logs. *)
Theorem copy_extracts_selection (w h : nat) (grid : Grid)
    (x1 y1 x2 y2 : Z) (colorHistory : list string)
    (gridDimensions : GridDimensions) (event : KeyboardEvent) :
  Spec.rectangular w h grid ->
  Spec.typing event = false ->
  JS.toLowerCase (event_key event) = "c" ->
  metaKey event || ctrlKey event = true ->
  handleKeyDown colorHistory (Some (Spec.area x1 y1 x2 y2)) grid
    gridDimensions event
  = ([ ConsoleLog "Copy shortcut detected with selection:";
       EventPreventDefault;
       SetCopyBuffer
         {| buffer_width := JS.of_Z (x2 - x1 + 1);
            buffer_height := JS.of_Z (y2 - y1 + 1);
            buffer_data :=
              Spec.block grid x1 y1 (x2 - x1 + 1) (y2 - y1 + 1) |};
       ConsoleLog "Data copied to buffer:" ], Returns)
  /\ handleKeyDown colorHistory None grid gridDimensions event
     = ([ConsoleLog "Copy shortcut ignored, no selection."], Returns).
Proof.
  intros Hr Ht Hk Hm. unfold handleKeyDown.
  change (String.eqb (targetTagName event) "INPUT"
          || String.eqb (targetTagName event) "TEXTAREA"
          || String.eqb (targetTagName event) "SELECT")
    with (Spec.typing event).
  rewrite Ht. cbv zeta. rewrite Hk, Hm.
  rewrite (key_is_not_shift _ (or_introl Hk)).
  change (String.eqb "c" "x") with false.
  change (String.eqb "c" "c") with true. cbn [andb].
  split; [| reflexivity].
  unfold Spec.area. cbn [sel_x1 sel_y1 sel_x2 sel_y2].
  rewrite !selection_size.
  rewrite (extractData_block w h grid x1 y1 _ _ Hr). reflexivity.
Qed.

Lemma copy_extracts_selection_witness :
  let grid := [[Some "#ff0000"; None]; [None; Some "#00ff00"]] in
  let event :=
    {| targetTagName := "BODY"; event_key := "C"; metaKey := false;
       ctrlKey := true |} in
  Spec.rectangular 2 2 grid
  /\ Spec.typing event = false
  /\ handleKeyDown ["#ff0000"; "#00ff00"] (Some (Spec.area 1 1 2 1)) grid
       {| dim_width := n2; dim_height := n2 |} event
     = ([ ConsoleLog "Copy shortcut detected with selection:";
          EventPreventDefault;
          SetCopyBuffer
            {| buffer_width := n2; buffer_height := n1;
               buffer_data := [[Some "#00ff00"; None]] |};
          ConsoleLog "Data copied to buffer:" ], Returns).
Proof.
  intros grid event.
  assert (Ht : Spec.typing event = false) by reflexivity.
  split; [exact sample_rectangular |]. split; [exact Ht |].
  exact (proj1 (copy_extracts_selection 2 2 grid 1 1 2 1
                  ["#ff0000"; "#00ff00"]
                  {| dim_width := n2; dim_height := n2 |} event
                  sample_rectangular Ht eq_refl eq_refl)).
Defined.

(** X22.  Cut.  Under the same conditions Ctrl or Cmd with X stores the
    same block in the copy buffer, then empties every cell of the selection
    that lies on the grid and leaves every other cell as it was; the new
    grid is stored and pushed on the history exactly when a cell of the
    selection held a colour; the selection is cleared in either case.
    Before all that the key also runs the colour swap of the plain X key:
    with two colours or more in the history, the second one is selected. *)
Theorem cut_clears_selection (w h : nat) (grid : Grid)
    (x1 y1 x2 y2 : Z) (colorHistory : list string)
    (gridDimensions : GridDimensions) (event : KeyboardEvent) :
  Spec.rectangular w h grid ->
  Spec.typing event = false ->
  JS.toLowerCase (event_key event) = "x" ->
  metaKey event || ctrlKey event = true ->
  exists newGrid : Grid,
    handleKeyDown colorHistory (Some (Spec.area x1 y1 x2 y2)) grid
      gridDimensions event
    = ((Spec.swap_effects colorHistory
        ++ [ ConsoleLog "Cut shortcut detected with selection:";
             EventPreventDefault;
             SetCopyBuffer
               {| buffer_width := JS.of_Z (x2 - x1 + 1);
                  buffer_height := JS.of_Z (y2 - y1 + 1);
                  buffer_data :=
                    Spec.block grid x1 y1 (x2 - x1 + 1) (y2 - y1 + 1) |};
             ConsoleLog "Data copied to buffer for cut:" ]
        ++ (if Spec.selection_coloured grid x1 y1 x2 y2
            then [ SetPixelGridAfterCut newGrid;
                   PushHistory newGrid gridDimensions "cut" ]
            else [])
        ++ [SetSelectionArea None])%list, Returns)
    /\ Spec.rectangular w h newGrid
    /\ forall j i : nat,
         Spec.cell newGrid j i
         = if Spec.selected x1 y1 x2 y2 j i then None else Spec.cell grid j i.
Proof.
  intros Hr Ht Hk Hm.
  destruct (clearSelection_result w h grid x1 y1 x2 y2 Hr)
    as (newGrid & E & R & C).
  exists newGrid. split; [| split; [exact R | exact C]].
  unfold handleKeyDown.
  change (String.eqb (targetTagName event) "INPUT"
          || String.eqb (targetTagName event) "TEXTAREA"
          || String.eqb (targetTagName event) "SELECT")
    with (Spec.typing event).
  rewrite Ht. cbv zeta. rewrite Hk, Hm.
  rewrite (key_is_not_shift _ (or_intror Hk)).
  change (String.eqb "x" "c") with false.
  change (String.eqb "x" "x") with true. cbn [andb].
  unfold Spec.area. cbn [sel_x1 sel_y1 sel_x2 sel_y2].
  rewrite !selection_size.
  rewrite (extractData_block w h grid x1 y1 _ _ Hr), E.
  unfold effects_then, andThen. cbn [fst snd app].
  unfold Spec.swap_effects.
  destruct colorHistory as [| c0 [| c1 rest]];
    destruct (Spec.selection_coloured grid x1 y1 x2 y2); reflexivity.
Qed.

Lemma cut_clears_selection_witness :
  let grid := [[Some "#ff0000"; None]; [None; Some "#00ff00"]] in
  let event :=
    {| targetTagName := "BODY"; event_key := "x"; metaKey := true;
       ctrlKey := false |} in
  let dims := {| dim_width := n2; dim_height := n2 |} in
  Spec.rectangular 2 2 grid
  /\ Spec.typing event = false
  /\ exists newGrid : Grid,
       handleKeyDown ["#ff0000"; "#00ff00"] (Some (Spec.area 1 1 2 1)) grid
         dims event
       = ([ SelectColor "#00ff00";
            ConsoleLog "Swapped active color to: #00ff00";
            ConsoleLog "Cut shortcut detected with selection:";
            EventPreventDefault;
            SetCopyBuffer
              {| buffer_width := n2; buffer_height := n1;
                 buffer_data := [[Some "#00ff00"; None]] |};
            ConsoleLog "Data copied to buffer for cut:";
            SetPixelGridAfterCut newGrid;
            PushHistory newGrid dims "cut";
            SetSelectionArea None ], Returns)
       /\ Spec.rectangular 2 2 newGrid
       /\ forall j i : nat,
            Spec.cell newGrid j i
            = if Spec.selected 1 1 2 1 j i then None else Spec.cell grid j i.
Proof.
  intros grid event dims.
  assert (Ht : Spec.typing event = false) by reflexivity.
  split; [exact sample_rectangular |]. split; [exact Ht |].
  exact (cut_clears_selection 2 2 grid 1 1 2 1 ["#ff0000"; "#00ff00"] dims
           event sample_rectangular Ht eq_refl eq_refl).
Defined.

End ClipboardProps.
(** ** The visible range of the states the component holds *)

Module WindowProps.

Import SVGRenderer NumberFacts.









End WindowProps.
